(** * onego-project/xmlrpc: the XML-RPC codec, embedded and verified

    The development follows the Go sources:
    - [payload.go]  (request side: the tree of etree elements that is written out),
    - [client.go]   (reflection driven conversion of native arguments),
    - [result.go]   (response side: walking the parsed tree into a [Result]),
    - [errors.go]   (temporary errors and timeouts),
    - the logging hook [LogErrorFunc] (for errors that are only logged).

    The libraries the package calls ([etree], [strconv], [encoding/base64],
    [time], [reflect], [pkg/errors]) are modelled by the small parts of
    their behaviour that the package relies on; each model says which part
    that is.  Serialisation to bytes, XML parsing and the network are
    outside: the codec is stated on element trees, and the client takes
    the three as given. *)

From Stdlib Require Import ZArith String Ascii List Lia PrimFloat Permutation.
From Stdlib.Strings Require Import Byte.
From stdpp Require Import base option gmap strings list.

#[local] Open Scope string_scope.
#[local] Open Scope Z_scope.
#[local] Set Warnings "-register-all".

(** ** Errors ([github.com/pkg/errors])

    [errors.Errorf] builds an error from its formatted message,
    [errors.Wrap] and [errors.Wrapf] put a message in front of a cause.
    Errors that come out of the standard library ([strconv], [time],
    [encoding/base64]) are kept by the name of the function that
    produced them. *)

Inductive error : Type :=
| Errorf (msg : string)
| Wrap (cause : error) (msg : string)
| External (origin : string).

(** [err.Error()] *)
Fixpoint Error (e : error) : string :=
  match e with
  | Errorf msg => msg
  | Wrap cause msg => msg +:+ ": " +:+ Error cause
  | External origin => origin
  end.

(** A Go result pair [(x, err)] in which exactly one side is set. *)
Inductive Res (A : Type) : Type :=
| OK (a : A)
| Err (e : error).
Arguments OK {A} a.
Arguments Err {A} e.

(** The first component of the pair: [None] is Go's [nil]. *)
Definition valueOf {A} (r : Res A) : option A :=
  match r with OK a => Some a | Err _ => None end.

(** The second component of the pair. *)
Definition errorOf {A} (r : Res A) : option error :=
  match r with OK _ => None | Err e => Some e end.

(** Encoding can also panic (failed type assertions, reflect misuse). *)
Inductive Outcome (A : Type) : Type :=
| Return (a : A)
| Failure (e : error)
| Panic (reason : string).
Arguments Return {A} a.
Arguments Failure {A} e.
Arguments Panic {A} reason.

(** ** Element trees ([github.com/beevik/etree])

    An element has a tag and an ordered list of child tokens; a token is
    an element, character data, or something else (comment, directive,
    processing instruction).  Attributes and namespace prefixes are not
    looked at by the package and are left out. *)

Inductive Element : Type :=
| mkElement (tag : string) (child : list Token)
with Token : Type :=
| TElement (e : Element)
| TCharData (data : string)
| TOther.

Definition Tag (e : Element) : string :=
  match e with mkElement tag _ => tag end.

Definition Child (e : Element) : list Token :=
  match e with mkElement _ child => child end.

(** [etree.NewElement] *)
Definition NewElement (tag : string) : Element := mkElement tag [].

(** [e.ChildElements()]: the children that are elements, in order. *)
Fixpoint elementsOf (child : list Token) : list Element :=
  match child with
  | [] => []
  | TElement c :: rest => c :: elementsOf rest
  | _ :: rest => elementsOf rest
  end.

Definition ChildElements (e : Element) : list Element := elementsOf (Child e).

(** [e.Text()]: the character data the element starts with. *)
Definition Text (e : Element) : string :=
  match Child e with
  | TCharData data :: _ => data
  | _ => ""
  end.

(** [e.SetText(text)]: replaces the leading character data, or puts
    the text in front of the children. *)
Definition SetText (text : string) (e : Element) : Element :=
  match Child e with
  | TCharData _ :: rest => mkElement (Tag e) (TCharData text :: rest)
  | child => mkElement (Tag e) (TCharData text :: child)
  end.

(** [e.AddChild(t)]: appends a token. *)
Definition AddChild (t : Token) (e : Element) : Element :=
  mkElement (Tag e) (Child e ++ [t]).

(** Paths.  Every path of the package is a [/]-separated list of plain
    tags, each of which selects the child elements with that tag. *)
Fixpoint splitPath (path : string) : list string :=
  match path with
  | EmptyString => [EmptyString]
  | String c rest =>
      if Ascii.eqb c "/"%char then EmptyString :: splitPath rest
      else match splitPath rest with
           | seg :: segs => String c seg :: segs
           | [] => [String c EmptyString]
           end
  end.

Definition selectChildrenByTag (tag : string) (e : Element) : list Element :=
  List.filter (fun c => String.eqb (Tag c) tag) (ChildElements e).

(** The queue of etree's path walker is first-in first-out, so the
    candidates of one segment are visited in document order. *)
Fixpoint traverse (segments : list string) (nodes : list Element) : list Element :=
  match segments with
  | [] => nodes
  | seg :: remain => traverse remain (flat_map (selectChildrenByTag seg) nodes)
  end.

(** [e.FindElements(path)] *)
Definition FindElements (path : string) (e : Element) : list Element :=
  traverse (splitPath path) [e].

(** [e.FindElement(path)]: the first match, or [nil]. *)
Definition FindElement (path : string) (e : Element) : option Element :=
  head (FindElements path e).

(** Height of a tree; the decoder's recursion is bounded by it. *)
Fixpoint height (e : Element) : nat :=
  match e with
  | mkElement _ child =>
      S ((fix heights (ts : list Token) : nat :=
            match ts with
            | [] => O
            | TElement c :: rest => Nat.max (height c) (heights rest)
            | _ :: rest => heights rest
            end) child)
  end.

(** ** [strconv]

    The integer and boolean conversions are written out.  The two
    floating point conversions are taken as given: [ParseFloat s] is
    [strconv.ParseFloat(s, 64)] and [FormatFloat d] is
    [strconv.FormatFloat(d, 'f', -1, 64)]. *)

Definition isDigit (c : ascii) : bool :=
  (48 <=? Z.of_N (N_of_ascii c)) && (Z.of_N (N_of_ascii c) <=? 57).

Definition digitValue (c : ascii) : Z := Z.of_N (N_of_ascii c) - 48.

Definition digitChar (d : Z) : ascii := ascii_of_N (Z.to_N (d + 48)).

(** The digit loop of [Atoi] and [ParseUint]: [n = n*10 + digit]. *)
Fixpoint parseDigits (s : string) (n : Z) : option Z :=
  match s with
  | EmptyString => Some n
  | String c rest =>
      if isDigit c then parseDigits rest (n * 10 + digitValue c) else None
  end.

Definition minInt64 : Z := - 2 ^ 63.

Definition maxInt64 : Z := 2 ^ 63 - 1.

(** [strconv.Atoi] on a platform whose [int] has 64 bits: an optional
    sign, at least one decimal digit, nothing else, and the value has to
    fit. *)
Definition Atoi (s : string) : option Z :=
  let '(neg, digits) :=
    match s with
    | String c rest =>
        if Ascii.eqb c "-"%char then (true, rest)
        else if Ascii.eqb c "+"%char then (false, rest)
        else (false, s)
    | EmptyString => (false, s)
    end in
  match digits with
  | EmptyString => None
  | _ =>
      match parseDigits digits 0 with
      | None => None
      | Some n =>
          let v := if neg then - n else n in
          if (minInt64 <=? v) && (v <=? maxInt64) then Some v else None
      end
  end.

(** The loop of [formatBits] in base 10: digits are produced from the
    right, [a] is what has been written so far. *)
Fixpoint formatBits (fuel : nat) (u : Z) (a : string) : string :=
  match fuel with
  | O => a
  | S fuel' =>
      if u <? 10 then String (digitChar u) a
      else formatBits fuel' (u / 10) (String (digitChar (u mod 10)) a)
  end.

(** [strconv.FormatInt(i, 10)] for a 64-bit [i] (at most 19 digits). *)
Definition FormatInt (i : Z) : string :=
  if i <? 0 then String "-"%char (formatBits 20 (- i) "")
  else formatBits 20 i "".

(** [strconv.ParseBool] *)
Definition ParseBool (s : string) : option bool :=
  if String.eqb s "1" || String.eqb s "t" || String.eqb s "T"
     || String.eqb s "TRUE" || String.eqb s "true" || String.eqb s "True"
  then Some true
  else if String.eqb s "0" || String.eqb s "f" || String.eqb s "F"
     || String.eqb s "FALSE" || String.eqb s "false" || String.eqb s "False"
  then Some false
  else None.

(** ** [encoding/base64], [StdEncoding]: the standard alphabet with [=]
    padding. *)

Definition encodeStd : string :=
  "ABCDEFGHIJKLMNOPQRSTUVWXYZabcdefghijklmnopqrstuvwxyz0123456789+/".

Definition padChar : ascii := "="%char.

(** The character of a 6-bit value. *)
Definition encodeSextet (v : Z) : ascii :=
  match String.get (Z.to_nat v) encodeStd with
  | Some c => c
  | None => padChar
  end.

(** The decode map: the 6-bit value of a character of the alphabet. *)
Definition decodeSextet (c : ascii) : option Z :=
  let n := Z.of_N (N_of_ascii c) in
  if (65 <=? n) && (n <=? 90) then Some (n - 65)
  else if (97 <=? n) && (n <=? 122) then Some (n - 71)
  else if (48 <=? n) && (n <=? 57) then Some (n + 4)
  else if n =? 43 then Some 62
  else if n =? 47 then Some 63
  else None.

Definition byteZ (b : byte) : Z := Z.of_N (Byte.to_N b).

Definition zByte (v : Z) : byte :=
  match Byte.of_N (Z.to_N (v mod 256)) with
  | Some b => b
  | None => x00
  end.

(** [StdEncoding.EncodeToString]: three bytes give four characters; a
    remainder of one or two bytes is padded. *)
Fixpoint EncodeToString (src : list byte) : string :=
  match src with
  | [] => ""
  | [b0] =>
      let v := Z.shiftl (byteZ b0) 16 in
      String (encodeSextet (Z.land (Z.shiftr v 18) 63))
        (String (encodeSextet (Z.land (Z.shiftr v 12) 63))
           (String padChar (String padChar "")))
  | [b0; b1] =>
      let v := Z.lor (Z.shiftl (byteZ b0) 16) (Z.shiftl (byteZ b1) 8) in
      String (encodeSextet (Z.land (Z.shiftr v 18) 63))
        (String (encodeSextet (Z.land (Z.shiftr v 12) 63))
           (String (encodeSextet (Z.land (Z.shiftr v 6) 63))
              (String padChar "")))
  | b0 :: b1 :: b2 :: rest =>
      let v := Z.lor (Z.lor (Z.shiftl (byteZ b0) 16) (Z.shiftl (byteZ b1) 8))
                     (byteZ b2) in
      String (encodeSextet (Z.land (Z.shiftr v 18) 63))
        (String (encodeSextet (Z.land (Z.shiftr v 12) 63))
           (String (encodeSextet (Z.land (Z.shiftr v 6) 63))
              (String (encodeSextet (Z.land v 63))
                 (EncodeToString rest))))
  end.

(** Line breaks are skipped by the decoder. *)
Fixpoint stripNewlines (s : string) : string :=
  match s with
  | EmptyString => EmptyString
  | String c rest =>
      if Ascii.eqb c "010"%char || Ascii.eqb c "013"%char
      then stripNewlines rest
      else String c (stripNewlines rest)
  end.

(** One quantum after another: four characters give three bytes; only
    the last quantum may be padded, and nothing may follow the padding. *)
Fixpoint decodeQuanta (fuel : nat) (s : string) : option (list byte) :=
  match fuel with
  | O => None
  | S fuel' =>
      match s with
      | EmptyString => Some []
      | String c0 (String c1 (String c2 (String c3 rest))) =>
          match decodeSextet c0, decodeSextet c1 with
          | Some v0, Some v1 =>
              match decodeSextet c2, decodeSextet c3 with
              | Some v2, Some v3 =>
                  let v := Z.lor (Z.lor (Z.shiftl v0 18) (Z.shiftl v1 12))
                                 (Z.lor (Z.shiftl v2 6) v3) in
                  match decodeQuanta fuel' rest with
                  | Some out =>
                      Some (zByte (Z.shiftr v 16) :: zByte (Z.shiftr v 8)
                              :: zByte v :: out)
                  | None => None
                  end
              | Some v2, None =>
                  if Ascii.eqb c3 padChar && String.eqb rest "" then
                    let v := Z.lor (Z.lor (Z.shiftl v0 18) (Z.shiftl v1 12))
                                   (Z.shiftl v2 6) in
                    Some [zByte (Z.shiftr v 16); zByte (Z.shiftr v 8)]
                  else None
              | None, _ =>
                  if Ascii.eqb c2 padChar && Ascii.eqb c3 padChar
                     && String.eqb rest "" then
                    let v := Z.lor (Z.shiftl v0 18) (Z.shiftl v1 12) in
                    Some [zByte (Z.shiftr v 16)]
                  else None
              end
          | _, _ => None
          end
      | _ => None
      end
  end.

(** [StdEncoding.DecodeString] *)
Definition DecodeString (s : string) : option (list byte) :=
  let s' := stripNewlines s in
  decodeQuanta (S (String.length s')) s'.

(** ** [time]

    An instant is kept as seconds and nanoseconds since the Unix epoch
    together with the offset, in seconds east of UTC, of the zone it is
    shown in. *)

Record Time : Type := mkTime {
  unixSec : Z;
  nanosecond : Z;
  zoneOffset : Z }.

(** The zero [time.Time]: January 1, year 1, 00:00:00 UTC. *)
Definition zeroTime : Time := mkTime (-62135596800) 0 0.

(** [t.UTC()] *)
Definition UTC (t : Time) : Time := mkTime (unixSec t) (nanosecond t) 0.

(** Days since the Unix epoch to the proleptic Gregorian date. *)
Definition civilFromDays (days : Z) : Z * Z * Z :=
  let z := days + 719468 in
  let era := z / 146097 in
  let doe := z - era * 146097 in
  let yoe := (doe - doe / 1460 + doe / 36524 - doe / 146096) / 365 in
  let doy := doe - (365 * yoe + yoe / 4 - yoe / 100) in
  let mp := (5 * doy + 2) / 153 in
  let d := doy - (153 * mp + 2) / 5 + 1 in
  let m := if mp <? 10 then mp + 3 else mp - 9 in
  let y := yoe + era * 400 in
  (if m <=? 2 then y + 1 else y, m, d).

(** The proleptic Gregorian date to days since the Unix epoch. *)
Definition daysFromCivil (year month day : Z) : Z :=
  let y := if month <=? 2 then year - 1 else year in
  let era := y / 400 in
  let yoe := y - era * 400 in
  let mp := if 2 <? month then month - 3 else month + 9 in
  let doy := (153 * mp + 2) / 5 + day - 1 in
  let doe := yoe * 365 + yoe / 4 - yoe / 100 + doy in
  era * 146097 + doe - 719468.

Definition isLeap (year : Z) : bool :=
  (year mod 4 =? 0) && (negb (year mod 100 =? 0) || (year mod 400 =? 0)).

Definition daysIn (month year : Z) : Z :=
  if month =? 2 then (if isLeap year then 29 else 28)
  else if (month =? 4) || (month =? 6) || (month =? 9) || (month =? 11) then 30
  else 31.

(** [time.Date(year, month, day, hour, min, sec, nsec, loc)] for a zone
    of fixed offset [off]. *)
Definition Date (year month day hour min sec nsec off : Z) : Time :=
  mkTime (daysFromCivil year month day * 86400 + hour * 3600 + min * 60 + sec - off)
         nsec off.

(** [appendInt]: decimal, zero padded to [width] digits. *)
Fixpoint padZeros (n : nat) (s : string) : string :=
  match n with
  | O => s
  | S n' => padZeros n' (String "0"%char s)
  end.

Definition appendInt (x : Z) (width : nat) : string :=
  let digits := formatBits 20 (Z.abs x) "" in
  let padded := padZeros (width - String.length digits) digits in
  if x <? 0 then String "-"%char padded else padded.

(** [const timeFormat = 2006-01-02T15:04:05-0700] of payload.go;
    [FormatTimeFormat t] is [t.Format(timeFormat)]. *)
Definition timeFormat : string := "2006-01-02T15:04:05-0700".

Definition FormatTimeFormat (t : Time) : string :=
  let abs := unixSec t + zoneOffset t in
  let '(year, month, day) := civilFromDays (abs / 86400) in
  let secs := abs mod 86400 in
  let zone := zoneOffset t / 60 in
  appendInt year 4 +:+ "-" +:+ appendInt month 2 +:+ "-" +:+ appendInt day 2
  +:+ "T" +:+ appendInt (secs / 3600) 2 +:+ ":" +:+ appendInt (secs mod 3600 / 60) 2
  +:+ ":" +:+ appendInt (secs mod 60) 2
  +:+ (if zone <? 0 then "-" else "+")
  +:+ appendInt (Z.abs zone / 60) 2 +:+ appendInt (Z.abs zone mod 60) 2.

(** [getnum]: one or two digits; exactly two when [fixed]. *)
Definition getnum (s : string) (fixed : bool) : option (Z * string) :=
  match s with
  | String c0 rest =>
      if isDigit c0 then
        match rest with
        | String c1 rest' =>
            if isDigit c1 then Some (digitValue c0 * 10 + digitValue c1, rest')
            else if fixed then None else Some (digitValue c0, rest)
        | EmptyString => if fixed then None else Some (digitValue c0, rest)
        end
      else None
  | EmptyString => None
  end.

(** The package-internal [atoi] of [time]: optional sign, then digits. *)
Definition timeAtoi (s : string) : option Z :=
  match s with
  | String "-"%char rest => option_map Z.opp (parseDigits rest 0)
  | String "+"%char rest => parseDigits rest 0
  | _ => parseDigits s 0
  end.

(** A literal piece of the layout (here always one character) has to
    be there. *)
Definition skip (c : ascii) (s : string) : option string :=
  match s with
  | String c' rest => if Ascii.eqb c' c then Some rest else None
  | EmptyString => None
  end.

Fixpoint leadingDigits (s : string) : string * string :=
  match s with
  | String c rest =>
      if isDigit c then
        let '(ds, rest') := leadingDigits rest in (String c ds, rest')
      else (EmptyString, s)
  | EmptyString => (EmptyString, EmptyString)
  end.

(** A fraction of a second after the seconds field is read even though
    the layout has none: at most nine digits count. *)
Definition parseFraction (s : string) : Z * string :=
  match s with
  | String c (String d rest) =>
      if (Ascii.eqb c "."%char || Ascii.eqb c ","%char) && isDigit d then
        let '(ds, rest') := leadingDigits (String d rest) in
        let kept := String.substring 0 9 ds in
        match parseDigits kept 0 with
        | Some ns => (ns * 10 ^ (9 - Z.of_nat (String.length kept)), rest')
        | None => (0, rest')
        end
      else (0, s)
  | _ => (0, s)
  end.

(** The zone of the layout piece [Z07:00]: the letter [Z], or else at
    least six characters, the fourth a colon: a sign, two digits, the
    colon and two digits. *)
Definition parseColonTZ (s : string) : option (Z * string) :=
  match s with
  | EmptyString => None
  | String c0 rest0 =>
      if Ascii.eqb c0 "Z"%char then Some (0, rest0)
      else
        match rest0 with
        | String h1 (String h2 (String colon (String m1 (String m2 rest)))) =>
            if Ascii.eqb colon ":"%char then
              match timeAtoi (String h1 (String h2 EmptyString)),
                    timeAtoi (String m1 (String m2 EmptyString)) with
              | Some hr, Some mm =>
                  let off := (hr * 60 + mm) * 60 in
                  if Ascii.eqb c0 "+"%char then Some (off, rest)
                  else if Ascii.eqb c0 "-"%char then Some (- off, rest)
                  else None
              | _, _ => None
              end
            else None
        | _ => None
        end
  end.

Definition inRange (lo x hi : Z) : bool := (lo <=? x) && (x <=? hi).

(** [time.Parse(time.RFC3339, s)], the layout being
    [2006-01-02T15:04:05Z07:00]. *)
Definition ParseRFC3339 (s : string) : option Time :=
  match s with
  | String y0 (String y1 (String y2 (String y3 s0))) =>
      if negb (isDigit y0) then None else
      year ← timeAtoi (String y0 (String y1 (String y2 (String y3 EmptyString))));
      s1 ← skip "-" s0;
      '(month, s2) ← getnum s1 true;
      if negb (inRange 1 month 12) then None else
      s3 ← skip "-" s2;
      '(day, s4) ← getnum s3 true;
      s5 ← skip "T" s4;
      '(hour, s6) ← getnum s5 false;
      if negb (inRange 0 hour 23) then None else
      s7 ← skip ":" s6;
      '(min, s8) ← getnum s7 true;
      if negb (inRange 0 min 59) then None else
      s9 ← skip ":" s8;
      '(sec, s10) ← getnum s9 true;
      if negb (inRange 0 sec 59) then None else
      let '(nsec, s11) := parseFraction s10 in
      '(off, s12) ← parseColonTZ s11;
      if negb (String.eqb s12 "") then None else
      if negb (inRange 1 day (daysIn month year)) then None else
      Some (Date year month day hour min sec nsec off)
  | _ => None
  end.

(** ** [reflect]: native values

    An argument is an [interface{}] value: a dynamic type and data.  The
    types carry what the package asks of them: the kind, for defined
    types the package path and the name, and the element and key types
    of arrays, slices and maps. *)

Module reflect.

Inductive Kind : Type :=
| Invalid | Bool | Int | Int8 | Int16 | Int32 | Int64
| Uint | Uint8 | Uint16 | Uint32 | Uint64 | Uintptr
| Float32 | Float64 | Complex64 | Complex128
| Array | Chan | Func | Interface | Map | Ptr | Slice | String | Struct
| UnsafePointer.

(** [Kind.String()] *)
Definition KindString (k : Kind) : string :=
  match k with
  | Invalid => "invalid" | Bool => "bool" | Int => "int" | Int8 => "int8"
  | Int16 => "int16" | Int32 => "int32" | Int64 => "int64"
  | Uint => "uint" | Uint8 => "uint8" | Uint16 => "uint16"
  | Uint32 => "uint32" | Uint64 => "uint64" | Uintptr => "uintptr"
  | Float32 => "float32" | Float64 => "float64"
  | Complex64 => "complex64" | Complex128 => "complex128"
  | Array => "array" | Chan => "chan" | Func => "func"
  | Interface => "interface" | Map => "map" | Ptr => "ptr"
  | Slice => "slice" | String => "string" | Struct => "struct"
  | UnsafePointer => "unsafe.Pointer"
  end.

Definition kindEqb (a b : Kind) : bool :=
  String.eqb (KindString a) (KindString b).

(** Go types.  [Basic k] is the predeclared type of kind [k] ([bool],
    [int], [uint8] alias [byte], [string], ...); [Defined] is a type
    declared with a name in a package. *)
Inductive Type_ : Type :=
| Basic (k : Kind)
| ArrayOf (len : nat) (elem : Type_)
| SliceOf (elem : Type_)
| MapOf (key elem : Type_)
| PtrTo (elem : Type_)
| StructLit
| InterfaceLit
| Opaque (k : Kind)
| Defined (pkgPath name : string) (underlying : Type_).

(** [t.Kind()] *)
Fixpoint TypeKind (t : Type_) : Kind :=
  match t with
  | Basic k => k
  | ArrayOf _ _ => Array
  | SliceOf _ => Slice
  | MapOf _ _ => Map
  | PtrTo _ => Ptr
  | StructLit => Struct
  | InterfaceLit => Interface
  | Opaque k => k
  | Defined _ _ underlying => TypeKind underlying
  end.

(** [t.PkgPath()] and [t.Name()] *)
Definition PkgPath (t : Type_) : string :=
  match t with Defined pkgPath _ _ => pkgPath | _ => "" end.

Definition Name (t : Type_) : string :=
  match t with
  | Defined _ name _ => name
  | Basic k => KindString k
  | _ => ""
  end.

(** [t.Elem()] and [t.Key()]; [None] where reflect panics. *)
Fixpoint Elem (t : Type_) : option Type_ :=
  match t with
  | ArrayOf _ elem | SliceOf elem | MapOf _ elem | PtrTo elem => Some elem
  | Defined _ _ underlying => Elem underlying
  | _ => None
  end.

Fixpoint Key (t : Type_) : option Type_ :=
  match t with
  | MapOf key _ => Some key
  | Defined _ _ underlying => Key underlying
  | _ => None
  end.

Fixpoint typeEqb (a b : Type_) : bool :=
  match a, b with
  | Basic k, Basic k' => kindEqb k k'
  | ArrayOf n e, ArrayOf n' e' => Nat.eqb n n' && typeEqb e e'
  | SliceOf e, SliceOf e' => typeEqb e e'
  | MapOf k e, MapOf k' e' => typeEqb k k' && typeEqb e e'
  | PtrTo e, PtrTo e' => typeEqb e e'
  | StructLit, StructLit => true
  | InterfaceLit, InterfaceLit => true
  | Opaque k, Opaque k' => kindEqb k k'
  | Defined p n u, Defined p' n' u' =>
      String.eqb p p' && String.eqb n n' && typeEqb u u'
  | _, _ => false
  end.

(** The type [time.Time]. *)
Definition timeTime : Type_ := Defined "time" "Time" StructLit.

(** An [interface{}] value.  [VSeq] is an array or a slice with its
    elements as [v.Index(i).Interface()] gives them; [VMap] lists the
    entries of a map in the order in which [v.MapKeys()] hands out the
    keys in this run. *)
Inductive Value : Type :=
| Nil
| VBool (t : Type_) (b : bool)
| VInt (t : Type_) (i : Z)
| VUint (t : Type_) (u : Z)
| VFloat (t : Type_) (f : float)
| VString (t : Type_) (s : string)
| VTime (tm : Time)
| VSeq (t : Type_) (elems : list Value)
| VMap (t : Type_) (entries : list (Value * Value))
| VOther (t : Type_).

(** [reflect.TypeOf] *)
Definition TypeOf (v : Value) : option Type_ :=
  match v with
  | Nil => None
  | VBool t _ | VInt t _ | VUint t _ | VFloat t _ | VString t _
  | VSeq t _ | VMap t _ | VOther t => Some t
  | VTime _ => Some timeTime
  end.

(** [reflect.ValueOf(arg).Kind()] *)
Definition KindOf (v : Value) : Kind :=
  match TypeOf v with
  | Some t => TypeKind t
  | None => Invalid
  end.

(** [k.String()] for a key of kind [String]. *)
Definition StringOf (v : Value) : string :=
  match v with
  | VString _ s => s
  | _ => ""
  end.

End reflect.

(** ** result.go: kinds and results *)

Inductive Kind : Type :=
| KindInvalid
| KindArray
| KindBase64
| KindBool
| KindDateTime
| KindDouble
| KindInt
| KindString
| KindStruct.

(** [type Result struct].  A slice or map field is [None] when it is
    [nil]; the pointers of [resStruct] and [resArray] are never [nil]
    and are kept as the results they point to. *)
Inductive Result : Type := mkResult {
  resString : string;
  resInt : Z;
  resBoolean : bool;
  resDouble : float;
  resDateTime : Time;
  resBase64 : option (list byte);
  resStruct : option (gmap string Result);
  resArray : option (list Result);
  kind : Kind }.

(** [Result{}] *)
Definition zeroResult : Result :=
  mkResult "" 0 false PrimFloat.zero zeroTime None None None KindInvalid.

(** Composite literals [&Result{field: x, kind: k}]: the other fields
    stay zero. *)
Definition stringResult (s : string) : Result :=
  mkResult s 0 false PrimFloat.zero zeroTime None None None KindString.

Definition intResult (n : Z) : Result :=
  mkResult "" n false PrimFloat.zero zeroTime None None None KindInt.

Definition boolResult (b : bool) : Result :=
  mkResult "" 0 b PrimFloat.zero zeroTime None None None KindBool.

Definition doubleResult (d : float) : Result :=
  mkResult "" 0 false d zeroTime None None None KindDouble.

Definition dateTimeResult (t : Time) : Result :=
  mkResult "" 0 false PrimFloat.zero t None None None KindDateTime.

Definition base64Result (b : list byte) : Result :=
  mkResult "" 0 false PrimFloat.zero zeroTime (Some b) None None KindBase64.

Definition arrayResult (rs : list Result) : Result :=
  mkResult "" 0 false PrimFloat.zero zeroTime None None (Some rs) KindArray.

Definition structResult (m : gmap string Result) : Result :=
  mkResult "" 0 false PrimFloat.zero zeroTime None (Some m) None KindStruct.

(** The accessors. *)
Definition ResultString (r : Result) : string := resString r.

Definition ResultInt (r : Result) : Z := resInt r.

Definition ResultBoolean (r : Result) : bool := resBoolean r.

Definition ResultDouble (r : Result) : float := resDouble r.

Definition ResultDateTime (r : Result) : Time := resDateTime r.

Definition ResultBase64 (r : Result) : option (list byte) := resBase64 r.

Definition ResultStruct (r : Result) : option (gmap string Result) := resStruct r.

Definition ResultArray (r : Result) : option (list Result) := resArray r.

Definition methodResponseValuePath : string := "methodResponse/params/param/value".

Definition methodResponseFaultPath : string := "methodResponse/fault".

Definition arrayValuePath : string := "data/value".

Definition faultMembersPath : string := "value/struct/member".

Definition faultCodeName : string := "faultCode".

Definition faultStringName : string := "faultString".

Definition faultMemberNameTag : string := "name".

Definition faultMemberValueIntPath : string := "value/int".

Definition faultMemberValueI4Path : string := "value/i4".

Definition faultMemberValueStringPath : string := "value/string".

Definition structMemberPath : string := "member".

Definition structMemberNameTag : string := "name".

Definition structMemberValueTag : string := "value".

(** The errors of result.go, by the names the specification gives them. *)
Definition UnrecognizedResponseShape : error :=
  Errorf "failed to recognize XML RPC response".

Definition UnrecognizedFaultShape : error :=
  Errorf "failed to recognize XML RPC fault".

Definition RemoteFault (code message : string) : error :=
  Errorf ("XML RPC error: " +:+ code +:+ ": " +:+ message).

Definition MalformedValue : error :=
  Errorf "'value' tag doesn't contain exactly one child tag".

Definition IntegerConversionFailed (text : string) : error :=
  Wrap (External "strconv.Atoi") ("cannot convert '" +:+ text +:+ "' to integer").

Definition BooleanConversionFailed (text : string) : error :=
  Wrap (External "strconv.ParseBool") ("cannot convert '" +:+ text +:+ "' to boolean").

Definition DoubleConversionFailed (text : string) : error :=
  Wrap (External "strconv.ParseFloat")
       ("cannot convert '" +:+ text +:+ "' to floating point number").

Definition DateTimeConversionFailed (text : string) : error :=
  Wrap (External "time.Parse") ("cannot convert '" +:+ text +:+ "' to a date").

Definition Base64ConversionFailed (text : string) : error :=
  Wrap (External "base64.DecodeString") ("cannot decode '" +:+ text +:+ "' as base64").

Definition UnrecognizedTag (tag : string) : error :=
  Errorf ("cannot recognize tag '" +:+ tag +:+ "'").

Definition EmptyArrayNotAllowed : error := Errorf "no values found in array".

Definition EmptyStructNotAllowed : error := Errorf "no members found in struct".

Definition MissingMemberName : error :=
  Errorf "no 'name' tag found for struct member".

Definition MissingMemberValue : error :=
  Errorf "no 'value' tag found for struct member".

Definition DuplicateMemberName (name : string) : error :=
  Errorf ("struct member '" +:+ name +:+ "' found multiple times").

(** The decoder never meets this error: it stands where the recursion
    bound of [parseElementAt] would be used up, which [parseElement]
    rules out by starting from the height of the tree. *)
Definition boundReached : error := External "recursion bound".

(** The loop of [parseArray]; [parse] is the call of [parseElement]. *)
Fixpoint parseArrayLoop (parse : Element -> Res Result)
    (elements : list Element) (results : list Result) : Res (list Result) :=
  match elements with
  | [] => OK results
  | element :: rest =>
      match ChildElements element with
      | [child] =>
          match parse child with
          | Err err => Err err
          | OK value => parseArrayLoop parse rest (results ++ [value])
          end
      | _ => Err MalformedValue
      end
  end.

Definition parseArrayWith (parse : Element -> Res Result) (e : Element)
    : Res (list Result) :=
  match parseArrayLoop parse (FindElements arrayValuePath e) [] with
  | Err err => Err err
  | OK results =>
      if (length results =? 0)%nat then Err EmptyArrayNotAllowed else OK results
  end.

(** The loop of [parseStruct]. *)
Fixpoint parseStructLoop (parse : Element -> Res Result)
    (members : list Element) (results : gmap string Result)
    : Res (gmap string Result) :=
  match members with
  | [] => OK results
  | member :: rest =>
      match FindElement structMemberNameTag member,
            FindElement structMemberValueTag member with
      | None, _ => Err MissingMemberName
      | Some _, None => Err MissingMemberValue
      | Some name, Some value =>
          match results !! Text name with
          | Some _ => Err (DuplicateMemberName (Text name))
          | None =>
              match ChildElements value with
              | [child] =>
                  match parse child with
                  | Err err => Err err
                  | OK ret => parseStructLoop parse rest (<[Text name := ret]> results)
                  end
              | _ => Err MalformedValue
              end
          end
      end
  end.

Definition parseStructWith (parse : Element -> Res Result) (e : Element)
    : Res (gmap string Result) :=
  match parseStructLoop parse (FindElements structMemberPath e) ∅ with
  | Err err => Err err
  | OK results =>
      if (size results =? 0)%nat then Err EmptyStructNotAllowed else OK results
  end.

(** ** errors.go: the cause of an error

    [errors.Cause] follows the causes as long as the error has one.  The
    errors of [errors.Wrap] and [errors.Wrapf] have a cause; the errors of
    [errors.Errorf] and the errors of other packages have none. *)
Fixpoint Cause (err : error) : error :=
  match err with
  | Wrap cause _ => Cause cause
  | _ => err
  end.

(** ** [net/http]

    A request as [makeRequest] builds it, and a response as it reads it:
    the status code, what [ioutil.ReadAll(res.Body)] returns and what
    [res.Body.Close()] returns ([None] is [nil]). *)
Record Request : Type := mkRequest {
  Method : string;
  URL : string;
  Header : list (string * string);
  RequestBody : list byte }.

Record Response : Type := mkResponse {
  StatusCode : Z;
  BodyReadAll : Res (list byte);
  BodyClose : option error }.

(** [req.Header.Set(key, value)]: the value replaces those of the key. *)
Definition HeaderSet (key value : string) (req : Request) : Request :=
  mkRequest (Method req) (URL req)
    ((key, value) :: List.filter (fun kv => negb (String.eqb kv.1 key)) (Header req))
    (RequestBody req).

(** [type Client struct].  The [http.Client] of a client is the one that
    [NewClient] makes; what its [Do] does is left to the network. *)
Record Client : Type := mkClient {
  endpoint : string }.

(** [NewClient] *)
Definition NewClient (endpoint : string) : Client := mkClient endpoint.

(** * Examples

    The examples convert no float other than zero; for them the two
    [strconv] functions are cut down to the text of zero. *)

Definition zeroParseFloat (s : string) : option float :=
  if String.eqb s "0" then Some PrimFloat.zero else None.

Definition zeroFormatFloat (d : float) : string := "0".

Definition elem (tag : string) (child : list Token) : Token :=
  TElement (mkElement tag child).

Definition text (tag data : string) : Token :=
  TElement (mkElement tag [TCharData data]).

(** [<methodResponse><params><param>value</param></params></methodResponse>] *)
Definition responseOf (value : Token) : Element :=
  mkElement "" [TOther; elem "methodResponse" [elem "params" [elem "param" [value]]]].

(** The response to [pow(2, 9)]. *)
Definition response512 : Element := responseOf (elem "value" [text "int" "512"]).

(** A response with both a parameter and a fault. *)
Definition responseBoth : Element :=
  mkElement "" [elem "methodResponse"
                  [elem "params" [elem "param" [elem "value" [text "int" "512"]]];
                   elem "fault" []]].

(** The fault [faultCode = 4], [faultString = bad args]. *)
Definition faultBadArgs : Element :=
  mkElement "fault"
    [elem "value"
       [elem "struct"
          [elem "member" [text "name" "faultCode"; elem "value" [text "int" "4"]];
           elem "member" [text "name" "faultString";
                          elem "value" [text "string" "bad args"]]]]].

Definition responseFault : Element :=
  mkElement "" [elem "methodResponse" [TElement faultBadArgs]].

(** [<array><data><value><int>1</int></value><value><int>2</int></value></data></array>] *)
Definition arrayOneTwo : Element :=
  mkElement "array"
    [elem "data" [elem "value" [text "int" "1"]; elem "value" [text "int" "2"]]].

(** An array whose second value element has no child. *)
Definition arrayOneThenEmpty : Element :=
  mkElement "array" [elem "data" [elem "value" [text "int" "1"]; elem "value" []]].

(** An array whose first value holds an unknown tag and whose second
    value element has no child. *)
Definition arrayUnknownThenEmpty : Element :=
  mkElement "array" [elem "data" [elem "value" [elem "foo" []]; elem "value" []]].

(** A struct with the members [a = 1] and [b = x]. *)
Definition structAB : Element :=
  mkElement "struct"
    [elem "member" [text "name" "a"; elem "value" [text "int" "1"]];
     elem "member" [text "name" "b"; elem "value" [text "string" "x"]]].

(** A struct with two members named [a]. *)
Definition structAA : Element :=
  mkElement "struct"
    [elem "member" [text "name" "a"; elem "value" [text "int" "1"]];
     elem "member" [text "name" "a"; elem "value" [text "int" "2"]]].

(** A struct with one member, with one name child and one value child;
    the value element has no child. *)
Definition structEmptyValue : Element :=
  mkElement "struct" [elem "member" [text "name" "a"; elem "value" []]].

(** A struct whose second member repeats the name [a] and has no value
    element. *)
Definition structARepeatedBare : Element :=
  mkElement "struct"
    [elem "member" [text "name" "a"; elem "value" [text "int" "1"]];
     elem "member" [text "name" "a"]].

(** A struct whose only member has no name and an empty value. *)
Definition structNoName : Element :=
  mkElement "struct" [elem "member" [elem "value" []]].

Definition goString : reflect.Type_ := reflect.Basic reflect.String.

Definition goInt : reflect.Type_ := reflect.Basic reflect.Int.

Definition goInt64 : reflect.Type_ := reflect.Basic reflect.Int64.

(** The map [map[string]int{donut: 10, steak: 100}], its keys
    enumerated in one order and in the other. *)
Definition donutSteak : list (reflect.Value * reflect.Value) :=
  [(reflect.VString goString "donut", reflect.VInt goInt 10);
   (reflect.VString goString "steak", reflect.VInt goInt 100)].

Definition steakDonut : list (reflect.Value * reflect.Value) :=
  [(reflect.VString goString "steak", reflect.VInt goInt 100);
   (reflect.VString goString "donut", reflect.VInt goInt 10)].

Definition foodMap (entries : list (reflect.Value * reflect.Value))
    : reflect.Value :=
  reflect.VMap (reflect.MapOf goString goInt) entries.

(** [[]int64{1, 2, 3}] *)
Definition int64Slice : reflect.Value :=
  reflect.VSeq (reflect.SliceOf goInt64)
    [reflect.VInt goInt64 1; reflect.VInt goInt64 2; reflect.VInt goInt64 3].

(** The Unix epoch, in UTC. *)
Definition epoch : Time := mkTime 0 0 0.

(** The fault [faultBadArgs] with its members in the other order. *)
Definition faultArgsBad : Element :=
  mkElement "fault"
    [elem "value"
       [elem "struct"
          [elem "member" [text "name" "faultString";
                          elem "value" [text "string" "bad args"]];
           elem "member" [text "name" "faultCode"; elem "value" [text "int" "4"]]]]].

(** The response to [pow(2, 9)] as an indented document has it:
    character data between the elements, and a comment. *)
Definition response512Indented : Element :=
  mkElement ""
    [TOther; TCharData " ";
     elem "methodResponse"
       [TCharData " ";
        elem "params"
          [TCharData " ";
           elem "param"
             [TCharData " "; TOther;
              elem "value" [TCharData " "; text "int" "512"; TCharData " "];
              TCharData " "];
           TCharData " "];
        TCharData " "]].

(** The two enumerations of the food map, each entry with the result
    that its value is decoded to. *)
Definition donutSteakResults : list (reflect.Value * reflect.Value * Result) :=
  [(reflect.VString goString "donut", reflect.VInt goInt 10, intResult 10);
   (reflect.VString goString "steak", reflect.VInt goInt 100, intResult 100)].

Definition steakDonutResults : list (reflect.Value * reflect.Value * Result) :=
  [(reflect.VString goString "steak", reflect.VInt goInt 100, intResult 100);
   (reflect.VString goString "donut", reflect.VInt goInt 10, intResult 10)].

(** A network for the examples.  The world is the list of what was
    requested and what was logged.  The hook logs the format; the peer
    either answers every request with the same response or is not
    reached, which is a timeout. *)
Definition logLine : option (string -> list reflect.Value -> list string -> list string) :=
  Some (fun format _ w => (w ++ [format])%list).

Definition anyURL (url : string) : option error := None.

Definition answering (res : Response) (ctx : unit) (req : Request)
    (w : list string) : list string * Res Response :=
  ((w ++ [Method req +:+ " " +:+ URL req])%list, OK res).

Definition notReached (ctx : unit) (req : Request) (w : list string)
    : list string * Res Response :=
  ((w ++ [Method req +:+ " " +:+ URL req])%list, Err (External "net: timeout")).

Definition netTimeout (origin : string) : option bool :=
  if String.eqb origin "net: timeout" then Some true else None.

(** The bytes of the examples are not looked at: whatever is written,
    the peer reads it, and what it answers is parsed to the given
    document. *)
Definition noBytes (doc : Element) : list byte := [].

Definition parsedAs (doc : Element) (data : list byte) : Res Element := OK doc.

(** The response with the status 200, an empty body that is parsed to
    the document at hand, and a body that cannot be closed. *)
Definition response200 : Response :=
  mkResponse 200 (OK []) (Some (External "close")).

Section Codec.

(** [strconv.ParseFloat(s, 64)] and [strconv.FormatFloat(d, 'f', -1, 64)] *)
Variable ParseFloat : string -> option float.

Variable FormatFloat : float -> string.

(** The [switch e.Tag] of [parseElement]; [parse] is the recursive call
    made from [parseArray] and [parseStruct]. *)
Definition parseElementWith (parse : Element -> Res Result) (e : Element)
    : Res Result :=
  if String.eqb (Tag e) "string" then OK (stringResult (Text e))
  else if String.eqb (Tag e) "int" || String.eqb (Tag e) "i4" then
    match Atoi (Text e) with
    | None => Err (IntegerConversionFailed (Text e))
    | Some number => OK (intResult number)
    end
  else if String.eqb (Tag e) "boolean" then
    match ParseBool (Text e) with
    | None => Err (BooleanConversionFailed (Text e))
    | Some boolean => OK (boolResult boolean)
    end
  else if String.eqb (Tag e) "double" then
    match ParseFloat (Text e) with
    | None => Err (DoubleConversionFailed (Text e))
    | Some double => OK (doubleResult double)
    end
  else if String.eqb (Tag e) "dateTime.iso8601" then
    match ParseRFC3339 (Text e) with
    | None => Err (DateTimeConversionFailed (Text e))
    | Some time => OK (dateTimeResult time)
    end
  else if String.eqb (Tag e) "base64" then
    match DecodeString (Text e) with
    | None => Err (Base64ConversionFailed (Text e))
    | Some base64 => OK (base64Result base64)
    end
  else if String.eqb (Tag e) "array" then
    match parseArrayWith parse e with
    | Err err => Err err
    | OK results => OK (arrayResult results)
    end
  else if String.eqb (Tag e) "struct" then
    match parseStructWith parse e with
    | Err err => Err err
    | OK results => OK (structResult results)
    end
  else Err (UnrecognizedTag (Tag e)).

Fixpoint parseElementAt (bound : nat) (e : Element) : Res Result :=
  match bound with
  | O => Err boundReached
  | S bound' => parseElementWith (parseElementAt bound') e
  end.

(** [parseElement], [parseArray], [parseStruct] *)
Definition parseElement (e : Element) : Res Result :=
  parseElementAt (height e) e.

Definition parseArray (e : Element) : Res (list Result) :=
  parseArrayWith parseElement e.

Definition parseStruct (e : Element) : Res (gmap string Result) :=
  parseStructWith parseElement e.

(** [parseValue] *)
Definition parseValue (e : Element) : Res Result :=
  match ChildElements e with
  | [child] => parseElement child
  | _ => Err MalformedValue
  end.

(** The loop of [parseFault]: a member without a name ends it. *)
Fixpoint parseFaultLoop (members : list Element)
    (errCode errMsg : option Element) : option Element * option Element :=
  match members with
  | [] => (errCode, errMsg)
  | member :: rest =>
      match FindElement faultMemberNameTag member with
      | None => (errCode, errMsg)
      | Some name =>
          let errCode :=
            if String.eqb (Text name) faultCodeName then
              match FindElement faultMemberValueIntPath member with
              | None => FindElement faultMemberValueI4Path member
              | Some code => Some code
              end
            else errCode in
          let errMsg :=
            if String.eqb (Text name) faultStringName
            then FindElement faultMemberValueStringPath member
            else errMsg in
          parseFaultLoop rest errCode errMsg
      end
  end.

(** [parseFault] *)
Definition parseFault (e : Element) : Res Result :=
  let members := FindElements faultMembersPath e in
  if negb (length members =? 2)%nat then Err UnrecognizedFaultShape
  else
    match parseFaultLoop members None None with
    | (Some errCode, Some errMsg) => Err (RemoteFault (Text errCode) (Text errMsg))
    | _ => Err UnrecognizedFaultShape
    end.

(** [parseResponse]; the document is its root element. *)
Definition parseResponse (doc : Element) : Res Result :=
  let valueTag := FindElement methodResponseValuePath doc in
  let faultTag := FindElement methodResponseFaultPath doc in
  match valueTag, faultTag with
  | None, None => Err UnrecognizedResponseShape
  | Some _, Some _ => Err UnrecognizedResponseShape
  | _, Some fault => parseFault fault
  | Some value, None => parseValue value
  end.

(** ** payload.go: the request tree *)

Definition enMethodCall : string := "methodCall".

Definition enMethodName : string := "methodName".

Definition enParams : string := "params".

Definition enParam : string := "param".

Definition enValue : string := "value".

Definition enInt : string := "int".

Definition enBoolean : string := "boolean".

Definition enString : string := "string".

Definition enDouble : string := "double".

Definition enDateTime : string := "dateTime.iso8601".

Definition enBase64 : string := "base64".

Definition enMember : string := "member".

Definition enName : string := "name".

Definition enStruct : string := "struct".

Definition enArray : string := "array".

Definition enData : string := "data".

(** The Go code changes a child in place through the pointer that
    [FindElement] returns; here the first child element with the tag is
    replaced by its changed copy. *)
Fixpoint updateFirst (tag : string) (f : Element -> Element)
    (child : list Token) : list Token :=
  match child with
  | [] => []
  | TElement c :: rest =>
      if String.eqb (Tag c) tag then TElement (f c) :: rest
      else TElement c :: updateFirst tag f rest
  | t :: rest => t :: updateFirst tag f rest
  end.

Definition updateChild (tag : string) (f : Element -> Element) (e : Element)
    : Element :=
  mkElement (Tag e) (updateFirst tag f (Child e)).

(** [newPayload]: a document with the XML declaration, the method name
    and an empty parameter list. *)
Definition newPayload (methodName : string) : Element :=
  let elMethodName := SetText methodName (NewElement enMethodName) in
  let elMethodCall :=
    AddChild (TElement (NewElement enParams))
      (AddChild (TElement elMethodName) (NewElement enMethodCall)) in
  AddChild (TElement elMethodCall) (AddChild TOther (NewElement "")).

Definition newScalar (typeName data : string) : Element :=
  SetText data (NewElement typeName).

Definition newInt (data : Z) : Element := newScalar enInt (FormatInt data).

Definition newBoolean (data : bool) : Element :=
  if data then newScalar enBoolean "1" else newScalar enBoolean "0".

Definition newString (data : string) : Element := newScalar enString data.

Definition newDouble (data : float) : Element :=
  newScalar enDouble (FormatFloat data).

Definition newDateTime (data : Time) : Element :=
  newScalar enDateTime (FormatTimeFormat (UTC data)).

Definition newBase64 (data : list byte) : Element :=
  newScalar enBase64 (EncodeToString data).

Definition newStruct : Element := NewElement enStruct.

Definition newArray : Element :=
  AddChild (TElement (NewElement enData)) (NewElement enArray).

(** [wrapToValue]; the [toValue()] methods of [scalar], [structure] and
    [array] all are this function. *)
Definition wrapToValue (v : Element) : Element :=
  AddChild (TElement v) (NewElement enValue).

Definition newMember (name : string) (v : Element) : Element :=
  let elName := SetText name (NewElement enName) in
  AddChild (TElement (wrapToValue v))
    (AddChild (TElement elName) (NewElement enMember)).

Definition addMember (name : string) (v : Element) (s : Element) : Element :=
  AddChild (TElement (newMember name v)) s.

Definition addValue (v : Element) (a : Element) : Outcome Element :=
  match FindElement enData a with
  | None => Panic "'data' element not found"
  | Some _ => Return (updateChild enData (AddChild (TElement (wrapToValue v))) a)
  end.

Definition toParam (v : Element) : Element :=
  AddChild (TElement v) (NewElement enParam).

Definition addParam (v : Element) (p : Element) : Outcome Element :=
  match FindElement (enMethodCall +:+ "/" +:+ enParams) p with
  | None => Panic "'params' element not found"
  | Some _ =>
      Return (updateChild enMethodCall
                (updateChild enParams (AddChild (TElement (toParam (wrapToValue v)))))
                p)
  end.

(** ** client.go: from native values to the request tree *)

Definition InvalidArgumentType (k : reflect.Kind) : error :=
  Errorf ("invalid type " +:+ reflect.KindString k).

(** The type assertion [arg.([]byte)]: the dynamic type has to be
    exactly [[]uint8]. *)
Fixpoint bytesOf (elems : list reflect.Value) : option (list byte) :=
  match elems with
  | [] => Some []
  | reflect.VUint _ u :: rest => cons (zByte u) <$> bytesOf rest
  | _ :: rest => None
  end.

Definition assertBytes (arg : reflect.Value) : Outcome (list byte) :=
  match arg with
  | reflect.VSeq (reflect.SliceOf (reflect.Basic reflect.Uint8)) elems =>
      match bytesOf elems with
      | Some data => Return data
      | None => Panic "interface conversion: ill-typed byte slice"
      end
  | _ => Panic "interface conversion: interface {} is not []uint8"
  end.

(** The loop of [constructArray]; [convert] is the call of [toValue]. *)
Definition constructArrayLoop (convert : reflect.Value -> Outcome Element)
    : list reflect.Value -> Element -> Outcome Element :=
  fix loop (elems : list reflect.Value) (array : Element) : Outcome Element :=
    match elems with
    | [] => Return array
    | x :: rest =>
        match convert x with
        | Failure err => Failure err
        | Panic reason => Panic reason
        | Return value =>
            match addValue value array with
            | Return array' => loop rest array'
            | Failure err => Failure err
            | Panic reason => Panic reason
            end
        end
    end.

(** The loop of [constructStruct] over [v.MapKeys()].  [keyType] is the
    key type of the map: every key has its kind, and [v.MapIndex] panics
    on the key [reflect.ValueOf(k.String())] unless it is [string]
    itself. *)
Definition constructStructLoop (convert : reflect.Value -> Outcome Element)
    (keyType : reflect.Type_)
    : list (reflect.Value * reflect.Value) -> Element -> Outcome Element :=
  fix loop (entries : list (reflect.Value * reflect.Value)) (s : Element)
      : Outcome Element :=
    match entries with
    | [] => Return s
    | (k, x) :: rest =>
        if negb (reflect.kindEqb (reflect.TypeKind keyType) reflect.String)
        then Failure (InvalidArgumentType reflect.Map)
        else
          let key := reflect.StringOf k in
          if negb (reflect.typeEqb keyType (reflect.Basic reflect.String))
          then Panic "reflect.Value.MapIndex: value of type string is not assignable"
          else
            match convert x with
            | Failure err => Failure err
            | Panic reason => Panic reason
            | Return value => loop rest (addMember key value s)
            end
    end.

(** [toValue] *)
Fixpoint toValue (arg : reflect.Value) : Outcome Element :=
  match reflect.KindOf arg with
  | reflect.Bool =>
      match arg with
      | reflect.VBool _ b => Return (newBoolean b)
      | _ => Panic "reflect: call of reflect.Value.Bool"
      end
  | reflect.Int | reflect.Int8 | reflect.Int16 | reflect.Int32 =>
      match arg with
      | reflect.VInt _ i => Return (newInt i)
      | _ => Panic "reflect: call of reflect.Value.Int"
      end
  | reflect.Float32 | reflect.Float64 =>
      match arg with
      | reflect.VFloat _ f => Return (newDouble f)
      | _ => Panic "reflect: call of reflect.Value.Float"
      end
  | reflect.String =>
      match arg with
      | reflect.VString _ s => Return (newString s)
      | _ => Panic "reflect: call of reflect.Value.String"
      end
  | reflect.Struct =>
      match reflect.TypeOf arg with
      | Some t =>
          if negb (String.eqb (reflect.PkgPath t) "time")
             || negb (String.eqb (reflect.Name t) "Time")
          then Failure (InvalidArgumentType reflect.Struct)
          else
            match arg with
            | reflect.VTime tm => Return (newDateTime tm)
            | _ => Panic "interface conversion: interface {} is not time.Time"
            end
      | None => Panic "reflect: Type of invalid Value"
      end
  | reflect.Array | reflect.Slice =>
      match reflect.TypeOf arg ≫= reflect.Elem with
      | Some elem =>
          if reflect.kindEqb (reflect.TypeKind elem) reflect.Uint8 then
            match assertBytes arg with
            | Return data => Return (newBase64 data)
            | Failure err => Failure err
            | Panic reason => Panic reason
            end
          else
            match arg with
            | reflect.VSeq _ elems => constructArrayLoop toValue elems newArray
            | _ => Panic "reflect: call of reflect.Value.Len"
            end
      | None => Panic "reflect: Elem of invalid type"
      end
  | reflect.Map =>
      match arg, reflect.TypeOf arg ≫= reflect.Key with
      | reflect.VMap _ entries, Some keyType =>
          constructStructLoop toValue keyType entries newStruct
      | _, _ => Panic "reflect: call of reflect.Value.MapKeys"
      end
  | k => Failure (InvalidArgumentType k)
  end.

(** [constructArray] and [constructStruct] *)
Definition constructArray (v : reflect.Value) : Outcome Element :=
  match v with
  | reflect.VSeq _ elems => constructArrayLoop toValue elems newArray
  | _ => Panic "reflect: call of reflect.Value.Len"
  end.

Definition constructStruct (v : reflect.Value) : Outcome Element :=
  match v, reflect.TypeOf v ≫= reflect.Key with
  | reflect.VMap _ entries, Some keyType =>
      constructStructLoop toValue keyType entries newStruct
  | _, _ => Panic "reflect: call of reflect.Value.MapKeys"
  end.

(** [preparePayload]; the result is the document that [WriteTo] puts
    into the buffer. *)
Fixpoint preparePayloadLoop (args : list reflect.Value) (payload : Element)
    : Outcome Element :=
  match args with
  | [] => Return payload
  | arg :: rest =>
      match toValue arg with
      | Failure err => Failure (Wrap err "method arguments parsing failed")
      | Panic reason => Panic reason
      | Return value =>
          match addParam value payload with
          | Return payload' => preparePayloadLoop rest payload'
          | Failure err => Failure err
          | Panic reason => Panic reason
          end
      end
  end.

Definition preparePayload (methodName : string) (args : list reflect.Value)
    : Outcome Element :=
  preparePayloadLoop args (newPayload methodName).

(** * The notions that the statements use *)

(** The greatest height among the elements of a list of tokens. *)
Definition maxHeight : list Token -> nat :=
  fix heights (ts : list Token) : nat :=
    match ts with
    | [] => O
    | TElement c :: rest => Nat.max (height c) (heights rest)
    | _ :: rest => heights rest
    end.

(** Two errors of result.go with different messages are different. *)
Ltac different_messages :=
  unfold UnrecognizedResponseShape, UnrecognizedFaultShape, RemoteFault,
    MalformedValue, IntegerConversionFailed, BooleanConversionFailed,
    DoubleConversionFailed, DateTimeConversionFailed, Base64ConversionFailed,
    UnrecognizedTag, EmptyArrayNotAllowed, EmptyStructNotAllowed,
    MissingMemberName, MissingMemberValue, DuplicateMemberName, boundReached;
  cbv [String.append]; congruence.

(** Arrays and slices; a [plainSequence] is one that is not a byte
    sequence: its elements are not of kind [Uint8], so that [toValue]
    hands it to [constructArray]. *)
Definition sequenceKind (t : reflect.Type_) : bool :=
  reflect.kindEqb (reflect.TypeKind t) reflect.Array
  || reflect.kindEqb (reflect.TypeKind t) reflect.Slice.

Definition plainSequence (t : reflect.Type_) : bool :=
  sequenceKind t &&
  match reflect.Elem t with
  | Some elem => negb (reflect.kindEqb (reflect.TypeKind elem) reflect.Uint8)
  | None => false
  end.

(** A value element is well formed when it has exactly one child
    element and that child decodes; [decodesTo value r] also names the
    result. *)
Definition decodesTo (value : Element) (r : Result) : Prop :=
  exists child, ChildElements value = [child] /\ parseElement child = OK r.

(** The map that [parseStruct] has built after the members of [pairs]:
    one assignment [results[name] = ret] after the other. *)
Definition insertAll (results : gmap string Result)
    (pairs : list (string * Result)) : gmap string Result :=
  foldl (fun m p => <[p.1 := p.2]> m) results pairs.

(** A member with a name element and a value element. *)
Definition memberNamed (member : Element) (n : string) (value : Element) : Prop :=
  exists name,
    FindElement structMemberNameTag member = Some name /\ Text name = n /\
    FindElement structMemberValueTag member = Some value.

(** The name of a member: the text of its first name element. *)
Definition memberName (member : Element) : option string :=
  Text <$> FindElement structMemberNameTag member.

(** A member with a name element and a well-formed value element. *)
Definition memberDecodesTo (member : Element) (p : string * Result) : Prop :=
  exists value, memberNamed member p.1 value /\ decodesTo value p.2.

(** The element a member named [faultCode] resolves to: [value/int],
    and [value/i4] when there is no [value/int]. *)
Definition faultCodeOf (member : Element) : option Element :=
  match FindElement faultMemberValueIntPath member with
  | None => FindElement faultMemberValueI4Path member
  | Some code => Some code
  end.

Definition faultStringOf (member : Element) : option Element :=
  FindElement faultMemberValueStringPath member.

Definition faultMemberNamed (member : Element) (n : string) : Prop :=
  exists name, FindElement faultMemberNameTag member = Some name /\ Text name = n.

(** Every accessor other than the one of [Kind()] returns the zero value
    of its type, the kind is not [KindInvalid], and the slice or map of
    the kind is there. *)
Definition zeroOutsideKind (r : Result) : Prop :=
  (kind r <> KindString -> ResultString r = "") /\
  (kind r <> KindInt -> ResultInt r = 0) /\
  (kind r <> KindBool -> ResultBoolean r = false) /\
  (kind r <> KindDouble -> ResultDouble r = PrimFloat.zero) /\
  (kind r <> KindDateTime -> ResultDateTime r = zeroTime) /\
  (kind r <> KindBase64 -> ResultBase64 r = None) /\
  (kind r <> KindStruct -> ResultStruct r = None) /\
  (kind r <> KindArray -> ResultArray r = None) /\
  kind r <> KindInvalid /\
  (kind r = KindBase64 -> ResultBase64 r <> None) /\
  (kind r = KindStruct -> ResultStruct r <> None) /\
  (kind r = KindArray -> ResultArray r <> None).

(** The same for the result and for every result inside it. *)
Inductive exactlyOneKind : Result -> Prop :=
| exactlyOneKind_intro (r : Result) :
    zeroOutsideKind r ->
    (forall rs, ResultArray r = Some rs -> Forall exactlyOneKind rs) ->
    (forall m k r', ResultStruct r = Some m -> m !! k = Some r' ->
                    exactlyOneKind r') ->
    exactlyOneKind r.

(** [zeroOutsideKind] of a composite literal, field by field. *)
Ltac zero_outside_kind :=
  unfold zeroOutsideKind; simpl; repeat split; congruence.



(** The native [[]byte] with the given content. *)
Definition bytesValue (data : list byte) : reflect.Value :=
  reflect.VSeq (reflect.SliceOf (reflect.Basic reflect.Uint8))
               (map (fun b => reflect.VUint (reflect.Basic reflect.Uint8) (byteZ b)) data).






(** The member that [constructStruct] adds for an entry whose value
    has been converted to [w]. *)
Definition memberToken (entry : reflect.Value * reflect.Value) (w : Element)
    : Token :=
  TElement (newMember (reflect.StringOf entry.1) w).

(** The element of a conversion that returned. *)
Definition converted (o : Outcome Element) : Element :=
  match o with
  | Return w => w
  | _ => NewElement ""
  end.

(** Map types whose key type is [string]. *)
Definition stringKeyed (t : reflect.Type_) : Prop :=
  reflect.TypeKind t = reflect.Map /\
  reflect.Key t = Some (reflect.Basic reflect.String).

(** The fixed-size array [[3]byte{1, 2, 3}]. *)
Definition byteArray123 : reflect.Value :=
  reflect.VSeq (reflect.ArrayOf 3 (reflect.Basic reflect.Uint8))
    [reflect.VUint (reflect.Basic reflect.Uint8) 1;
     reflect.VUint (reflect.Basic reflect.Uint8) 2;
     reflect.VUint (reflect.Basic reflect.Uint8) 3].

(** The argument [[]interface{}{[1]byte{0}, int64(1)}]. *)
Definition byteArrayThenInt64 : reflect.Value :=
  reflect.VSeq (reflect.SliceOf reflect.InterfaceLit)
    [reflect.VSeq (reflect.ArrayOf 1 (reflect.Basic reflect.Uint8))
       [reflect.VUint (reflect.Basic reflect.Uint8) 0];
     reflect.VInt (reflect.Basic reflect.Int64) 1].

(** A value of kind [Int64], or a sequence or a map that holds one, at
    any depth. *)
Inductive containsInt64 : reflect.Value -> Prop :=
| containsInt64_here (v : reflect.Value) :
    reflect.KindOf v = reflect.Int64 -> containsInt64 v
| containsInt64_seq (t : reflect.Type_) (elems : list reflect.Value)
    (x : reflect.Value) :
    plainSequence t = true -> In x elems -> containsInt64 x ->
    containsInt64 (reflect.VSeq t elems)
| containsInt64_map (t : reflect.Type_)
    (entries : list (reflect.Value * reflect.Value)) (k x : reflect.Value) :
    reflect.TypeKind t = reflect.Map -> In (k, x) entries -> containsInt64 x ->
    containsInt64 (reflect.VMap t entries).

(** An array under construction: the data wrapper comes first. *)
Definition arrayOf (values : list Token) : Element :=
  mkElement enArray [TElement (mkElement enData values)].

(** * The client: errors.go, the logging hook, client.go, [parseResult] *)

Section Client.

(** ** errors.go

    [Temporary origin] and [Timeout origin] are the methods [Temporary()]
    and [Timeout()] of the error that came out of [origin]; [None] when
    that error has no such method. *)
Variable Temporary : string -> option bool.

Variable Timeout : string -> option bool.

(** [IsTemporary] and [IsTimeout]; the argument [None] is [nil]. *)
Definition IsTemporary (err : option error) : bool :=
  match Cause <$> err with
  | Some (External origin) => default false (Temporary origin)
  | _ => false
  end.

Definition IsTimeout (err : option error) : bool :=
  match Cause <$> err with
  | Some (External origin) => default false (Timeout origin)
  | _ => false
  end.

(** ** The logging hook

    What is outside the program (the network, the log) is a [World];
    [LogErrorFunc] is the package variable, [None] when it is [nil]. *)
Variable World : Type.

Variable LogErrorFunc : option (string -> list reflect.Value -> World -> World).

Definition logError (format : string) (args : list reflect.Value) (w : World)
    : World :=
  match LogErrorFunc with
  | None => w
  | Some log => log format args w
  end.

(** ** client.go: the request

    [urlParse] is the check of the endpoint in [http.NewRequest] (the
    method [POST] is always accepted), [Do] is [c.client.Do] on the
    request with its context; a [Context] is a context that is not
    [nil]. *)
Variable Context : Type.

Variable urlParse : string -> option error.

Variable Do : Context -> Request -> World -> World * Res Response.

Definition NewRequest (method url : string) (body : list byte) : Res Request :=
  match urlParse url with
  | Some err => Err err
  | None => OK (mkRequest method url [] body)
  end.

(** [makeRequest].  The deferred function runs last; the error it
    assigns is not returned. *)
Definition makeRequest (c : Client) (ctx : Context) (content : list byte)
    (w : World) : World * Res (list byte) :=
  match NewRequest "POST" (endpoint c) content with
  | Err err => (w, Err (Wrap err "request preparation failed"))
  | OK req =>
      let req := HeaderSet "Content-Type" "text/xml" req in
      match Do ctx req w with
      | (w, Err err) => (w, Err (Wrap err "connection error"))
      | (w, OK res) =>
          let returned :=
            if negb (Z.quot (StatusCode res) 100 =? 2) then
              Err (Errorf ("response error: code " +:+ FormatInt (StatusCode res)))
            else
              match BodyReadAll res with
              | Err err => Err (Wrap err "response body read failed")
              | OK body => OK body
              end in
          let w :=
            match BodyClose res with
            | Some err =>
                logError (Error (Wrap err "response body closing failed")) [] w
            | None => w
            end in
          (w, returned)
      end
  end.

(** ** result.go: from bytes to a result

    [WriteTo] is what [payload.WriteTo] puts into the buffer of
    [preparePayload] (a [bytes.Buffer] takes every write, so that
    [preparePayload] does not fail there), [ReadFromBytes] is
    [doc.ReadFromBytes] on a new document. *)
Variable WriteTo : Element -> list byte.

Variable ReadFromBytes : list byte -> Res Element.

Definition constructXML (data : list byte) : Res Element :=
  match ReadFromBytes data with
  | Err err => Err (Wrap err "failed to reconstruct XML DOM")
  | OK doc => OK doc
  end.

Definition parseResult (data : list byte) : Res Result :=
  match constructXML data with
  | Err err => Err (Wrap err "cannot parse XML RPC response")
  | OK doc =>
      match parseResponse doc with
      | Err err => Err (Wrap err "cannot parse XML RPC response")
      | OK result => OK result
      end
  end.

(** [Call] *)
Definition Call (c : Client) (ctx : Context) (methodName : string)
    (args : list reflect.Value) (w : World) : World * Outcome Result :=
  match preparePayload methodName args with
  | Failure err => (w, Failure (Wrap err "payload preparation failed"))
  | Panic reason => (w, Panic reason)
  | Return payload =>
      match makeRequest c ctx (WriteTo payload) w with
      | (w, Err err) => (w, Failure (Wrap err "request failed"))
      | (w, OK res) =>
          (w, match parseResult res with
              | Err err => Failure err
              | OK result => Return result
              end)
      end
  end.

End Client.

Arguments logError {World} LogErrorFunc format args w.
Arguments makeRequest {World} LogErrorFunc {Context} urlParse Do c ctx content w.
Arguments Call {World} LogErrorFunc {Context} urlParse Do WriteTo ReadFromBytes
  c ctx methodName args w.

(** * Notions for the statements on errors, trees and kinds *)

(** The errors that decoding a parsed response ends with. *)
Inductive decodeError : error -> Prop :=
| decodeError_response : decodeError UnrecognizedResponseShape
| decodeError_fault : decodeError UnrecognizedFaultShape
| decodeError_remote (code message : string) :
    decodeError (RemoteFault code message)
| decodeError_malformed : decodeError MalformedValue
| decodeError_int (text : string) : decodeError (IntegerConversionFailed text)
| decodeError_bool (text : string) : decodeError (BooleanConversionFailed text)
| decodeError_double (text : string) : decodeError (DoubleConversionFailed text)
| decodeError_date (text : string) : decodeError (DateTimeConversionFailed text)
| decodeError_base64 (text : string) : decodeError (Base64ConversionFailed text)
| decodeError_tag (tag : string) : decodeError (UnrecognizedTag tag)
| decodeError_array : decodeError EmptyArrayNotAllowed
| decodeError_struct : decodeError EmptyStructNotAllowed
| decodeError_name : decodeError MissingMemberName
| decodeError_value : decodeError MissingMemberValue
| decodeError_duplicate (name : string) : decodeError (DuplicateMemberName name).

(** The functions of the standard library whose errors the decoder
    wraps. *)
Definition conversionOrigins : list string :=
  ["strconv.Atoi"; "strconv.ParseBool"; "strconv.ParseFloat"; "time.Parse";
   "base64.DecodeString"].

(** The panics of payload.go: [addValue] and [addParam] on a tree
    without the element they add to. *)
Definition builderPanic (reason : string) : bool :=
  String.eqb reason "'data' element not found"
  || String.eqb reason "'params' element not found".

(** A request document: the declaration, the method name and the
    parameters. *)
Definition payloadOf (methodName : string) (params : list Token) : Element :=
  mkElement "" [TOther;
    TElement (mkElement enMethodCall
                [TElement (mkElement enMethodName [TCharData methodName]);
                 TElement (mkElement enParams params)])].

(** The parameter that [addParam] adds for a converted argument. *)
Definition paramToken (w : Element) : Token :=
  TElement (toParam (wrapToValue w)).

(** A native value that converts to an element which decodes to [r]. *)
Definition echoes (x : reflect.Value) (r : Result) : Prop :=
  exists w, toValue x = Return w /\ parseElement w = OK r.

(** The name and the result of an entry of a map. *)
Definition entryPair (er : reflect.Value * reflect.Value * Result)
    : string * Result :=
  (reflect.StringOf er.1.1, er.2).

(** The tags of the elements whose text the decoder reads: the scalars
    and the names of members. *)
Definition readsText (tag : string) : bool :=
  existsb (String.eqb tag)
    ["string"; "int"; "i4"; "boolean"; "double"; "dateTime.iso8601"; "base64";
     "name"].

(** Two trees with the same elements: the same tag, the same leading
    text where the decoder reads the text, and, one by one, child
    elements that are the same in this sense.  Comments, processing
    instructions and the character data around child elements are not
    compared. *)
Inductive sameElements : Element -> Element -> Prop :=
| sameElements_intro (e e' : Element) :
    Tag e = Tag e' ->
    (readsText (Tag e) = true -> Text e = Text e') ->
    Forall2 sameElements (ChildElements e) (ChildElements e') ->
    sameElements e e'.

(** What is found on a path of one tree and of the other. *)
Definition sameFound (a b : option Element) : Prop :=
  match a, b with
  | Some x, Some y => sameElements x y
  | None, None => True
  | _, _ => False
  end.

Definition sameText (a b : option Element) : Prop :=
  match a, b with
  | Some x, Some y => Text x = Text y
  | None, None => True
  | _, _ => False
  end.

(** The errors that the decoder can answer with to an element that the
    encoder has built. *)
Inductive encoderObjection : error -> Prop :=
| encoderObjection_int (text : string) :
    encoderObjection (IntegerConversionFailed text)
| encoderObjection_double (text : string) :
    encoderObjection (DoubleConversionFailed text)
| encoderObjection_date (text : string) :
    encoderObjection (DateTimeConversionFailed text)
| encoderObjection_array : encoderObjection EmptyArrayNotAllowed
| encoderObjection_struct : encoderObjection EmptyStructNotAllowed
| encoderObjection_duplicate (name : string) :
    encoderObjection (DuplicateMemberName name).

(** The kind that the decoder gives to an element of a tag, and the
    kind of what a native value is sent as: by the kind of the value,
    and for arrays and slices by the kind of the elements. *)
Definition kindOfTag (tag : string) : Kind :=
  if String.eqb tag "string" then KindString
  else if String.eqb tag "int" || String.eqb tag "i4" then KindInt
  else if String.eqb tag "boolean" then KindBool
  else if String.eqb tag "double" then KindDouble
  else if String.eqb tag "dateTime.iso8601" then KindDateTime
  else if String.eqb tag "base64" then KindBase64
  else if String.eqb tag "array" then KindArray
  else if String.eqb tag "struct" then KindStruct
  else KindInvalid.

Definition sentAs (v : reflect.Value) : Kind :=
  match reflect.KindOf v with
  | reflect.Bool => KindBool
  | reflect.Int | reflect.Int8 | reflect.Int16 | reflect.Int32 => KindInt
  | reflect.Float32 | reflect.Float64 => KindDouble
  | reflect.String => KindString
  | reflect.Struct => KindDateTime
  | reflect.Array | reflect.Slice =>
      match reflect.TypeOf v ≫= reflect.Elem with
      | Some elem =>
          if reflect.kindEqb (reflect.TypeKind elem) reflect.Uint8
          then KindBase64 else KindArray
      | None => KindInvalid
      end
  | reflect.Map => KindStruct
  | _ => KindInvalid
  end.

(** * Properties *)

(** ** Element trees *)

Lemma height_eq (e : Element) : height e = S (maxHeight (Child e)).
Proof. destruct e; reflexivity. Qed.

Lemma elementsOf_height (ts : list Token) (c : Element) :
  In c (elementsOf ts) -> (height c <= maxHeight ts)%nat.
Proof.
  induction ts as [|t ts IH]; simpl; [tauto|].
  destruct t as [e| |]; simpl; try (intros H; specialize (IH H); lia).
  intros [->|H]; [lia|]. specialize (IH H). lia.
Qed.

Lemma ChildElements_height (e c : Element) :
  In c (ChildElements e) -> (height c < height e)%nat.
Proof.
  intros H. rewrite (height_eq e). apply elementsOf_height in H. lia.
Qed.

Lemma selectChildrenByTag_In (tag : string) (e c : Element) :
  In c (selectChildrenByTag tag e) -> In c (ChildElements e) /\ Tag c = tag.
Proof.
  unfold selectChildrenByTag. rewrite filter_In.
  intros [H1 H2]. split; [exact H1|]. now apply String.eqb_eq.
Qed.

Lemma traverse_height (segments : list string) :
  forall (nodes : list Element) (x : Element),
    In x (traverse segments nodes) ->
    exists n, In n nodes /\ (height x + length segments <= height n)%nat.
Proof.
  induction segments as [|seg remain IH]; simpl; intros nodes x Hx.
  - exists x. split; [exact Hx|lia].
  - apply IH in Hx. destruct Hx as (n & Hn & Hle).
    apply in_flat_map in Hn. destruct Hn as (n0 & Hn0 & Hsel).
    apply selectChildrenByTag_In in Hsel. destruct Hsel as [Hc _].
    apply ChildElements_height in Hc.
    exists n0. split; [exact Hn0|lia].
Qed.

Lemma splitPath_length (path : string) : (1 <= length (splitPath path))%nat.
Proof.
  induction path as [|c rest IH]; simpl; [lia|].
  destruct (Ascii.eqb c "/"); simpl; [lia|].
  destruct (splitPath rest); simpl in *; lia.
Qed.

Lemma FindElements_height (path : string) (e x : Element) :
  In x (FindElements path e) -> (height x < height e)%nat.
Proof.
  unfold FindElements. intros H. apply traverse_height in H.
  destruct H as (n & [<-|[]] & Hle).
  pose proof (splitPath_length path). lia.
Qed.

Lemma FindElement_height (path : string) (e x : Element) :
  FindElement path e = Some x -> (height x < height e)%nat.
Proof.
  unfold FindElement. intros H. apply FindElements_height with path.
  destruct (FindElements path e); simpl in H; [discriminate|].
  injection H as ->. now left.
Qed.

(** ** The recursion bound of the decoder is never reached *)

Lemma parseArrayLoop_ext (p1 p2 : Element -> Res Result) (elements : list Element) :
  (forall el c, In el elements -> In c (ChildElements el) -> p1 c = p2 c) ->
  forall results,
    parseArrayLoop p1 elements results = parseArrayLoop p2 elements results.
Proof.
  induction elements as [|el rest IH]; intros Hagree results; simpl; [reflexivity|].
  destruct (ChildElements el) as [|c [|c' cs]] eqn:Hch; try reflexivity.
  rewrite (Hagree el c); [|now left|rewrite Hch; now left].
  destruct (p2 c); [|reflexivity].
  apply IH. intros el' c' Hin. apply Hagree. now right.
Qed.

Lemma parseStructLoop_ext (p1 p2 : Element -> Res Result) (members : list Element) :
  (forall m v c, In m members -> FindElement structMemberValueTag m = Some v ->
                 In c (ChildElements v) -> p1 c = p2 c) ->
  forall results,
    parseStructLoop p1 members results = parseStructLoop p2 members results.
Proof.
  induction members as [|m rest IH]; intros Hagree results; simpl; [reflexivity|].
  destruct (FindElement structMemberNameTag m) as [name|]; [|reflexivity].
  destruct (FindElement structMemberValueTag m) as [value|] eqn:Hv; [|reflexivity].
  destruct (results !! Text name); [reflexivity|].
  destruct (ChildElements value) as [|c [|c' cs]] eqn:Hch; try reflexivity.
  rewrite (Hagree m value c); [|now left|exact Hv|rewrite Hch; now left].
  destruct (p2 c); [|reflexivity].
  apply IH. intros m' v' c' Hin. apply Hagree. now right.
Qed.

Lemma parseElementWith_ext (p1 p2 : Element -> Res Result) (e : Element) :
  (forall c, (S (height c) < height e)%nat -> p1 c = p2 c) ->
  parseElementWith p1 e = parseElementWith p2 e.
Proof.
  intros Hagree. unfold parseElementWith, parseArrayWith, parseStructWith.
  rewrite (parseArrayLoop_ext p1 p2).
  2:{ intros el c Hel Hc. apply Hagree.
      apply FindElements_height in Hel. apply ChildElements_height in Hc. lia. }
  rewrite (parseStructLoop_ext p1 p2).
  2:{ intros m v c Hm Hv Hc. apply Hagree.
      apply FindElements_height in Hm. apply FindElement_height in Hv.
      apply ChildElements_height in Hc. lia. }
  reflexivity.
Qed.

Lemma parseElementAt_stable (n : nat) :
  forall (m : nat) (e : Element),
    (height e <= n)%nat -> (height e <= m)%nat ->
    parseElementAt n e = parseElementAt m e.
Proof.
  induction n as [|n IH]; intros m e Hn Hm.
  - rewrite height_eq in Hn. lia.
  - destruct m as [|m]; [rewrite height_eq in Hm; lia|]. simpl.
    apply parseElementWith_ext. intros c Hc. apply IH; lia.
Qed.

(** [parseElement] satisfies the equation of the Go function. *)
Lemma parseElement_eq (e : Element) :
  parseElement e = parseElementWith parseElement e.
Proof.
  unfold parseElement at 1. rewrite (height_eq e). simpl.
  apply parseElementWith_ext. intros c Hc. unfold parseElement.
  rewrite (height_eq e) in Hc. apply parseElementAt_stable; lia.
Qed.

(** ** Where the errors of the decoder come from *)

Section DecodeErrors.

Variable P : error -> Prop.

Hypothesis P_bound : P boundReached.

Hypothesis P_malformed : P MalformedValue.

Hypothesis P_int : forall text, P (IntegerConversionFailed text).

Hypothesis P_bool : forall text, P (BooleanConversionFailed text).

Hypothesis P_double : forall text, P (DoubleConversionFailed text).

Hypothesis P_date : forall text, P (DateTimeConversionFailed text).

Hypothesis P_base64 : forall text, P (Base64ConversionFailed text).

Hypothesis P_tag : forall tag, P (UnrecognizedTag tag).

Hypothesis P_array : P EmptyArrayNotAllowed.

Hypothesis P_struct : P EmptyStructNotAllowed.

Hypothesis P_name : P MissingMemberName.

Hypothesis P_value : P MissingMemberValue.

Hypothesis P_dup : forall name, P (DuplicateMemberName name).

Lemma parseArrayLoop_error (parse : Element -> Res Result) :
  (forall c err, parse c = Err err -> P err) ->
  forall elements results err,
    parseArrayLoop parse elements results = Err err -> P err.
Proof.
  intros Hparse. induction elements as [|el rest IH]; simpl; intros results err H.
  - discriminate.
  - destruct (ChildElements el) as [|c [|c' cs]]; try (injection H as <-; exact P_malformed).
    destruct (parse c) eqn:Hc.
    + eapply IH; eassumption.
    + injection H as <-. eapply Hparse; eassumption.
Qed.

Lemma parseStructLoop_error (parse : Element -> Res Result) :
  (forall c err, parse c = Err err -> P err) ->
  forall members results err,
    parseStructLoop parse members results = Err err -> P err.
Proof.
  intros Hparse. induction members as [|m rest IH]; simpl; intros results err H.
  - discriminate.
  - destruct (FindElement structMemberNameTag m) as [name|];
      [|injection H as <-; exact P_name].
    destruct (FindElement structMemberValueTag m) as [value|];
      [|injection H as <-; exact P_value].
    destruct (results !! Text name); [injection H as <-; apply P_dup|].
    destruct (ChildElements value) as [|c [|c' cs]];
      try (injection H as <-; exact P_malformed).
    destruct (parse c) eqn:Hc.
    + eapply IH; eassumption.
    + injection H as <-. eapply Hparse; eassumption.
Qed.

Lemma parseElementWith_error (parse : Element -> Res Result) :
  (forall c err, parse c = Err err -> P err) ->
  forall e err, parseElementWith parse e = Err err -> P err.
Proof.
  intros Hparse e err. unfold parseElementWith, parseArrayWith, parseStructWith.
  repeat match goal with
         | |- context [if ?b then _ else _] => destruct b
         | |- context [match ?x with Some _ => _ | None => _ end] => destruct x
         end;
    try discriminate; try (intros H; injection H as <-; auto; fail).
  - destruct (parseArrayLoop parse (FindElements arrayValuePath e) [])
      as [rs|err'] eqn:Hloop.
    + destruct (length rs =? 0)%nat; [|discriminate].
      intros H; injection H as <-; exact P_array.
    + intros H; injection H as <-.
      eapply parseArrayLoop_error; eassumption.
  - destruct (parseStructLoop parse (FindElements structMemberPath e) ∅)
      as [rs|err'] eqn:Hloop.
    + destruct (size rs =? 0)%nat; [|discriminate].
      intros H; injection H as <-; exact P_struct.
    + intros H; injection H as <-.
      eapply parseStructLoop_error; eassumption.
Qed.

Lemma parseElementAt_error (bound : nat) :
  forall e err, parseElementAt bound e = Err err -> P err.
Proof.
  induction bound as [|bound IH]; simpl; intros e err H.
  - injection H as <-. exact P_bound.
  - eapply parseElementWith_error; eassumption.
Qed.

Lemma parseElement_error (e : Element) (err : error) :
  parseElement e = Err err -> P err.
Proof. apply parseElementAt_error. Qed.

Lemma parseValue_error (e : Element) (err : error) :
  parseValue e = Err err -> P err.
Proof.
  unfold parseValue. destruct (ChildElements e) as [|c [|c' cs]];
    try (intros H; injection H as <-; exact P_malformed).
  apply parseElement_error.
Qed.

End DecodeErrors.

(** ** C2: the shape of a response *)

Lemma parseValue_recognized (e : Element) :
  parseValue e <> Err UnrecognizedResponseShape.
Proof.
  intros H.
  apply (parseValue_error (fun err => err <> UnrecognizedResponseShape))
    in H; [now apply H|..]; intros; different_messages.
Qed.

Lemma parseFault_cases (e : Element) :
  parseFault e = Err UnrecognizedFaultShape \/
  exists code message, parseFault e = Err (RemoteFault (Text code) (Text message)).
Proof.
  unfold parseFault.
  destruct (negb (length (FindElements faultMembersPath e) =? 2)%nat); [now left|].
  destruct (parseFaultLoop (FindElements faultMembersPath e) None None)
    as [[code|] [message|]]; eauto.
Qed.

Lemma parseFault_recognized (e : Element) :
  parseFault e <> Err UnrecognizedResponseShape.
Proof.
  destruct (parseFault_cases e) as [H|(code & message & H)]; rewrite H;
    different_messages.
Qed.

(** C2.  Decoding a parsed response fails with the unrecognized-response
    error exactly when the document has both the value path and the fault
    path, or neither of them; when it has exactly one of them, the result
    is that of decoding the element found on that path, whatever the
    element contains. *)
Theorem parseResponse_exactly_one_path (doc : Element) :
  (parseResponse doc = Err UnrecognizedResponseShape <->
     (FindElement methodResponseValuePath doc <> None /\
      FindElement methodResponseFaultPath doc <> None) \/
     (FindElement methodResponseValuePath doc = None /\
      FindElement methodResponseFaultPath doc = None)) /\
  (forall value,
     FindElement methodResponseValuePath doc = Some value ->
     FindElement methodResponseFaultPath doc = None ->
     parseResponse doc = parseValue value) /\
  (forall fault,
     FindElement methodResponseValuePath doc = None ->
     FindElement methodResponseFaultPath doc = Some fault ->
     parseResponse doc = parseFault fault).
Proof.
  unfold parseResponse.
  destruct (FindElement methodResponseValuePath doc) as [value|];
    destruct (FindElement methodResponseFaultPath doc) as [fault|];
    (split; [split|split]); try congruence; try tauto; try (left; split; congruence).
  - intros H. now apply parseValue_recognized in H.
  - intros [[_ H]|[H _]]; congruence.
  - intros H. now apply parseFault_recognized in H.
  - intros [[H _]|[_ H]]; congruence.
Qed.

(** ** C3: empty and non-empty arrays *)

Lemma toValue_plainSequence (t : reflect.Type_) (elems : list reflect.Value) :
  plainSequence t = true ->
  toValue (reflect.VSeq t elems) = constructArrayLoop toValue elems newArray.
Proof.
  unfold plainSequence, sequenceKind. intros H.
  apply andb_true_iff in H. destruct H as [Hk He].
  destruct (reflect.Elem t) as [elem|] eqn:Helem; [|discriminate].
  apply negb_true_iff in He.
  simpl. unfold reflect.KindOf. simpl.
  destruct (reflect.TypeKind t); simpl in Hk; try discriminate;
    rewrite Helem; simpl; rewrite He; reflexivity.
Qed.

Lemma parseArrayLoop_ok (parse : Element -> Res Result)
    (elements : list Element) (results : list Result) :
  Forall2 (fun value r => exists child,
             ChildElements value = [child] /\ parse child = OK r)
          elements results ->
  forall acc, parseArrayLoop parse elements acc = OK (acc ++ results)%list.
Proof.
  induction 1 as [|value r elements results (child & Hch & Hp) _ IH];
    intros acc; simpl.
  - now rewrite app_nil_r.
  - rewrite Hch, Hp, IH, <- app_assoc. reflexivity.
Qed.

Lemma parseElement_array (e : Element) :
  Tag e = "array" ->
  parseElement e =
    match parseArray e with
    | Err err => Err err
    | OK results => OK (arrayResult results)
    end.
Proof.
  intros H. rewrite parseElement_eq. unfold parseElementWith. rewrite H. reflexivity.
Qed.

Lemma parseElement_struct (e : Element) :
  Tag e = "struct" ->
  parseElement e =
    match parseStruct e with
    | Err err => Err err
    | OK results => OK (structResult results)
    end.
Proof.
  intros H. rewrite parseElement_eq. unfold parseElementWith. rewrite H. reflexivity.
Qed.

(** C3.  Converting an empty sequence succeeds and gives an array
    element whose data wrapper has no value children; decoding an array
    element without value children under its data wrapper fails with the
    empty-array error (so the element just built is refused); decoding
    an array element with at least one value child, all well formed,
    succeeds with the results of the children in their order. *)
Theorem empty_array_encoded_not_decoded :
  (forall t, plainSequence t = true ->
     toValue (reflect.VSeq t []) = Return newArray /\
     Tag newArray = "array" /\
     FindElements arrayValuePath newArray = []) /\
  (forall e, Tag e = "array" -> FindElements arrayValuePath e = [] ->
     parseArray e = Err EmptyArrayNotAllowed /\
     parseElement e = Err EmptyArrayNotAllowed) /\
  (forall e results, Tag e = "array" ->
     FindElements arrayValuePath e <> [] ->
     Forall2 decodesTo (FindElements arrayValuePath e) results ->
     parseArray e = OK results /\
     parseElement e = OK (arrayResult results) /\
     length results = length (FindElements arrayValuePath e)).
Proof.
  split; [|split].
  - intros t Ht. rewrite toValue_plainSequence by exact Ht. repeat split.
  - intros e Htag Hnone.
    assert (Ha : parseArray e = Err EmptyArrayNotAllowed).
    { unfold parseArray, parseArrayWith. rewrite Hnone. reflexivity. }
    split; [exact Ha|]. rewrite parseElement_array, Ha by exact Htag. reflexivity.
  - intros e results Htag Hsome Hall.
    assert (Hlen : length results = length (FindElements arrayValuePath e)).
    { symmetry. eapply Forall2_length. exact Hall. }
    assert (Ha : parseArray e = OK results).
    { unfold parseArray, parseArrayWith.
      rewrite (parseArrayLoop_ok parseElement _ results) by exact Hall. simpl.
      destruct results; [|reflexivity].
      destruct (FindElements arrayValuePath e); [congruence|discriminate]. }
    split; [exact Ha|]. split; [|exact Hlen].
    rewrite parseElement_array, Ha by exact Htag. reflexivity.
Qed.

(** ** C4: struct members *)

Lemma insertAll_lookup_other (pairs : list (string * Result)) :
  forall (results : gmap string Result) (k : string),
    k ∉ pairs.*1 -> insertAll results pairs !! k = results !! k.
Proof.
  induction pairs as [|[n r] pairs IH]; intros results k Hk; simpl; [reflexivity|].
  simpl in Hk. apply not_elem_of_cons in Hk. destruct Hk as [Hne Hk].
  unfold insertAll in *. simpl. rewrite IH by exact Hk.
  now apply lookup_insert_ne.
Qed.

Lemma insertAll_lookup (pairs : list (string * Result)) :
  forall (results : gmap string Result) (k : string) (r : Result),
    NoDup pairs.*1 -> (k, r) ∈ pairs -> insertAll results pairs !! k = Some r.
Proof.
  induction pairs as [|[n r'] pairs IH]; intros results k r Hnd Hin; simpl.
  - now apply elem_of_nil in Hin.
  - simpl in Hnd. apply NoDup_cons in Hnd. destruct Hnd as [Hn Hnd].
    apply elem_of_cons in Hin. destruct Hin as [Heq|Hin].
    + injection Heq as -> ->.
      change (insertAll (<[n:=r']> results) pairs !! n = Some r').
      rewrite insertAll_lookup_other by exact Hn. apply lookup_insert_eq.
    + apply (IH (<[n:=r']> results)); assumption.
Qed.

Lemma insertAll_size (pairs : list (string * Result)) :
  forall results : gmap string Result,
    NoDup pairs.*1 -> (forall k, k ∈ pairs.*1 -> results !! k = None) ->
    size (insertAll results pairs) = (size results + length pairs)%nat.
Proof.
  induction pairs as [|[n r] pairs IH]; intros results Hnd Hfresh; simpl; [lia|].
  simpl in Hnd. apply NoDup_cons in Hnd. destruct Hnd as [Hn Hnd].
  change (size (insertAll (<[n:=r]> results) pairs)
          = (size results + S (length pairs))%nat).
  rewrite IH.
  - rewrite map_size_insert_None; [lia|]. apply Hfresh. simpl. left.
  - exact Hnd.
  - intros k Hk. rewrite lookup_insert_ne.
    + apply Hfresh. simpl. now right.
    + intros ->. contradiction.
Qed.

Lemma parseStructLoop_ok (members : list Element) (pairs : list (string * Result)) :
  Forall2 memberDecodesTo members pairs ->
  forall results : gmap string Result,
    NoDup pairs.*1 -> (forall k, k ∈ pairs.*1 -> results !! k = None) ->
    parseStructLoop parseElement members results = OK (insertAll results pairs).
Proof.
  induction 1 as [|member [n r] members pairs Hm _ IH]; intros results Hnd Hfresh.
  - reflexivity.
  - destruct Hm as (value & (name & Hname & Htext & Hvalue) & child & Hch & Hp).
    simpl in *. apply NoDup_cons in Hnd. destruct Hnd as [Hn Hnd].
    rewrite Hname, Hvalue, Htext, (Hfresh n) by left. rewrite Hch, Hp.
    apply IH; [exact Hnd|].
    intros k Hk. rewrite lookup_insert_ne.
    + apply Hfresh. now right.
    + intros ->. contradiction.
Qed.

Lemma parseStructLoop_duplicate (before : list Element)
    (pairs : list (string * Result)) (member : Element) (after : list Element)
    (n : string) (value : Element) :
  Forall2 memberDecodesTo before pairs ->
  memberNamed member n value ->
  forall results : gmap string Result,
    NoDup pairs.*1 -> (forall k, k ∈ pairs.*1 -> results !! k = None) ->
    n ∈ pairs.*1 \/ is_Some (results !! n) ->
    parseStructLoop parseElement (before ++ member :: after) results
    = Err (DuplicateMemberName n).
Proof.
  intros Hall (name & Hname & Htext & Hvalue).
  induction Hall as [|m [k r] before pairs Hm _ IH]; intros results Hnd Hfresh Hseen.
  - simpl. rewrite Hname, Hvalue, Htext.
    destruct Hseen as [Hin|[r Hr]]; [now apply elem_of_nil in Hin|].
    now rewrite Hr.
  - destruct Hm as (v & (nm & Hnm & Htx & Hv) & child & Hch & Hp).
    simpl in *. apply NoDup_cons in Hnd. destruct Hnd as [Hk Hnd].
    rewrite Hnm, Hv, Htx, (Hfresh k) by left. rewrite Hch, Hp.
    apply IH; [exact Hnd| |].
    + intros k' Hk'. rewrite lookup_insert_ne.
      * apply Hfresh. now right.
      * intros ->. contradiction.
    + destruct Hseen as [Hin|[r' Hr']].
      * apply elem_of_cons in Hin. destruct Hin as [->|Hin]; [|now left].
        right. rewrite lookup_insert_eq. eauto.
      * right. destruct (decide (k = n)) as [->|Hne].
        -- rewrite lookup_insert_eq. eauto.
        -- rewrite lookup_insert_ne by exact Hne. eauto.
Qed.

Lemma parseStructLoop_distinct_names (parse : Element -> Res Result)
    (members : list Element) :
  forall acc results : gmap string Result,
    parseStructLoop parse members acc = OK results ->
    Forall (fun member => exists n, memberName member = Some n /\ acc !! n = None)
           members /\
    NoDup (memberName <$> members).
Proof.
  induction members as [|m rest IH]; simpl; intros acc results H.
  - split; constructor.
  - destruct (FindElement structMemberNameTag m) as [name|] eqn:Hname;
      [|discriminate].
    destruct (FindElement structMemberValueTag m) as [value|]; [|discriminate].
    destruct (acc !! Text name) eqn:Hfresh; [discriminate|].
    destruct (ChildElements value) as [|c [|c' cs]]; try discriminate.
    destruct (parse c) as [r|]; [|discriminate].
    apply IH in H. destruct H as [Hall Hnd].
    assert (Hm : memberName m = Some (Text name)).
    { unfold memberName. now rewrite Hname. }
    split.
    + constructor; [eauto|].
      eapply Forall_impl; [exact Hall|]. intros m' (n & Hn & Hnone).
      exists n. split; [exact Hn|].
      apply lookup_insert_None in Hnone. tauto.
    + rewrite Hm. constructor; [|exact Hnd].
      intros Hin. apply list_elem_of_fmap in Hin. destruct Hin as (m' & Hm' & Hin).
      rewrite Forall_forall in Hall. destruct (Hall m' Hin) as (n & Hn & Hnone).
      rewrite Hn in Hm'. injection Hm' as <-.
      now rewrite lookup_insert_eq in Hnone.
Qed.

(** C4, as the code has it.  A struct element in which two members
    have the same name is never decoded; it fails with the
    duplicate-member error when the repeated member is the first thing
    that fails: the members before it are well formed with distinct
    names and the member itself has a name and a value element.  A struct
    element with N >= 1 members of distinct names, each with a name
    element and a well-formed value element, decodes to a struct result
    with exactly N entries, one per member.  A struct element without
    members fails with the empty-struct error. *)
Theorem parseStruct_members :
  (forall e i j m1 m2 n,
     FindElements structMemberPath e !! i = Some m1 ->
     FindElements structMemberPath e !! j = Some m2 ->
     i <> j -> memberName m1 = Some n -> memberName m2 = Some n ->
     valueOf (parseStruct e) = None /\
     (Tag e = "struct" -> valueOf (parseElement e) = None)) /\
  (forall e before pairs member after n value,
     Tag e = "struct" ->
     FindElements structMemberPath e = (before ++ member :: after)%list ->
     Forall2 memberDecodesTo before pairs -> NoDup pairs.*1 ->
     memberNamed member n value -> n ∈ pairs.*1 ->
     parseStruct e = Err (DuplicateMemberName n) /\
     parseElement e = Err (DuplicateMemberName n)) /\
  (forall e pairs,
     Tag e = "struct" ->
     FindElements structMemberPath e <> [] ->
     Forall2 memberDecodesTo (FindElements structMemberPath e) pairs ->
     NoDup pairs.*1 ->
     exists results,
       parseStruct e = OK results /\
       parseElement e = OK (structResult results) /\
       size results = length (FindElements structMemberPath e) /\
       (forall k r, (k, r) ∈ pairs -> results !! k = Some r)) /\
  (forall e, Tag e = "struct" -> FindElements structMemberPath e = [] ->
     parseStruct e = Err EmptyStructNotAllowed /\
     parseElement e = Err EmptyStructNotAllowed).
Proof.
  split; [|split; [|split]].
  - intros e i j m1 m2 n Hi Hj Hij Hn1 Hn2.
    assert (Hs : valueOf (parseStruct e) = None).
    { unfold parseStruct, parseStructWith.
      destruct (parseStructLoop parseElement (FindElements structMemberPath e) ∅)
        as [results|err] eqn:Hloop; [|reflexivity].
      apply parseStructLoop_distinct_names in Hloop. destruct Hloop as [_ Hnd].
      exfalso. apply Hij.
      apply (NoDup_lookup _ i j (Some n) Hnd); rewrite list_lookup_fmap.
      - now rewrite Hi, <- Hn1.
      - now rewrite Hj, <- Hn2. }
    split; [exact Hs|]. intros Htag.
    rewrite parseElement_struct by exact Htag.
    destruct (parseStruct e); [discriminate|reflexivity].
  - intros e before pairs member after n value Htag Hmem Hall Hnd Hnamed Hin.
    assert (Hs : parseStruct e = Err (DuplicateMemberName n)).
    { unfold parseStruct, parseStructWith. rewrite Hmem.
      rewrite (parseStructLoop_duplicate before pairs member after n value);
        auto. }
    split; [exact Hs|]. rewrite parseElement_struct, Hs by exact Htag. reflexivity.
  - intros e pairs Htag Hsome Hall Hnd.
    exists (insertAll ∅ pairs).
    assert (Hsize : size (insertAll ∅ pairs)
                    = length (FindElements structMemberPath e)).
    { rewrite insertAll_size by auto. rewrite map_size_empty.
      symmetry. simpl. eapply Forall2_length. exact Hall. }
    assert (Hs : parseStruct e = OK (insertAll ∅ pairs)).
    { unfold parseStruct, parseStructWith.
      rewrite (parseStructLoop_ok _ pairs) by auto.
      rewrite Hsize.
      destruct (FindElements structMemberPath e); [congruence|reflexivity]. }
    split; [exact Hs|]. split; [|split; [exact Hsize|]].
    + rewrite parseElement_struct, Hs by exact Htag. reflexivity.
    + intros k r Hin. now apply insertAll_lookup.
  - intros e Htag Hnone.
    assert (Hs : parseStruct e = Err EmptyStructNotAllowed).
    { unfold parseStruct, parseStructWith. rewrite Hnone. reflexivity. }
    split; [exact Hs|]. rewrite parseElement_struct, Hs by exact Htag. reflexivity.
Qed.

(** ** C5: faults *)

Lemma parseFaultLoop_code (members : list Element) :
  forall errCode errMsg code msg,
    parseFaultLoop members errCode errMsg = (Some code, msg) ->
    errCode = Some code \/
    exists member, In member members /\ faultMemberNamed member faultCodeName /\
                   faultCodeOf member = Some code.
Proof.
  induction members as [|m rest IH]; simpl; intros errCode errMsg code msg H.
  - left. congruence.
  - destruct (FindElement faultMemberNameTag m) as [name|] eqn:Hname;
      [|left; congruence].
    apply IH in H. destruct H as [H|(member & Hin & Hn & Hc)].
    + destruct (String.eqb (Text name) faultCodeName) eqn:Heq; [|now left].
      right. exists m. split; [now left|]. split; [|exact H].
      exists name. split; [exact Hname|]. now apply String.eqb_eq.
    + right. exists member. split; [now right|]. now split.
Qed.

Lemma parseFaultLoop_message (members : list Element) :
  forall errCode errMsg code msg,
    parseFaultLoop members errCode errMsg = (code, Some msg) ->
    errMsg = Some msg \/
    exists member, In member members /\ faultMemberNamed member faultStringName /\
                   faultStringOf member = Some msg.
Proof.
  induction members as [|m rest IH]; simpl; intros errCode errMsg code msg H.
  - left. congruence.
  - destruct (FindElement faultMemberNameTag m) as [name|] eqn:Hname;
      [|left; congruence].
    apply IH in H. destruct H as [H|(member & Hin & Hn & Hc)].
    + destruct (String.eqb (Text name) faultStringName) eqn:Heq; [|now left].
      right. exists m. split; [now left|]. split; [|exact H].
      exists name. split; [exact Hname|]. now apply String.eqb_eq.
    + right. exists member. split; [now right|]. now split.
Qed.

Lemma parseFaultLoop_code_then_string (mc ms : Element) (code msg : Element) :
  faultMemberNamed mc faultCodeName -> faultCodeOf mc = Some code ->
  faultMemberNamed ms faultStringName -> faultStringOf ms = Some msg ->
  parseFaultLoop [mc; ms] None None = (Some code, Some msg) /\
  parseFaultLoop [ms; mc] None None = (Some code, Some msg).
Proof.
  intros (nc & Hnc & Htc) Hcode (ns & Hns & Hts) Hmsg.
  unfold faultCodeOf, faultStringOf in *.
  split; simpl; rewrite Hnc, Hns, Htc, Hts; simpl; rewrite Hmsg;
    destruct (FindElement faultMemberValueIntPath mc); congruence.
Qed.

(** C5.  On the fault path decoding fails with the unrecognized-fault
    error when the fault does not have exactly two members, when no
    member named faultCode resolves to an int or i4 value, and when no
    member named faultString resolves to a string value; with exactly
    two members of which one named faultCode resolves to [code] and one
    named faultString resolves to [msg], it ends in the remote-fault
    error made of the two texts; in every case no result is returned. *)
Theorem parseFault_never_a_result (e : Element) :
  (length (FindElements faultMembersPath e) <> 2%nat ->
   parseFault e = Err UnrecognizedFaultShape) /\
  ((forall member code, In member (FindElements faultMembersPath e) ->
      faultMemberNamed member faultCodeName -> faultCodeOf member <> Some code) ->
   parseFault e = Err UnrecognizedFaultShape) /\
  ((forall member msg, In member (FindElements faultMembersPath e) ->
      faultMemberNamed member faultStringName -> faultStringOf member <> Some msg) ->
   parseFault e = Err UnrecognizedFaultShape) /\
  (forall mc ms code msg,
     length (FindElements faultMembersPath e) = 2%nat ->
     In mc (FindElements faultMembersPath e) ->
     In ms (FindElements faultMembersPath e) ->
     faultMemberNamed mc faultCodeName -> faultCodeOf mc = Some code ->
     faultMemberNamed ms faultStringName -> faultStringOf ms = Some msg ->
     parseFault e = Err (RemoteFault (Text code) (Text msg))) /\
  valueOf (parseFault e) = None /\
  (forall doc,
     FindElement methodResponseValuePath doc = None ->
     FindElement methodResponseFaultPath doc = Some e ->
     parseResponse doc = parseFault e).
Proof.
  repeat split.
  - intros H. unfold parseFault.
    destruct (Nat.eqb_spec (length (FindElements faultMembersPath e)) 2);
      [contradiction|reflexivity].
  - intros Hno. unfold parseFault.
    destruct (negb _); [reflexivity|].
    destruct (parseFaultLoop _ None None) as [[code|] msg] eqn:Hloop;
      [|destruct msg; reflexivity].
    apply parseFaultLoop_code in Hloop.
    destruct Hloop as [H|(member & Hin & Hn & Hc)]; [discriminate|].
    now apply Hno in Hc.
  - intros Hno. unfold parseFault.
    destruct (negb _); [reflexivity|].
    destruct (parseFaultLoop _ None None) as [code [msg|]] eqn:Hloop;
      [|destruct code; reflexivity].
    apply parseFaultLoop_message in Hloop.
    destruct Hloop as [H|(member & Hin & Hn & Hc)]; [discriminate|].
    now apply Hno in Hc.
  - intros mc ms code msg Hlen Hmc Hms Hnc Hc Hns Hs.
    unfold parseFault. rewrite Hlen. simpl.
    destruct (parseFaultLoop_code_then_string mc ms code msg Hnc Hc Hns Hs)
      as [H1 H2].
    assert (Hdiff : mc <> ms).
    { intros ->. destruct Hnc as (n1 & Hn1 & Ht1), Hns as (n2 & Hn2 & Ht2).
      rewrite Hn1 in Hn2. injection Hn2 as <-. rewrite Ht1 in Ht2. discriminate. }
    destruct (FindElements faultMembersPath e) as [|a [|b [|c l]]];
      try discriminate.
    destruct Hmc as [<-|[<-|[]]], Hms as [<-|[<-|[]]]; try congruence.
    + now rewrite H1.
    + now rewrite H2.
  - destruct (parseFault_cases e) as [H|(code & msg & H)]; now rewrite H.
  - intros doc Hv Hf. unfold parseResponse. now rewrite Hv, Hf.
Qed.

(** ** C6: value elements with no child or several children *)

Lemma parseArrayLoop_malformed (parse : Element -> Res Result)
    (before : list Element) (results : list Result) (bad : Element)
    (after : list Element) :
  Forall2 (fun value r => exists child,
             ChildElements value = [child] /\ parse child = OK r)
          before results ->
  length (ChildElements bad) <> 1%nat ->
  forall acc,
    parseArrayLoop parse (before ++ bad :: after) acc = Err MalformedValue.
Proof.
  intros Hall Hbad.
  induction Hall as [|value r before results (child & Hch & Hp) _ IH];
    intros acc; simpl.
  - destruct (ChildElements bad) as [|c [|c' cs]]; simpl in Hbad;
      congruence.
  - rewrite Hch, Hp. apply IH.
Qed.

Lemma parseArrayLoop_single_children (parse : Element -> Res Result)
    (elements : list Element) :
  forall acc results,
    parseArrayLoop parse elements acc = OK results ->
    Forall (fun value => length (ChildElements value) = 1%nat) elements.
Proof.
  induction elements as [|el rest IH]; simpl; intros acc results H.
  - constructor.
  - destruct (ChildElements el) as [|c [|c' cs]] eqn:Hch; try discriminate.
    destruct (parse c); [|discriminate].
    constructor; [now rewrite Hch|]. eapply IH. exact H.
Qed.

Lemma parseStructLoop_malformed (before : list Element)
    (pairs : list (string * Result)) (member : Element) (after : list Element)
    (n : string) (value : Element) :
  Forall2 memberDecodesTo before pairs ->
  memberNamed member n value ->
  length (ChildElements value) <> 1%nat ->
  forall results : gmap string Result,
    NoDup pairs.*1 -> (forall k, k ∈ pairs.*1 -> results !! k = None) ->
    n ∉ pairs.*1 -> results !! n = None ->
    parseStructLoop parseElement (before ++ member :: after) results
    = Err MalformedValue.
Proof.
  intros Hall (name & Hname & Htext & Hvalue) Hbad.
  induction Hall as [|m [k r] before pairs Hm _ IH];
    intros results Hnd Hfresh Hnew Hnone.
  - simpl. rewrite Hname, Hvalue, Htext, Hnone.
    destruct (ChildElements value) as [|c [|c' cs]]; simpl in Hbad; congruence.
  - destruct Hm as (v & (nm & Hnm & Htx & Hv) & child & Hch & Hp).
    simpl in *. apply NoDup_cons in Hnd. destruct Hnd as [Hk Hnd].
    apply not_elem_of_cons in Hnew. destruct Hnew as [Hne Hnew].
    rewrite Hnm, Hv, Htx, (Hfresh k) by left. rewrite Hch, Hp.
    apply IH; [exact Hnd| |exact Hnew|].
    + intros k' Hk'. rewrite lookup_insert_ne.
      * apply Hfresh. now right.
      * intros ->. contradiction.
    + rewrite lookup_insert_ne by congruence. exact Hnone.
Qed.

Lemma parseStructLoop_single_children (parse : Element -> Res Result)
    (members : list Element) :
  forall acc results,
    parseStructLoop parse members acc = OK results ->
    Forall (fun member => forall value,
              FindElement structMemberValueTag member = Some value ->
              length (ChildElements value) = 1%nat) members.
Proof.
  induction members as [|m rest IH]; simpl; intros acc results H.
  - constructor.
  - destruct (FindElement structMemberNameTag m) as [name|]; [|discriminate].
    destruct (FindElement structMemberValueTag m) as [value|] eqn:Hvalue;
      [|discriminate].
    destruct (acc !! Text name); [discriminate|].
    destruct (ChildElements value) as [|c [|c' cs]] eqn:Hch; try discriminate.
    destruct (parse c); [|discriminate].
    constructor; [|eapply IH; exact H].
    intros v Hv. rewrite Hvalue in Hv. injection Hv as <-. now rewrite Hch.
Qed.

(** C6, as the code has it.  A value element whose number of child
    elements is not one makes decoding fail at every level: under the
    response's parameter, under an array's data wrapper, in a struct
    member.  The error is the malformed-value error when the element is
    the first thing that fails: at the top level always; in an array when
    the value elements before it are well formed; in a struct when the
    members before it are well formed with distinct names and the member
    has a name that did not occur before.  What follows the element plays
    no part. *)
Theorem malformed_value_stops_decoding :
  (forall value, length (ChildElements value) <> 1%nat ->
     parseValue value = Err MalformedValue) /\
  (forall e before results bad after,
     FindElements arrayValuePath e = (before ++ bad :: after)%list ->
     Forall2 decodesTo before results ->
     length (ChildElements bad) <> 1%nat ->
     parseArray e = Err MalformedValue) /\
  (forall e before pairs member after n value,
     FindElements structMemberPath e = (before ++ member :: after)%list ->
     Forall2 memberDecodesTo before pairs -> NoDup pairs.*1 ->
     memberNamed member n value -> n ∉ pairs.*1 ->
     length (ChildElements value) <> 1%nat ->
     parseStruct e = Err MalformedValue) /\
  (forall e bad,
     In bad (FindElements arrayValuePath e) ->
     length (ChildElements bad) <> 1%nat ->
     valueOf (parseArray e) = None) /\
  (forall e member value,
     In member (FindElements structMemberPath e) ->
     FindElement structMemberValueTag member = Some value ->
     length (ChildElements value) <> 1%nat ->
     valueOf (parseStruct e) = None).
Proof.
  repeat split.
  - intros value Hbad. unfold parseValue.
    destruct (ChildElements value) as [|c [|c' cs]]; simpl in Hbad; congruence.
  - intros e before results bad after Hels Hall Hbad.
    unfold parseArray, parseArrayWith. rewrite Hels.
    now rewrite (parseArrayLoop_malformed parseElement before results).
  - intros e before pairs member after n value Hmem Hall Hnd Hnamed Hnew Hbad.
    unfold parseStruct, parseStructWith. rewrite Hmem.
    now rewrite (parseStructLoop_malformed before pairs member after n value).
  - intros e bad Hin Hbad. unfold parseArray, parseArrayWith.
    destruct (parseArrayLoop parseElement (FindElements arrayValuePath e) [])
      as [results|err] eqn:Hloop; [|reflexivity].
    apply parseArrayLoop_single_children in Hloop.
    rewrite List.Forall_forall in Hloop. apply Hloop in Hin. contradiction.
  - intros e member value Hin Hvalue Hbad. unfold parseStruct, parseStructWith.
    destruct (parseStructLoop parseElement (FindElements structMemberPath e) ∅)
      as [results|err] eqn:Hloop; [|reflexivity].
    apply parseStructLoop_single_children in Hloop.
    rewrite List.Forall_forall in Hloop.
    specialize (Hloop member Hin value Hvalue). contradiction.
Qed.

(** ** C9: one kind, one payload *)

Lemma parseArrayLoop_all (Q : Result -> Prop) (parse : Element -> Res Result) :
  (forall c r, parse c = OK r -> Q r) ->
  forall elements acc results,
    Forall Q acc ->
    parseArrayLoop parse elements acc = OK results -> Forall Q results.
Proof.
  intros Hparse. induction elements as [|el rest IH]; simpl; intros acc results Hacc H.
  - now injection H as <-.
  - destruct (ChildElements el) as [|c [|c' cs]]; try discriminate.
    destruct (parse c) as [r|] eqn:Hc; [|discriminate].
    eapply IH; [|exact H]. apply Forall_app. split; [exact Hacc|].
    constructor; [|constructor]. eapply Hparse. exact Hc.
Qed.

Lemma parseStructLoop_all (Q : Result -> Prop) (parse : Element -> Res Result) :
  (forall c r, parse c = OK r -> Q r) ->
  forall members (acc results : gmap string Result),
    (forall k r, acc !! k = Some r -> Q r) ->
    parseStructLoop parse members acc = OK results ->
    forall k r, results !! k = Some r -> Q r.
Proof.
  intros Hparse. induction members as [|m rest IH]; simpl; intros acc results Hacc H.
  - now injection H as <-.
  - destruct (FindElement structMemberNameTag m) as [name|]; [|discriminate].
    destruct (FindElement structMemberValueTag m) as [value|]; [|discriminate].
    destruct (acc !! Text name); [discriminate|].
    destruct (ChildElements value) as [|c [|c' cs]]; try discriminate.
    destruct (parse c) as [r|] eqn:Hc; [|discriminate].
    eapply IH; [|exact H]. intros k r'.
    destruct (decide (Text name = k)) as [<-|Hne].
    + rewrite lookup_insert_eq. intros [= <-]. eapply Hparse. exact Hc.
    + rewrite lookup_insert_ne by exact Hne. apply Hacc.
Qed.

Lemma scalar_exactlyOneKind (r : Result) :
  zeroOutsideKind r -> ResultArray r = None -> ResultStruct r = None ->
  exactlyOneKind r.
Proof. intros Hz Ha Hs. constructor; [exact Hz|congruence..]. Qed.

Lemma parseElementWith_exactlyOneKind (parse : Element -> Res Result) :
  (forall c r, parse c = OK r -> exactlyOneKind r) ->
  forall e r, parseElementWith parse e = OK r -> exactlyOneKind r.
Proof.
  intros Hparse e r. unfold parseElementWith, parseArrayWith, parseStructWith.
  repeat match goal with
         | |- context [if ?b then _ else _] => destruct b
         | |- context [match ?x with Some _ => _ | None => _ end] => destruct x
         end;
    try discriminate;
    try (intros H; injection H as <-;
         apply scalar_exactlyOneKind; [zero_outside_kind|reflexivity..]).
  - destruct (parseArrayLoop parse (FindElements arrayValuePath e) [])
      as [rs|] eqn:Hloop; [|discriminate].
    destruct (length rs =? 0)%nat; [discriminate|].
    intros H; injection H as <-. constructor.
    + zero_outside_kind.
    + simpl. intros rs' [= <-].
      eapply parseArrayLoop_all; [exact Hparse|constructor|exact Hloop].
    + simpl. discriminate.
  - destruct (parseStructLoop parse (FindElements structMemberPath e) ∅)
      as [m|] eqn:Hloop; [|discriminate].
    destruct (size m =? 0)%nat; [discriminate|].
    intros H; injection H as <-. constructor.
    + zero_outside_kind.
    + simpl. discriminate.
    + simpl. intros m' k r' [= <-].
      eapply parseStructLoop_all; [exact Hparse| |exact Hloop].
      intros k' r''. rewrite lookup_empty. discriminate.
Qed.

Lemma parseElement_exactlyOneKind (e : Element) (r : Result) :
  parseElement e = OK r -> exactlyOneKind r.
Proof.
  unfold parseElement. generalize (height e) as bound. intros bound.
  revert e r. induction bound as [|bound IH]; simpl; intros e r H.
  - discriminate.
  - eapply parseElementWith_exactlyOneKind; eassumption.
Qed.

(** C9.  Every result that decoding a response returns has exactly one
    kind: the accessors that do not match [Kind()] return the zero values
    of their types, and so for every result inside it.  (The accessors
    are total functions; they have no error to return.) *)
Theorem decoded_result_exactly_one_kind (doc : Element) (r : Result) :
  parseResponse doc = OK r -> exactlyOneKind r.
Proof.
  unfold parseResponse.
  destruct (FindElement methodResponseValuePath doc) as [value|];
    destruct (FindElement methodResponseFaultPath doc) as [fault|];
    try discriminate.
  - unfold parseValue.
    destruct (ChildElements value) as [|c [|c' cs]]; try discriminate.
    apply parseElement_exactlyOneKind.
  - intros H. pose proof (parseFault_cases fault) as [H'|(code & msg & H')];
      rewrite H' in H; discriminate.
Qed.

(** ** [strconv]: integers and booleans come back *)







(** ** [encoding/base64]: bytes come back *)

Lemma lor_disjoint_add (a b n : Z) :
  0 <= n -> a mod 2 ^ n = 0 -> 0 <= b < 2 ^ n -> Z.lor a b = a + b.
Proof.
  intros Hn Ha Hb.
  assert (Hland : Z.land a b = 0).
  { apply Z.bits_inj'. intros i Hi. rewrite Z.land_spec, Z.bits_0.
    destruct (Z.ltb_spec i n) as [Hlt|Hge].
    - rewrite (Z.div_mod a (2 ^ n)), Ha, Z.add_0_r, Z.mul_comm by lia.
      rewrite Z.mul_pow2_bits_low by lia. reflexivity.
    - rewrite <- (Z.mod_small b (2 ^ n)) by lia.
      rewrite Z.mod_pow2_bits_high by lia. apply andb_false_r. }
  rewrite <- Z.lxor_lor by exact Hland.
  symmetry. apply Z.add_nocarry_lxor. exact Hland.
Qed.

Lemma land_63 (x : Z) : Z.land x 63 = x mod 64.
Proof. change 63 with (Z.ones 6). rewrite Z.land_ones by lia. reflexivity. Qed.

Lemma byteZ_range (b : byte) : 0 <= byteZ b < 256.
Proof.
  unfold byteZ. pose proof (Byte.to_N_bounded b) as H. lia.
Qed.

Lemma zByte_byteZ (b : byte) (x : Z) : x mod 256 = byteZ b -> zByte x = b.
Proof.
  intros H. unfold zByte. rewrite H. unfold byteZ.
  rewrite N2Z.id, Byte.of_to_N. reflexivity.
Qed.

(** The 24 bits of a quantum, as a sum. *)
Lemma quantum_sum (x0 x1 x2 : Z) :
  0 <= x0 < 256 -> 0 <= x1 < 256 -> 0 <= x2 < 256 ->
  Z.lor (Z.lor (Z.shiftl x0 16) (Z.shiftl x1 8)) x2 = x0 * 65536 + x1 * 256 + x2.
Proof.
  intros H0 H1 H2. rewrite !Z.shiftl_mul_pow2 by lia.
  change (2 ^ 16) with 65536. change (2 ^ 8) with 256.
  rewrite (lor_disjoint_add (x0 * 65536) (x1 * 256) 16);
    [|lia|apply Z.mod_mul; lia|change (2 ^ 16) with 65536; lia].
  apply (lor_disjoint_add _ _ 8); [lia| |change (2 ^ 8) with 256; lia].
  change (2 ^ 8) with 256. replace (x0 * 65536 + x1 * 256) with ((x0 * 256 + x1) * 256) by lia.
  apply Z.mod_mul. lia.
Qed.

Lemma sextets_sum (s0 s1 s2 s3 : Z) :
  0 <= s0 < 64 -> 0 <= s1 < 64 -> 0 <= s2 < 64 -> 0 <= s3 < 64 ->
  Z.lor (Z.lor (Z.shiftl s0 18) (Z.shiftl s1 12)) (Z.lor (Z.shiftl s2 6) s3)
  = s0 * 262144 + s1 * 4096 + s2 * 64 + s3.
Proof.
  intros H0 H1 H2 H3. rewrite !Z.shiftl_mul_pow2 by lia.
  change (2 ^ 18) with 262144. change (2 ^ 12) with 4096. change (2 ^ 6) with 64.
  rewrite (lor_disjoint_add (s2 * 64) s3 6);
    [|lia|apply Z.mod_mul; lia|change (2 ^ 6) with 64; lia].
  rewrite (lor_disjoint_add (s0 * 262144) (s1 * 4096) 18);
    [|lia|apply Z.mod_mul; lia|change (2 ^ 18) with 262144; lia].
  rewrite (lor_disjoint_add _ (s2 * 64 + s3) 12);
    [lia|lia| |change (2 ^ 12) with 4096; lia].
  change (2 ^ 12) with 4096.
  replace (s0 * 262144 + s1 * 4096) with ((s0 * 64 + s1) * 4096) by lia.
  apply Z.mod_mul. lia.
Qed.

Lemma decodeSextet_encodeSextet (v : Z) :
  0 <= v < 64 ->
  decodeSextet (encodeSextet v) = Some v /\
  Ascii.eqb (encodeSextet v) "010" = false /\
  Ascii.eqb (encodeSextet v) "013" = false.
Proof.
  intros H. rewrite <- (Z2Nat.id v) by lia.
  assert (Hn : (Z.to_nat v < 64)%nat) by lia.
  generalize dependent (Z.to_nat v). clear H. intros n Hn.
  do 64 (destruct n as [|n]; [repeat split; reflexivity|]). lia.
Qed.

Lemma stripNewlines_EncodeToString (src : list byte) :
  stripNewlines (EncodeToString src) = EncodeToString src.
Proof.
  assert (Hs : forall x, Ascii.eqb (encodeSextet (Z.land x 63)) "010" = false /\
                         Ascii.eqb (encodeSextet (Z.land x 63)) "013" = false).
  { intros x. apply decodeSextet_encodeSextet. rewrite land_63.
    apply Z.mod_pos_bound. lia. }
  assert (Hall : forall n src, (length src < n)%nat ->
                   stripNewlines (EncodeToString src) = EncodeToString src).
  { clear src. induction n as [|n IH]; intros src Hlen; [lia|].
    destruct src as [|b0 [|b1 [|b2 rest]]]; [reflexivity|..];
      cbn [EncodeToString stripNewlines];
      repeat match goal with
             | |- context [encodeSextet (Z.land ?x 63)] =>
                 destruct (Hs x) as [-> ->]
             end; cbn [orb]; try reflexivity.
    rewrite IH by (simpl in Hlen; lia). reflexivity. }
  apply (Hall (S (length src))). lia.
Qed.

Lemma quantum_sum2 (x0 x1 : Z) :
  0 <= x0 < 256 -> 0 <= x1 < 256 ->
  Z.lor (Z.shiftl x0 16) (Z.shiftl x1 8) = x0 * 65536 + x1 * 256.
Proof.
  intros H0 H1. rewrite !Z.shiftl_mul_pow2 by lia.
  change (2 ^ 16) with 65536. change (2 ^ 8) with 256.
  apply (lor_disjoint_add _ _ 16);
    [lia|apply Z.mod_mul; lia|change (2 ^ 16) with 65536; lia].
Qed.

Lemma sextets_sum2 (s0 s1 : Z) :
  0 <= s0 < 64 -> 0 <= s1 < 64 ->
  Z.lor (Z.shiftl s0 18) (Z.shiftl s1 12) = s0 * 262144 + s1 * 4096.
Proof.
  intros H0 H1. rewrite !Z.shiftl_mul_pow2 by lia.
  change (2 ^ 18) with 262144. change (2 ^ 12) with 4096.
  apply (lor_disjoint_add _ _ 18);
    [lia|apply Z.mod_mul; lia|change (2 ^ 18) with 262144; lia].
Qed.

Lemma sextets_sum3 (s0 s1 s2 : Z) :
  0 <= s0 < 64 -> 0 <= s1 < 64 -> 0 <= s2 < 64 ->
  Z.lor (Z.lor (Z.shiftl s0 18) (Z.shiftl s1 12)) (Z.shiftl s2 6)
  = s0 * 262144 + s1 * 4096 + s2 * 64.
Proof.
  intros H0 H1 H2. rewrite sextets_sum2 by assumption.
  rewrite Z.shiftl_mul_pow2 by lia. change (2 ^ 6) with 64.
  apply (lor_disjoint_add _ _ 12); [lia| |change (2 ^ 12) with 4096; lia].
  change (2 ^ 12) with 4096.
  replace (s0 * 262144 + s1 * 4096) with ((s0 * 64 + s1) * 4096) by lia.
  apply Z.mod_mul. lia.
Qed.

Lemma sextet_range (x : Z) : 0 <= x mod 64 < 64.
Proof. apply Z.mod_pos_bound. lia. Qed.

(** Three bytes through four sextets and back. *)
Lemma quantum_three (x0 x1 x2 : Z) :
  0 <= x0 < 256 -> 0 <= x1 < 256 -> 0 <= x2 < 256 ->
  let v := Z.lor (Z.lor (Z.shiftl x0 16) (Z.shiftl x1 8)) x2 in
  let v' := Z.lor (Z.lor (Z.shiftl (Z.land (Z.shiftr v 18) 63) 18)
                         (Z.shiftl (Z.land (Z.shiftr v 12) 63) 12))
                  (Z.lor (Z.shiftl (Z.land (Z.shiftr v 6) 63) 6) (Z.land v 63)) in
  Z.shiftr v' 16 mod 256 = x0 /\ Z.shiftr v' 8 mod 256 = x1 /\ v' mod 256 = x2.
Proof.
  intros H0 H1 H2. cbv zeta. rewrite quantum_sum by assumption.
  rewrite !land_63, sextets_sum by apply sextet_range.
  rewrite !Z.shiftr_div_pow2 by lia.
  change (2 ^ 18) with 262144. change (2 ^ 16) with 65536.
  change (2 ^ 12) with 4096. change (2 ^ 8) with 256. change (2 ^ 6) with 64.
  repeat split; Z.div_mod_to_equations; lia.
Qed.

Lemma quantum_two (x0 x1 : Z) :
  0 <= x0 < 256 -> 0 <= x1 < 256 ->
  let v := Z.lor (Z.shiftl x0 16) (Z.shiftl x1 8) in
  let v' := Z.lor (Z.lor (Z.shiftl (Z.land (Z.shiftr v 18) 63) 18)
                         (Z.shiftl (Z.land (Z.shiftr v 12) 63) 12))
                  (Z.shiftl (Z.land (Z.shiftr v 6) 63) 6) in
  Z.shiftr v' 16 mod 256 = x0 /\ Z.shiftr v' 8 mod 256 = x1.
Proof.
  intros H0 H1. cbv zeta. rewrite quantum_sum2 by assumption.
  rewrite !land_63, sextets_sum3 by apply sextet_range.
  rewrite !Z.shiftr_div_pow2 by lia.
  change (2 ^ 18) with 262144. change (2 ^ 16) with 65536.
  change (2 ^ 12) with 4096. change (2 ^ 8) with 256. change (2 ^ 6) with 64.
  repeat split; Z.div_mod_to_equations; lia.
Qed.

Lemma quantum_one (x0 : Z) :
  0 <= x0 < 256 ->
  let v := Z.shiftl x0 16 in
  let v' := Z.lor (Z.shiftl (Z.land (Z.shiftr v 18) 63) 18)
                  (Z.shiftl (Z.land (Z.shiftr v 12) 63) 12) in
  Z.shiftr v' 16 mod 256 = x0.
Proof.
  intros H0. cbv zeta.
  rewrite !land_63, sextets_sum2 by apply sextet_range.
  rewrite !Z.shiftr_div_pow2, Z.shiftl_mul_pow2 by lia.
  change (2 ^ 18) with 262144. change (2 ^ 16) with 65536.
  change (2 ^ 12) with 4096.
  Z.div_mod_to_equations; lia.
Qed.

Lemma decodeSextet_land (x : Z) :
  decodeSextet (encodeSextet (Z.land x 63)) = Some (Z.land x 63).
Proof. apply decodeSextet_encodeSextet. rewrite land_63. apply sextet_range. Qed.

Lemma decodeQuanta_EncodeToString (n : nat) :
  forall (src : list byte) (fuel : nat),
    (length src < n)%nat -> (length src < fuel)%nat ->
    decodeQuanta fuel (EncodeToString src) = Some src.
Proof.
  induction n as [|n IH]; intros src fuel Hn Hfuel; [lia|].
  destruct fuel as [|fuel]; [lia|].
  destruct src as [|b0 [|b1 [|b2 rest]]].
  - reflexivity.
  - cbn [EncodeToString decodeQuanta]. rewrite !decodeSextet_land.
    change (decodeSextet padChar) with (@None Z).
    change (Ascii.eqb padChar padChar) with true.
    cbn [andb String.eqb]. cbv zeta.
    pose proof (quantum_one (byteZ b0) (byteZ_range b0)) as H0. cbv zeta in H0.
    now rewrite (zByte_byteZ b0 _ H0).
  - cbn [EncodeToString decodeQuanta]. rewrite !decodeSextet_land.
    change (decodeSextet padChar) with (@None Z).
    change (Ascii.eqb padChar padChar) with true.
    cbn [andb String.eqb]. cbv zeta.
    pose proof (quantum_two (byteZ b0) (byteZ b1) (byteZ_range b0) (byteZ_range b1))
      as [H0 H1].
    now rewrite (zByte_byteZ b0 _ H0), (zByte_byteZ b1 _ H1).
  - cbn [EncodeToString decodeQuanta]. rewrite !decodeSextet_land.
    rewrite IH by (simpl in *; lia). cbv zeta.
    pose proof (quantum_three (byteZ b0) (byteZ b1) (byteZ b2)
                  (byteZ_range b0) (byteZ_range b1) (byteZ_range b2))
      as (H0 & H1 & H2).
    now rewrite (zByte_byteZ b0 _ H0), (zByte_byteZ b1 _ H1), (zByte_byteZ b2 _ H2).
Qed.

Lemma EncodeToString_length (n : nat) :
  forall src : list byte,
    (length src < n)%nat -> (length src <= String.length (EncodeToString src))%nat.
Proof.
  induction n as [|n IH]; intros src Hn; [lia|].
  destruct src as [|b0 [|b1 [|b2 rest]]]; cbn [EncodeToString String.length length];
    try lia.
  specialize (IH rest). simpl in Hn. lia.
Qed.

(** What [EncodeToString] writes, [DecodeString] reads back. *)
Lemma DecodeString_EncodeToString (src : list byte) :
  DecodeString (EncodeToString src) = Some src.
Proof.
  unfold DecodeString. rewrite stripNewlines_EncodeToString.
  apply (decodeQuanta_EncodeToString (S (length src))); [lia|].
  pose proof (EncodeToString_length (S (length src)) src). lia.
Qed.

(** ** [time]: the zone that [timeFormat] writes is not the zone that
    the RFC 3339 layout reads *)














(** ** C1: scalars through the encoder and back through the decoder *)


Lemma parseElement_newScalar (typeName data : string) :
  parseElement (newScalar typeName data)
  = parseElementWith parseElement (mkElement typeName [TCharData data]).
Proof. rewrite parseElement_eq. reflexivity. Qed.

Lemma bytesOf_bytesValue (data : list byte) :
  bytesOf (map (fun b => reflect.VUint (reflect.Basic reflect.Uint8) (byteZ b)) data)
  = Some data.
Proof.
  induction data as [|b data IH]; simpl; [reflexivity|].
  rewrite IH. simpl. f_equal. f_equal. apply zByte_byteZ.
  apply Z.mod_small. apply byteZ_range.
Qed.

Lemma parseElement_int_text (data : string) :
  parseElement (newScalar enInt data)
  = match Atoi data with
    | None => Err (IntegerConversionFailed data)
    | Some number => OK (intResult number)
    end.
Proof. rewrite parseElement_newScalar. reflexivity. Qed.

Lemma parseElement_double_text (data : string) :
  parseElement (newScalar enDouble data)
  = match ParseFloat data with
    | None => Err (DoubleConversionFailed data)
    | Some double => OK (doubleResult double)
    end.
Proof. rewrite parseElement_newScalar. reflexivity. Qed.

Lemma parseElement_base64_text (data : string) :
  parseElement (newScalar enBase64 data)
  = match DecodeString data with
    | None => Err (Base64ConversionFailed data)
    | Some base64 => OK (base64Result base64)
    end.
Proof. rewrite parseElement_newScalar. reflexivity. Qed.

Lemma parseElement_dateTime_text (data : string) :
  parseElement (newScalar enDateTime data)
  = match ParseRFC3339 data with
    | None => Err (DateTimeConversionFailed data)
    | Some time => OK (dateTimeResult time)
    end.
Proof. rewrite parseElement_newScalar. reflexivity. Qed.


(** ** C7: struct members and the enumeration of map keys *)

Lemma constructStructLoop_converted
    (entries : list (reflect.Value * reflect.Value)) :
  forall s : Element,
    Forall (fun entry => exists w, toValue entry.2 = Return w) entries ->
    constructStructLoop toValue (reflect.Basic reflect.String) entries s
    = Return (mkElement (Tag s)
                (Child s ++ map (fun entry => memberToken entry (converted (toValue entry.2)))
                                entries)).
Proof.
  induction entries as [|[k x] entries IH]; intros s Hall; simpl.
  - rewrite app_nil_r. now destruct s.
  - inversion Hall as [|? ? (w & Hw) Hrest]; subst. simpl in Hw.
    rewrite Hw. rewrite IH by exact Hrest. simpl.
    rewrite <- app_assoc. reflexivity.
Qed.

Lemma constructStructLoop_Return (keyType : reflect.Type_)
    (entries : list (reflect.Value * reflect.Value)) :
  forall s r : Element,
    constructStructLoop toValue keyType entries s = Return r ->
    Forall (fun entry => exists w, toValue entry.2 = Return w) entries /\
    (entries = [] \/ keyType = reflect.Basic reflect.String).
Proof.
  induction entries as [|[k x] entries IH]; intros s r H; simpl in H.
  - split; [constructor|now left].
  - destruct (negb (reflect.kindEqb (reflect.TypeKind keyType) reflect.String));
      [discriminate|].
    destruct (negb (reflect.typeEqb keyType (reflect.Basic reflect.String)))
      eqn:Hkey; [discriminate|].
    destruct (toValue x) as [w| |] eqn:Hx; try discriminate.
    apply IH in H. destruct H as [Hall _]. split.
    + constructor; [simpl; eauto|exact Hall].
    + right. apply negb_false_iff in Hkey.
      destruct keyType as [[]| | | | | | | |]; simpl in Hkey; try discriminate.
      reflexivity.
Qed.

Lemma toValue_map (t : reflect.Type_)
    (entries : list (reflect.Value * reflect.Value)) (keyType : reflect.Type_) :
  reflect.TypeKind t = reflect.Map -> reflect.Key t = Some keyType ->
  toValue (reflect.VMap t entries)
  = constructStructLoop toValue keyType entries newStruct.
Proof.
  intros Hk Hkey. simpl. unfold reflect.KindOf. simpl. now rewrite Hk, Hkey.
Qed.

Lemma toValue_map_Return (t : reflect.Type_)
    (entries : list (reflect.Value * reflect.Value)) (s : Element) :
  toValue (reflect.VMap t entries) = Return s ->
  exists keyType,
    reflect.TypeKind t = reflect.Map /\ reflect.Key t = Some keyType /\
    constructStructLoop toValue keyType entries newStruct = Return s.
Proof.
  simpl. unfold reflect.KindOf. simpl.
  destruct (reflect.TypeKind t) eqn:Hk; try discriminate.
  - destruct (reflect.Elem t) as [elem|]; simpl; [|discriminate].
    destruct (reflect.kindEqb (reflect.TypeKind elem) reflect.Uint8); discriminate.
  - destruct (reflect.Key t) as [keyType|] eqn:Hkey; simpl; [|discriminate].
    intros H. exists keyType. auto.
  - destruct (reflect.Elem t) as [elem|]; simpl; [|discriminate].
    destruct (reflect.kindEqb (reflect.TypeKind elem) reflect.Uint8); discriminate.
  - destruct (_ || _); discriminate.
Qed.

(** C7, as the code has it.  The members of the struct element that a
    map with string keys is converted to follow the order in which the
    keys are enumerated ([MapKeys], which Go leaves unspecified).  Two
    enumerations of the same map are converted to struct elements with
    the same members, in possibly different order. *)
Theorem struct_members_follow_enumeration :
  (forall t entries ws,
     stringKeyed t ->
     Forall2 (fun entry w => toValue entry.2 = Return w) entries ws ->
     toValue (reflect.VMap t entries)
     = Return (mkElement enStruct (zip_with memberToken entries ws))) /\
  (forall t entries entries' s,
     Permutation entries entries' ->
     toValue (reflect.VMap t entries) = Return s ->
     exists s',
       toValue (reflect.VMap t entries') = Return s' /\
       Tag s' = Tag s /\ Permutation (Child s) (Child s')).
Proof.
  split.
  - intros t entries ws [Hk Hkey] Hall.
    rewrite (toValue_map t entries _ Hk Hkey).
    rewrite constructStructLoop_converted.
    + simpl. f_equal. f_equal.
      induction Hall as [|entry w entries ws Hw _ IH]; simpl; [reflexivity|].
      now rewrite Hw, IH.
    + induction Hall as [|entry w entries ws Hw _ IH]; constructor; eauto.
  - intros t entries entries' s Hperm H.
    destruct (toValue_map_Return t entries s H) as (keyType & Hk & Hkey & Hloop).
    rewrite (toValue_map t entries' _ Hk Hkey).
    destruct (constructStructLoop_Return _ _ _ _ Hloop) as [Hall [->| ->]].
    + apply Permutation_nil in Hperm. subst entries'. exists s.
      simpl in *. injection Hloop as <-. auto.
    + rewrite constructStructLoop_converted in Hloop by exact Hall.
      injection Hloop as <-.
      rewrite constructStructLoop_converted.
      * eexists. split; [reflexivity|]. split; [reflexivity|]. simpl.
        now apply Permutation_map.
      * eapply Permutation_Forall; eassumption.
Qed.

(** ** C8: byte sequences *)

(** C8, on the code.  A byte slice is converted to a base64 element with
    the standard padded encoding of its bytes; a fixed-size byte array
    is sent down the same branch, where the type assertion
    [arg.([]byte)] panics: so for [[3]byte{1, 2, 3}]. *)
Theorem byte_slices_encoded_byte_arrays_panic :
  (forall data,
     toValue (bytesValue data) = Return (newBase64 data) /\
     Tag (newBase64 data) = "base64" /\
     Text (newBase64 data) = EncodeToString data) /\
  (forall n elems,
     toValue (reflect.VSeq (reflect.ArrayOf n (reflect.Basic reflect.Uint8)) elems)
     = Panic "interface conversion: interface {} is not []uint8") /\
  toValue byteArray123 = Panic "interface conversion: interface {} is not []uint8".
Proof.
  split; [|split; [intros n elems|]; reflexivity].
  intros data. split; [|split; reflexivity].
  unfold bytesValue. simpl. now rewrite bytesOf_bytesValue.
Qed.

(** ** C10: 64-bit integers *)

Lemma addValue_arrayOf (v : Element) (values : list Token) :
  addValue v (arrayOf values)
  = Return (arrayOf (values ++ [TElement (wrapToValue v)])).
Proof. reflexivity. Qed.

Lemma constructArrayLoop_cons (convert : reflect.Value -> Outcome Element)
    (x : reflect.Value) (rest : list reflect.Value) (array : Element) :
  constructArrayLoop convert (x :: rest) array
  = match convert x with
    | Failure err => Failure err
    | Panic reason => Panic reason
    | Return value =>
        match addValue value array with
        | Return array' => constructArrayLoop convert rest array'
        | Failure err => Failure err
        | Panic reason => Panic reason
        end
    end.
Proof. reflexivity. Qed.

Lemma constructArrayLoop_first_failure (before : list reflect.Value)
    (ws : list Element) (x : reflect.Value) (after : list reflect.Value)
    (err : error) :
  Forall2 (fun v w => toValue v = Return w) before ws ->
  toValue x = Failure err ->
  forall values,
    constructArrayLoop toValue (before ++ x :: after) (arrayOf values)
    = Failure err.
Proof.
  intros Hall Hx. induction Hall as [|v w before ws Hv _ IH]; intros values;
    cbn [app]; rewrite constructArrayLoop_cons.
  - now rewrite Hx.
  - rewrite Hv, addValue_arrayOf. apply IH.
Qed.

Lemma constructStructLoop_first_failure
    (before : list (reflect.Value * reflect.Value)) (ws : list Element)
    (k x : reflect.Value) (after : list (reflect.Value * reflect.Value))
    (err : error) :
  Forall2 (fun entry w => toValue entry.2 = Return w) before ws ->
  toValue x = Failure err ->
  forall s,
    constructStructLoop toValue (reflect.Basic reflect.String)
      (before ++ (k, x) :: after) s
    = Failure err.
Proof.
  intros Hall Hx. induction Hall as [|[k' v] w before ws Hv _ IH]; intros s; simpl.
  - now rewrite Hx.
  - simpl in Hv. rewrite Hv. apply IH.
Qed.

Lemma preparePayloadLoop_first_failure (before : list reflect.Value)
    (ws : list Element) (arg : reflect.Value) (after : list reflect.Value)
    (err : error) :
  Forall2 (fun v w => toValue v = Return w) before ws ->
  toValue arg = Failure err ->
  forall methodName params,
    preparePayloadLoop (before ++ arg :: after)
      (mkElement "" [TOther;
         TElement (mkElement enMethodCall
                     [TElement (mkElement enMethodName [TCharData methodName]);
                      TElement (mkElement enParams params)])])
    = Failure (Wrap err "method arguments parsing failed").
Proof.
  intros Hall Harg. induction Hall as [|v w before ws Hv _ IH];
    intros methodName params; simpl.
  - now rewrite Harg.
  - rewrite Hv. apply IH.
Qed.

Lemma Value_nested_ind (P : reflect.Value -> Prop) :
  P reflect.Nil ->
  (forall t b, P (reflect.VBool t b)) ->
  (forall t i, P (reflect.VInt t i)) ->
  (forall t u, P (reflect.VUint t u)) ->
  (forall t f, P (reflect.VFloat t f)) ->
  (forall t s, P (reflect.VString t s)) ->
  (forall tm, P (reflect.VTime tm)) ->
  (forall t elems, Forall P elems -> P (reflect.VSeq t elems)) ->
  (forall t entries, Forall (fun entry => P entry.2) entries ->
                     P (reflect.VMap t entries)) ->
  (forall t, P (reflect.VOther t)) ->
  forall v, P v.
Proof.
  intros Hnil Hbool Hint Huint Hfloat Hstring Htime Hseq Hmap Hother.
  fix IH 1. intros [|t b|t i|t u|t f|t s|tm|t elems|t entries|t].
  - exact Hnil.
  - apply Hbool.
  - apply Hint.
  - apply Huint.
  - apply Hfloat.
  - apply Hstring.
  - apply Htime.
  - apply Hseq. induction elems as [|x elems IHelems]; constructor;
      [apply IH|exact IHelems].
  - apply Hmap. induction entries as [|[k x] entries IHentries]; constructor;
      [apply IH|exact IHentries].
  - apply Hother.
Qed.

Lemma constructArrayLoop_Return (elems : list reflect.Value) :
  forall array r,
    constructArrayLoop toValue elems array = Return r ->
    Forall (fun x => exists w, toValue x = Return w) elems.
Proof.
  induction elems as [|x elems IH]; intros array r H; [constructor|].
  rewrite constructArrayLoop_cons in H.
  destruct (toValue x) as [w| |] eqn:Hx; try discriminate.
  destruct (addValue w array) as [array'| |]; try discriminate.
  constructor; [eauto|]. eapply IH. exact H.
Qed.

Lemma constructArrayLoop_Failure (elems : list reflect.Value) :
  forall array err,
    constructArrayLoop toValue elems array = Failure err ->
    exists x, In x elems /\ toValue x = Failure err.
Proof.
  induction elems as [|x elems IH]; intros array err H; [discriminate|].
  rewrite constructArrayLoop_cons in H.
  destruct (toValue x) as [w|err'|] eqn:Hx; try discriminate.
  - unfold addValue in H. destruct (FindElement enData array); [|discriminate].
    apply IH in H. destruct H as (x' & Hin & Hx'). exists x'. split; [now right|exact Hx'].
  - injection H as <-. exists x. split; [now left|exact Hx].
Qed.

Lemma constructStructLoop_Failure (keyType : reflect.Type_)
    (entries : list (reflect.Value * reflect.Value)) :
  forall s err,
    constructStructLoop toValue keyType entries s = Failure err ->
    err = InvalidArgumentType reflect.Map \/
    exists entry, In entry entries /\ toValue entry.2 = Failure err.
Proof.
  induction entries as [|[k x] entries IH]; intros s err H; simpl in H;
    [discriminate|].
  destruct (negb (reflect.kindEqb (reflect.TypeKind keyType) reflect.String));
    [left; congruence|].
  destruct (negb (reflect.typeEqb keyType (reflect.Basic reflect.String)));
    [discriminate|].
  destruct (toValue x) as [w|err'|] eqn:Hx; try discriminate.
  - apply IH in H. destruct H as [H|(entry & Hin & Hentry)]; [now left|].
    right. exists entry. split; [now right|exact Hentry].
  - injection H as <-. right. exists (k, x). split; [now left|exact Hx].
Qed.

(** Every error that [toValue] returns is an invalid-type error. *)
Lemma toValue_Failure (v : reflect.Value) :
  forall err, toValue v = Failure err -> exists k, err = InvalidArgumentType k.
Proof.
  induction v as [|t b|t i|t u|t f|t s|tm|t elems IH|t entries IH|t]
    using Value_nested_ind; intros err; simpl; unfold reflect.KindOf; simpl;
    try (destruct (reflect.TypeKind t) eqn:Hk; simpl;
         repeat match goal with
                | |- context [match reflect.Elem ?t with _ => _ end] =>
                    destruct (reflect.Elem t); simpl
                | |- context [match reflect.Key ?t with _ => _ end] =>
                    destruct (reflect.Key t) eqn:Hkey; simpl
                | |- context [if ?b then _ else _] => destruct b; simpl
                | |- context [match bytesOf ?l with _ => _ end] =>
                    destruct (bytesOf l); simpl
                | |- context [match ?t with reflect.Basic _ => _ | _ => _ end] =>
                    destruct t; simpl
                | |- context [match ?k with reflect.Uint8 => _ | _ => _ end] =>
                    destruct k; simpl
                end);
    try discriminate; try (intros [= <-]; eauto; fail).
  all: intros H.
  all: try (apply constructArrayLoop_Failure in H;
            destruct H as (x & Hin & Hx);
            rewrite List.Forall_forall in IH; exact (IH x Hin err Hx)).
  all: try (apply constructStructLoop_Failure in H;
            destruct H as [->|(entry & Hin & Hentry)]; [eauto|];
            rewrite List.Forall_forall in IH; exact (IH entry Hin err Hentry)).
Qed.

Lemma toValue_containsInt64 (v : reflect.Value) :
  containsInt64 v -> forall w, toValue v <> Return w.
Proof.
  induction 1 as [v Hk|t elems x Ht Hin _ IH|t entries k x Ht Hin _ IH];
    intros w Hw.
  - destruct v as [|t b|t i|t u|t f|t s|tm|t elems|t entries|t];
      simpl in Hw; unfold reflect.KindOf in *; simpl in *;
      try rewrite Hk in Hw; discriminate.
  - rewrite toValue_plainSequence in Hw by exact Ht.
    apply constructArrayLoop_Return in Hw.
    rewrite List.Forall_forall in Hw. destruct (Hw x Hin) as (w' & Hx).
    now apply IH in Hx.
  - apply toValue_map_Return in Hw. destruct Hw as (keyType & _ & _ & Hloop).
    apply constructStructLoop_Return in Hloop. destruct Hloop as [Hall _].
    rewrite List.Forall_forall in Hall. destruct (Hall (k, x) Hin) as (w' & Hx).
    now apply IH in Hx.
Qed.

Lemma preparePayloadLoop_Return (args : list reflect.Value) :
  forall payload doc,
    preparePayloadLoop args payload = Return doc ->
    Forall (fun arg => exists w, toValue arg = Return w) args.
Proof.
  induction args as [|arg args IH]; intros payload doc H; [constructor|].
  simpl in H. destruct (toValue arg) as [w| |] eqn:Harg; try discriminate.
  destruct (addParam w payload) as [payload'| |]; try discriminate.
  constructor; [eauto|]. eapply IH. exact H.
Qed.

(** C10, on the code.  A value of kind [Int64] is refused with the
    invalid-type error, and so is a sequence, a string-keyed map or an
    argument list in which it is the first element that does not
    convert.  A value that holds an [Int64] at any depth is never
    converted, every error that its conversion returns is an
    invalid-type error, and no request document is built from it.  But
    the conversion need not return: when a byte array stands before the
    [Int64] it panics, so for [[]interface{}{[1]byte{0}, int64(1)}]. *)
Theorem int64_refused_unless_panic_first :
  (forall t i, reflect.TypeKind t = reflect.Int64 ->
     toValue (reflect.VInt t i) = Failure (InvalidArgumentType reflect.Int64)) /\
  (forall t before ws x after,
     plainSequence t = true ->
     Forall2 (fun v w => toValue v = Return w) before ws ->
     toValue x = Failure (InvalidArgumentType reflect.Int64) ->
     toValue (reflect.VSeq t (before ++ x :: after))
     = Failure (InvalidArgumentType reflect.Int64)) /\
  (forall t before ws k x after,
     stringKeyed t ->
     Forall2 (fun entry w => toValue entry.2 = Return w) before ws ->
     toValue x = Failure (InvalidArgumentType reflect.Int64) ->
     toValue (reflect.VMap t (before ++ (k, x) :: after))
     = Failure (InvalidArgumentType reflect.Int64)) /\
  (forall methodName before ws arg after,
     Forall2 (fun v w => toValue v = Return w) before ws ->
     toValue arg = Failure (InvalidArgumentType reflect.Int64) ->
     preparePayload methodName (before ++ arg :: after)
     = Failure (Wrap (InvalidArgumentType reflect.Int64)
                     "method arguments parsing failed")) /\
  (forall v, containsInt64 v ->
     (forall w, toValue v <> Return w) /\
     (forall err, toValue v = Failure err -> exists k, err = InvalidArgumentType k)) /\
  (forall methodName args arg, In arg args -> containsInt64 arg ->
     forall doc, preparePayload methodName args <> Return doc) /\
  containsInt64 byteArrayThenInt64 /\
  toValue byteArrayThenInt64
  = Panic "interface conversion: interface {} is not []uint8" /\
  preparePayload "m" [byteArrayThenInt64]
  = Panic "interface conversion: interface {} is not []uint8".
Proof.
  repeat split.
  - intros t i Ht. simpl. unfold reflect.KindOf. simpl. now rewrite Ht.
  - intros t before ws x after Ht Hall Hx.
    rewrite toValue_plainSequence by exact Ht.
    now apply (constructArrayLoop_first_failure before ws x after _ Hall Hx []).
  - intros t before ws k x after [Hk Hkey] Hall Hx.
    rewrite (toValue_map t _ _ Hk Hkey).
    now apply (constructStructLoop_first_failure before ws k x after _ Hall Hx).
  - intros methodName before ws arg after Hall Harg.
    now apply (preparePayloadLoop_first_failure before ws arg after _ Hall Harg).
  - now apply toValue_containsInt64.
  - apply toValue_Failure.
  - intros methodName args arg Hin Harg doc Hdoc.
    apply preparePayloadLoop_Return in Hdoc.
    rewrite List.Forall_forall in Hdoc. destruct (Hdoc arg Hin) as (w & Hw).
    now apply (toValue_containsInt64 arg Harg w).
  - apply (containsInt64_seq _ _ (reflect.VInt (reflect.Basic reflect.Int64) 1));
      [reflexivity|right; left; reflexivity|].
    apply containsInt64_here. reflexivity.
Qed.

(** * The decoder: what succeeds and what fails *)

(** ** What a successful [parseArray] and [parseStruct] have read *)

Lemma parseArrayLoop_OK (parse : Element -> Res Result) (elements : list Element) :
  forall acc results,
    parseArrayLoop parse elements acc = OK results ->
    exists rs,
      results = (acc ++ rs)%list /\
      Forall2 (fun value r => exists child,
                 ChildElements value = [child] /\ parse child = OK r)
              elements rs.
Proof.
  induction elements as [|el rest IH]; simpl; intros acc results H.
  - injection H as <-. exists []. split; [now rewrite app_nil_r|constructor].
  - destruct (ChildElements el) as [|c [|c' cs]] eqn:Hch; try discriminate.
    destruct (parse c) as [r|] eqn:Hc; [|discriminate].
    apply IH in H. destruct H as (rs & -> & Hall).
    exists (r :: rs). split; [now rewrite <- app_assoc|].
    constructor; [eauto|exact Hall].
Qed.

(** X1.  [parseArray] returns a list exactly when the array has at least one
    value element and every value element has one child element that
    decodes; the list holds the results of these children in their
    order. *)
Theorem parseArray_succeeds_iff (e : Element) (results : list Result) :
  parseArray e = OK results <->
  results <> [] /\ Forall2 decodesTo (FindElements arrayValuePath e) results.
Proof.
  unfold parseArray, parseArrayWith. split.
  - destruct (parseArrayLoop parseElement (FindElements arrayValuePath e) [])
      as [rs|err] eqn:Hloop; [|discriminate].
    apply parseArrayLoop_OK in Hloop. destruct Hloop as (rs' & -> & Hall).
    simpl. destruct rs' as [|r rs']; simpl; [discriminate|].
    intros [= <-]. split; [discriminate|exact Hall].
  - intros [Hsome Hall].
    rewrite (parseArrayLoop_ok parseElement _ results) by exact Hall. simpl.
    destruct results; [congruence|reflexivity].
Qed.

Lemma insertAll_list_to_map (pairs : list (string * Result)) :
  NoDup pairs.*1 -> insertAll ∅ pairs = list_to_map pairs.
Proof.
  intros Hnd. apply map_eq. intros k.
  destruct (list_to_map pairs !! k) as [r|] eqn:Hk.
  - apply elem_of_list_to_map in Hk; [|exact Hnd].
    now apply insertAll_lookup.
  - apply not_elem_of_list_to_map in Hk.
    rewrite insertAll_lookup_other by exact Hk. apply lookup_empty.
Qed.

Lemma parseStructLoop_OK (members : list Element) :
  forall acc results : gmap string Result,
    parseStructLoop parseElement members acc = OK results ->
    exists pairs,
      Forall2 memberDecodesTo members pairs /\ NoDup pairs.*1 /\
      (forall k, k ∈ pairs.*1 -> acc !! k = None) /\
      results = insertAll acc pairs.
Proof.
  induction members as [|m rest IH]; simpl; intros acc results H.
  - injection H as <-. exists []. repeat split; try constructor.
    intros k Hk. now apply elem_of_nil in Hk.
  - destruct (FindElement structMemberNameTag m) as [name|] eqn:Hname;
      [|discriminate].
    destruct (FindElement structMemberValueTag m) as [value|] eqn:Hvalue;
      [|discriminate].
    destruct (acc !! Text name) eqn:Hfresh; [discriminate|].
    destruct (ChildElements value) as [|c [|c' cs]] eqn:Hch; try discriminate.
    destruct (parseElement c) as [r|] eqn:Hc; [|discriminate].
    apply IH in H. destruct H as (pairs & Hall & Hnd & Hnew & ->).
    assert (Hn : Text name ∉ pairs.*1).
    { intros Hin. apply Hnew in Hin. now rewrite lookup_insert_eq in Hin. }
    exists ((Text name, r) :: pairs). split; [|split; [|split]].
    + constructor; [|exact Hall].
      exists value. split; [exists name; auto|exists c; auto].
    + simpl. apply NoDup_cons. split; assumption.
    + intros k Hk. simpl in Hk. apply elem_of_cons in Hk.
      destruct Hk as [Heq|Hk]; [rewrite Heq; exact Hfresh|].
      specialize (Hnew k Hk). rewrite lookup_insert_ne in Hnew; [exact Hnew|].
      intros Heq. apply Hn. now rewrite Heq.
    + reflexivity.
Qed.

(** X2.  [parseStruct] returns a map exactly when the struct has at least one
    member, every member has a name element and a value element with one
    child element that decodes, and no two members have the same name;
    the map then holds one entry per member. *)
Theorem parseStruct_succeeds_iff (e : Element) (results : gmap string Result) :
  parseStruct e = OK results <->
  exists pairs,
    pairs <> [] /\
    Forall2 memberDecodesTo (FindElements structMemberPath e) pairs /\
    NoDup pairs.*1 /\
    results = list_to_map pairs.
Proof.
  unfold parseStruct, parseStructWith. split.
  - destruct (parseStructLoop parseElement (FindElements structMemberPath e) ∅)
      as [rs|err] eqn:Hloop; [|discriminate].
    apply parseStructLoop_OK in Hloop.
    destruct Hloop as (pairs & Hall & Hnd & Hnew & ->).
    rewrite insertAll_size by assumption. rewrite map_size_empty. simpl.
    destruct pairs as [|p pairs]; [discriminate|].
    intros [= <-]. exists (p :: pairs).
    split; [discriminate|]. split; [exact Hall|]. split; [exact Hnd|].
    exact (insertAll_list_to_map (p :: pairs) Hnd).
  - intros (pairs & Hsome & Hall & Hnd & ->).
    rewrite (parseStructLoop_ok _ pairs); [|exact Hall|exact Hnd|].
    2:{ intros k _. apply lookup_empty. }
    rewrite insertAll_size; [|exact Hnd|intros k _; apply lookup_empty].
    rewrite map_size_empty. simpl.
    destruct pairs as [|p pairs]; [congruence|]. simpl.
    f_equal. exact (insertAll_list_to_map (p :: pairs) Hnd).
Qed.

(** ** The errors of the decoder *)

Lemma parseElementAt_decodeError (bound : nat) :
  forall e err,
    (height e <= bound)%nat -> parseElementAt bound e = Err err -> decodeError err.
Proof.
  induction bound as [|bound IH]; intros e err Hh H.
  - rewrite height_eq in Hh. lia.
  - simpl in H.
    rewrite (parseElementWith_ext _
               (fun c => if (height c <=? bound)%nat then parseElementAt bound c
                         else Err MalformedValue)) in H.
    2:{ intros c Hc. destruct (Nat.leb_spec (height c) bound); [reflexivity|lia]. }
    revert H. apply (parseElementWith_error decodeError); try constructor.
    intros c err' Hc. destruct (Nat.leb_spec (height c) bound).
    + eapply IH; eassumption.
    + injection Hc as <-. constructor.
Qed.

Lemma parseElement_decodeError (e : Element) (err : error) :
  parseElement e = Err err -> decodeError err.
Proof. apply parseElementAt_decodeError. lia. Qed.

Lemma parseResponse_decodeError (doc : Element) (err : error) :
  parseResponse doc = Err err -> decodeError err.
Proof.
  unfold parseResponse.
  destruct (FindElement methodResponseValuePath doc) as [value|];
    destruct (FindElement methodResponseFaultPath doc) as [fault|];
    try (intros [= <-]; constructor).
  - unfold parseValue. destruct (ChildElements value) as [|c [|c' cs]];
      try (intros [= <-]; constructor).
    apply parseElement_decodeError.
  - destruct (parseFault_cases fault) as [H|(code & message & H)]; rewrite H;
      intros [= <-]; constructor.
Qed.

Section ParseResult.

Variable ReadFromBytes : list byte -> Res Element.

(** X3.  Every error of [parseResponse] is one of the fifteen errors of
    result.go; the bound of the recursion is never what stops it.  Every
    error of [parseResult] is one of these, or the error of the XML
    parser under its own message, under the message of [parseResult]. *)
Theorem decoding_errors_are_known :
  (forall doc err, parseResponse doc = Err err -> decodeError err) /\
  (forall data err,
     parseResult ReadFromBytes data = Err err ->
     exists cause,
       err = Wrap cause "cannot parse XML RPC response" /\
       ((exists doc, ReadFromBytes data = OK doc /\
                     parseResponse doc = Err cause /\ decodeError cause) \/
        (exists e, ReadFromBytes data = Err e /\
                   cause = Wrap e "failed to reconstruct XML DOM"))).
Proof.
  split; [exact parseResponse_decodeError|].
  intros data err. unfold parseResult, constructXML.
  destruct (ReadFromBytes data) as [doc|e].
  - destruct (parseResponse doc) as [r|cause] eqn:Hdoc; [discriminate|].
    intros [= <-]. exists cause. split; [reflexivity|]. left. exists doc.
    repeat split; [exact Hdoc|]. eapply parseResponse_decodeError. exact Hdoc.
  - intros [= <-]. eexists. split; [reflexivity|]. right. eauto.
Qed.

End ParseResult.

(** ** A fault is read by the names of its members *)

Lemma faultNames_differ (s : string) :
  String.eqb s faultCodeName && String.eqb s faultStringName = false.
Proof.
  destruct (String.eqb_spec s faultCodeName) as [->|]; reflexivity.
Qed.

(** X4.  [parseFault] gives the same error for a fault and for the fault
    with its two members in the other order. *)
Theorem parseFault_member_order (e e' a b : Element) :
  FindElements faultMembersPath e = [a; b] ->
  FindElements faultMembersPath e' = [b; a] ->
  parseFault e = parseFault e'.
Proof.
  intros He He'. unfold parseFault. rewrite He, He'. simpl.
  destruct (FindElement faultMemberNameTag a) as [na|];
    destruct (FindElement faultMemberNameTag b) as [nb|]; simpl;
    try reflexivity.
  - pose proof (faultNames_differ (Text na)) as Ha.
    pose proof (faultNames_differ (Text nb)) as Hb.
    destruct (String.eqb (Text na) faultCodeName);
      destruct (String.eqb (Text na) faultStringName);
      destruct (String.eqb (Text nb) faultCodeName);
      destruct (String.eqb (Text nb) faultStringName);
      try discriminate; try reflexivity;
      repeat match goal with
             | |- context [match ?x with Some _ => _ | None => _ end] =>
                 destruct x
             end; reflexivity.
  - pose proof (faultNames_differ (Text na)) as Ha.
    destruct (String.eqb (Text na) faultCodeName);
      destruct (String.eqb (Text na) faultStringName);
      try discriminate; try reflexivity;
      repeat match goal with
             | |- context [match ?x with Some _ => _ | None => _ end] =>
                 destruct x
             end; reflexivity.
  - pose proof (faultNames_differ (Text nb)) as Hb.
    destruct (String.eqb (Text nb) faultCodeName);
      destruct (String.eqb (Text nb) faultStringName);
      try discriminate; try reflexivity;
      repeat match goal with
             | |- context [match ?x with Some _ => _ | None => _ end] =>
                 destruct x
             end; reflexivity.
Qed.

(** * The encoder: the trees it builds *)

(** ** Paths in the trees that the encoder builds *)

Lemma elementsOf_TElement {A} (f : A -> Element) (l : list A) :
  elementsOf (map (fun a => TElement (f a)) l) = map f l.
Proof. induction l as [|a l IH]; simpl; [reflexivity|now rewrite IH]. Qed.

Lemma filter_tag {A} (f : A -> Element) (tag : string) (l : list A) :
  (forall a, Tag (f a) = tag) ->
  List.filter (fun c => String.eqb (Tag c) tag) (map f l) = map f l.
Proof.
  intros Htag. induction l as [|a l IH]; simpl; [reflexivity|].
  now rewrite Htag, String.eqb_refl, IH.
Qed.

Lemma FindElements_arrayOf (ws : list Element) :
  FindElements arrayValuePath
    (arrayOf (map (fun w => TElement (wrapToValue w)) ws))
  = map wrapToValue ws.
Proof.
  unfold FindElements, arrayOf. simpl. rewrite app_nil_r.
  unfold selectChildrenByTag, ChildElements. simpl.
  rewrite elementsOf_TElement. apply filter_tag. reflexivity.
Qed.

Lemma FindElements_members {A} (f : A -> Element) (l : list A) :
  (forall a, Tag (f a) = enMember) ->
  FindElements structMemberPath
    (mkElement enStruct (map (fun a => TElement (f a)) l))
  = map f l.
Proof.
  intros Htag. unfold FindElements. simpl. rewrite app_nil_r.
  unfold selectChildrenByTag, ChildElements. simpl.
  rewrite elementsOf_TElement. apply filter_tag. exact Htag.
Qed.

Lemma FindElements_params (methodName : string) (ws : list Element) :
  FindElements "methodCall/params/param/value"
    (payloadOf methodName (map paramToken ws))
  = map wrapToValue ws.
Proof.
  unfold FindElements, payloadOf. simpl. rewrite !app_nil_r.
  unfold selectChildrenByTag at 2, ChildElements. simpl.
  unfold paramToken. rewrite (elementsOf_TElement (fun w => toParam (wrapToValue w))).
  rewrite (filter_tag (fun w => toParam (wrapToValue w))) by reflexivity.
  induction ws as [|w ws IH]; simpl; [reflexivity|now rewrite IH].
Qed.

(** ** Sequences and maps come back *)

Lemma constructArrayLoop_converted (elems : list reflect.Value)
    (ws : list Element) :
  Forall2 (fun x w => toValue x = Return w) elems ws ->
  forall values,
    constructArrayLoop toValue elems (arrayOf values)
    = Return (arrayOf (values ++ map (fun w => TElement (wrapToValue w)) ws)).
Proof.
  induction 1 as [|x w elems ws Hx _ IH]; intros values.
  - simpl. now rewrite app_nil_r.
  - rewrite constructArrayLoop_cons, Hx, addValue_arrayOf, IH.
    simpl. now rewrite <- app_assoc.
Qed.

Lemma Forall2_echoes (xs : list reflect.Value) (rs : list Result) :
  Forall2 echoes xs rs ->
  exists ws,
    Forall2 (fun x w => toValue x = Return w) xs ws /\
    Forall2 (fun w r => parseElement w = OK r) ws rs.
Proof.
  induction 1 as [|x r xs rs (w & Hx & Hw) _ (ws & Hxs & Hws)].
  - exists []. split; constructor.
  - exists (w :: ws). split; constructor; assumption.
Qed.

(** X5.  A sequence that is not a byte sequence and has at least one
    element, each of which is converted to an element that decodes, is
    converted to an array element that decodes to the array of the
    results, in the order of the sequence. *)
Theorem sequences_come_back (t : reflect.Type_) (elems : list reflect.Value)
    (results : list Result) :
  plainSequence t = true -> elems <> [] -> Forall2 echoes elems results ->
  echoes (reflect.VSeq t elems) (arrayResult results).
Proof.
  intros Ht Hsome Hall. apply Forall2_echoes in Hall as Hws.
  destruct Hws as (ws & Hconv & Hdec).
  exists (arrayOf (map (fun w => TElement (wrapToValue w)) ws)). split.
  - rewrite toValue_plainSequence by exact Ht.
    exact (constructArrayLoop_converted elems ws Hconv []).
  - rewrite parseElement_array by reflexivity.
    unfold parseArray, parseArrayWith. rewrite FindElements_arrayOf.
    rewrite (parseArrayLoop_ok parseElement _ results).
    + simpl. destruct results; [|reflexivity].
      apply Forall2_length in Hall. destruct elems; [congruence|discriminate].
    + clear -Hdec. induction Hdec as [|w r ws rs Hw _ IH]; simpl; constructor;
        [|exact IH].
      exists w. split; [reflexivity|exact Hw].
Qed.

Lemma Forall_echoes (ers : list (reflect.Value * reflect.Value * Result)) :
  Forall (fun er => echoes er.1.2 er.2) ers ->
  Forall (fun entry => exists w, toValue entry.2 = Return w) ers.*1 /\
  Forall2 memberDecodesTo
    (map (fun entry => newMember (reflect.StringOf entry.1)
                                 (converted (toValue entry.2))) ers.*1)
    (entryPair <$> ers).
Proof.
  induction 1 as [|[[k x] r] ers (w & Hx & Hw) _ [IH1 IH2]]; simpl.
  - split; constructor.
  - simpl in Hx, Hw. split; constructor; try assumption.
    + exists w. exact Hx.
    + rewrite Hx. simpl. exists (wrapToValue w). split.
      * exists (mkElement enName [TCharData (reflect.StringOf k)]).
        repeat split.
      * exists w. split; [reflexivity|exact Hw].
Qed.

(** X6.  A map with string keys and at least one entry, each of whose values
    is converted to an element that decodes, is converted to a struct
    element that decodes to the struct of the results under the keys;
    this is so in whatever order the keys of the map are handed out. *)
Theorem maps_come_back_in_any_order (t : reflect.Type_)
    (ers ers' : list (reflect.Value * reflect.Value * Result)) :
  stringKeyed t -> ers <> [] ->
  NoDup (entryPair <$> ers).*1 ->
  Forall (fun er => echoes er.1.2 er.2) ers ->
  Permutation ers ers' ->
  echoes (reflect.VMap t ers'.*1)
         (structResult (list_to_map (entryPair <$> ers))).
Proof.
  intros [Hk Hkey] Hsome Hnd Hall Hperm.
  assert (Hpairs : Permutation (entryPair <$> ers) (entryPair <$> ers')).
  { now apply Permutation_map. }
  assert (Hnd' : NoDup (entryPair <$> ers').*1).
  { rewrite <- Hpairs. exact Hnd. }
  assert (Hall' : Forall (fun er => echoes er.1.2 er.2) ers').
  { rewrite <- Hperm. exact Hall. }
  rewrite (list_to_map_proper (entryPair <$> ers) (entryPair <$> ers'))
    by assumption.
  apply Forall_echoes in Hall'. destruct Hall' as [Hconv Hdec].
  exists (mkElement enStruct
            (map (fun entry => TElement (newMember (reflect.StringOf entry.1)
                                           (converted (toValue entry.2))))
                 ers'.*1)).
  split.
  - rewrite (toValue_map t _ (reflect.Basic reflect.String)) by assumption.
    rewrite constructStructLoop_converted by exact Hconv. reflexivity.
  - rewrite parseElement_struct by reflexivity.
    unfold parseStruct, parseStructWith.
    rewrite (FindElements_members
               (fun entry => newMember (reflect.StringOf entry.1)
                                       (converted (toValue entry.2))))
      by reflexivity.
    rewrite (parseStructLoop_ok _ (entryPair <$> ers')); [|exact Hdec|exact Hnd'|].
    2:{ intros k _. apply lookup_empty. }
    rewrite insertAll_size; [|exact Hnd'|intros k _; apply lookup_empty].
    rewrite map_size_empty, length_fmap. simpl.
    destruct ers' as [|er ers'].
    + apply Permutation_nil_r in Hperm. congruence.
    + simpl. f_equal. f_equal.
      exact (insertAll_list_to_map (entryPair <$> er :: ers') Hnd').
Qed.

(** ** The request document *)

Lemma preparePayloadLoop_converted (args : list reflect.Value)
    (ws : list Element) :
  Forall2 (fun arg w => toValue arg = Return w) args ws ->
  forall methodName params,
    preparePayloadLoop args (payloadOf methodName params)
    = Return (payloadOf methodName (params ++ map paramToken ws)).
Proof.
  induction 1 as [|arg w args ws Harg _ IH]; intros methodName params; simpl.
  - now rewrite app_nil_r.
  - rewrite Harg.
    change (preparePayloadLoop args
              (payloadOf methodName (params ++ [paramToken w]))
            = Return (payloadOf methodName
                        (params ++ paramToken w :: map paramToken ws))).
    rewrite IH, <- app_assoc. reflexivity.
Qed.

(** X7.  When every argument is converted, [preparePayload] returns the
    document with the method name and one parameter per argument, in the
    order of the arguments, each holding the element of its argument in
    a value element. *)
Theorem preparePayload_document (methodName : string)
    (args : list reflect.Value) (ws : list Element) :
  Forall2 (fun arg w => toValue arg = Return w) args ws ->
  preparePayload methodName args
  = Return (payloadOf methodName (map paramToken ws)) /\
  Text <$> FindElement "methodCall/methodName"
             (payloadOf methodName (map paramToken ws)) = Some methodName /\
  FindElements "methodCall/params/param/value"
    (payloadOf methodName (map paramToken ws)) = map wrapToValue ws.
Proof.
  intros Hall. split; [|split; [reflexivity|]].
  - exact (preparePayloadLoop_converted args ws Hall methodName []).
  - apply FindElements_params.
Qed.

(** ** What the encoder never does *)

Lemma constructArrayLoop_Panic (elems : list reflect.Value) :
  forall values reason,
    constructArrayLoop toValue elems (arrayOf values) = Panic reason ->
    exists x, In x elems /\ toValue x = Panic reason.
Proof.
  induction elems as [|x elems IH]; intros values reason H; [discriminate|].
  rewrite constructArrayLoop_cons in H.
  destruct (toValue x) as [w| |reason'] eqn:Hx; try discriminate.
  - rewrite addValue_arrayOf in H. apply IH in H.
    destruct H as (x' & Hin & Hx'). exists x'. split; [now right|exact Hx'].
  - injection H as <-. exists x. split; [now left|exact Hx].
Qed.

Lemma constructStructLoop_Panic (keyType : reflect.Type_)
    (entries : list (reflect.Value * reflect.Value)) :
  forall s reason,
    constructStructLoop toValue keyType entries s = Panic reason ->
    reason = "reflect.Value.MapIndex: value of type string is not assignable" \/
    exists entry, In entry entries /\ toValue entry.2 = Panic reason.
Proof.
  induction entries as [|[k x] entries IH]; intros s reason H; simpl in H;
    [discriminate|].
  destruct (negb (reflect.kindEqb (reflect.TypeKind keyType) reflect.String));
    [discriminate|].
  destruct (negb (reflect.typeEqb keyType (reflect.Basic reflect.String)));
    [left; congruence|].
  destruct (toValue x) as [w| |reason'] eqn:Hx; try discriminate.
  - apply IH in H. destruct H as [H|(entry & Hin & Hentry)]; [now left|].
    right. exists entry. split; [now right|exact Hentry].
  - injection H as <-. right. exists (k, x). split; [now left|exact Hx].
Qed.

Lemma toValue_Panic (v : reflect.Value) :
  forall reason, toValue v = Panic reason -> builderPanic reason = false.
Proof.
  induction v as [|t b|t i|t u|t f|t s|tm|t elems IH|t entries IH|t]
    using Value_nested_ind; intros reason; simpl; unfold reflect.KindOf; simpl;
    try (destruct (reflect.TypeKind t) eqn:Hk; simpl;
         repeat match goal with
                | |- context [match reflect.Elem ?t with _ => _ end] =>
                    destruct (reflect.Elem t); simpl
                | |- context [match reflect.Key ?t with _ => _ end] =>
                    destruct (reflect.Key t) eqn:Hkey; simpl
                | |- context [if ?b then _ else _] => destruct b; simpl
                | |- context [match bytesOf ?l with _ => _ end] =>
                    destruct (bytesOf l); simpl
                | |- context [match ?t with reflect.Basic _ => _ | _ => _ end] =>
                    destruct t; simpl
                | |- context [match ?k with reflect.Uint8 => _ | _ => _ end] =>
                    destruct k; simpl
                end);
    try discriminate; try (intros [= <-]; reflexivity).
  all: intros H.
  all: try (apply (constructArrayLoop_Panic elems []) in H;
            destruct H as (x & Hin & Hx);
            rewrite List.Forall_forall in IH; exact (IH x Hin reason Hx)).
  all: try (apply constructStructLoop_Panic in H;
            destruct H as [->|(entry & Hin & Hentry)]; [reflexivity|];
            rewrite List.Forall_forall in IH; exact (IH entry Hin reason Hentry)).
Qed.

Lemma preparePayloadLoop_Panic (args : list reflect.Value) :
  forall methodName params reason,
    preparePayloadLoop args (payloadOf methodName params) = Panic reason ->
    exists arg, In arg args /\ toValue arg = Panic reason.
Proof.
  induction args as [|arg args IH]; intros methodName params reason H;
    [discriminate|].
  simpl in H. destruct (toValue arg) as [w| |reason'] eqn:Harg; try discriminate.
  - change (preparePayloadLoop args
              (payloadOf methodName (params ++ [paramToken w]))
            = Panic reason) in H.
    apply IH in H. destruct H as (arg' & Hin & Harg').
    exists arg'. split; [now right|exact Harg'].
  - injection H as <-. exists arg. split; [now left|exact Harg].
Qed.

(** X8.  The two panics of payload.go never happen: whatever the arguments,
    [addValue] finds the data element of the array it adds to and
    [addParam] finds the parameter list of the document.  A panic of
    [toValue] or of [preparePayload] is one of reflection or of a type
    assertion. *)
Theorem builder_panics_never_happen :
  (forall v reason, toValue v = Panic reason -> builderPanic reason = false) /\
  (forall methodName args reason,
     preparePayload methodName args = Panic reason ->
     builderPanic reason = false).
Proof.
  split; [exact toValue_Panic|].
  intros methodName args reason H.
  apply (preparePayloadLoop_Panic args methodName []) in H.
  destruct H as (arg & _ & Harg). eapply toValue_Panic. exact Harg.
Qed.

Lemma preparePayloadLoop_Failure (args : list reflect.Value) :
  forall payload err,
    preparePayloadLoop args payload = Failure err ->
    exists arg cause,
      In arg args /\ toValue arg = Failure cause /\
      err = Wrap cause "method arguments parsing failed".
Proof.
  induction args as [|arg args IH]; intros payload err H; [discriminate|].
  simpl in H. destruct (toValue arg) as [w|cause|] eqn:Harg; try discriminate.
  - unfold addParam in H.
    destruct (FindElement (enMethodCall +:+ "/" +:+ enParams) payload);
      [|discriminate].
    apply IH in H. destruct H as (arg' & cause & Hin & Harg' & ->).
    exists arg', cause. split; [now right|]. split; [exact Harg'|reflexivity].
  - injection H as <-. exists arg, cause.
    split; [now left|]. split; [exact Harg|reflexivity].
Qed.

(** X9.  When [preparePayload] returns an error, an argument was refused with
    the invalid-type error of some kind, and the error is that error
    under the message of [preparePayload]: its text is the message, a
    colon, and "invalid type" with the name of the kind. *)
Theorem preparePayload_errors (methodName : string)
    (args : list reflect.Value) (err : error) :
  preparePayload methodName args = Failure err ->
  exists arg k,
    In arg args /\ toValue arg = Failure (InvalidArgumentType k) /\
    err = Wrap (InvalidArgumentType k) "method arguments parsing failed" /\
    Error err
    = "method arguments parsing failed: invalid type " +:+ reflect.KindString k.
Proof.
  intros H. apply preparePayloadLoop_Failure in H.
  destruct H as (arg & cause & Hin & Harg & ->).
  destruct (toValue_Failure arg cause Harg) as (k & ->).
  exists arg, k. repeat split; assumption.
Qed.

(** ** The key type of a map *)

(** X10.  A map without entries is converted to the empty struct element
    whatever the type of its keys, and the decoder refuses that element.
    With at least one entry, a map whose key type is not of kind
    [String] is refused with the invalid-type error of kind [Map]; a map
    whose key type is of kind [String] without being [string] itself
    makes [MapIndex] panic. *)
Theorem maps_by_key_type (t keyType : reflect.Type_)
    (entries : list (reflect.Value * reflect.Value)) :
  reflect.TypeKind t = reflect.Map -> reflect.Key t = Some keyType ->
  (entries = [] ->
     toValue (reflect.VMap t entries) = Return newStruct /\
     parseElement newStruct = Err EmptyStructNotAllowed) /\
  (entries <> [] -> reflect.TypeKind keyType <> reflect.String ->
     toValue (reflect.VMap t entries)
     = Failure (InvalidArgumentType reflect.Map)) /\
  (entries <> [] -> reflect.TypeKind keyType = reflect.String ->
     keyType <> reflect.Basic reflect.String ->
     toValue (reflect.VMap t entries)
     = Panic "reflect.Value.MapIndex: value of type string is not assignable").
Proof.
  intros Hk Hkey. rewrite (toValue_map t entries keyType) by assumption.
  split; [|split].
  - intros ->. split; reflexivity.
  - intros Hsome Hkind. destruct entries as [|[k x] entries]; [congruence|].
    simpl. destruct (reflect.TypeKind keyType); try reflexivity. congruence.
  - intros Hsome Hkind Hne. destruct entries as [|[k x] entries]; [congruence|].
    simpl. rewrite Hkind. simpl.
    destruct keyType as [[]| | | | | | | |]; simpl in *;
      try discriminate; try reflexivity.
    congruence.
Qed.

(** * The client *)

(** ** errors.go *)

Section ErrorsGo.

Variable Temporary : string -> option bool.

Variable Timeout : string -> option bool.

Lemma decodeError_Cause (err : error) :
  decodeError err ->
  (exists msg, Cause err = Errorf msg) \/
  (exists origin, In origin conversionOrigins /\ Cause err = External origin).
Proof.
  destruct 1; simpl; eauto; right; eexists; (split; [|reflexivity]);
    simpl; tauto.
Qed.

(** X11.  No error of the codec is temporary or a timeout for [IsTemporary]
    and [IsTimeout]: not the errors of decoding a parsed response, not
    the errors of [preparePayload].  What this takes from the standard
    library is that the errors of its five conversions have neither a
    [Temporary] nor a [Timeout] method. *)
Theorem codec_errors_are_permanent :
  (forall origin, In origin conversionOrigins ->
     Temporary origin = None /\ Timeout origin = None) ->
  (forall doc err,
     parseResponse doc = Err err ->
     IsTemporary Temporary (Some err) = false /\
     IsTimeout Timeout (Some err) = false) /\
  (forall methodName args err,
     preparePayload methodName args = Failure err ->
     IsTemporary Temporary (Some err) = false /\
     IsTimeout Timeout (Some err) = false).
Proof.
  intros Hlib. split.
  - intros doc err H. apply parseResponse_decodeError in H.
    apply decodeError_Cause in H. unfold IsTemporary, IsTimeout. simpl.
    destruct H as [(msg & ->)|(origin & Hin & ->)]; [split; reflexivity|].
    destruct (Hlib origin Hin) as [-> ->]. split; reflexivity.
  - intros methodName args err H. apply preparePayloadLoop_Failure in H.
    destruct H as (arg & cause & _ & Harg & ->).
    destruct (toValue_Failure arg cause Harg) as (k & ->).
    split; reflexivity.
Qed.

End ErrorsGo.

(** ** client.go: one request *)

Section Requests.

Variable World : Type.

Variable LogErrorFunc : option (string -> list reflect.Value -> World -> World).

Variable Context : Type.

Variable urlParse : string -> option error.

Variable Do : Context -> Request -> World -> World * Res Response.

Lemma StatusCode_2xx (code : Z) :
  (Z.quot code 100 =? 2) = true <-> 200 <= code <= 299.
Proof.
  rewrite Z.eqb_eq. split; intros H; Z.to_euclidean_division_equations; lia.
Qed.

(** X12.  [makeRequest] returns the body exactly when the endpoint is a URL,
    the request (a POST to the endpoint with the content type text/xml
    and the content as its body) is answered, the status code of the
    response is between 200 and 299, and the body is read; whether the
    body can be closed plays no part.  Without a logging hook the world
    is left as the request left it; with one, a body that cannot be
    closed is what is logged: the text of the error, handed over as the
    format and without arguments. *)
Theorem makeRequest_returns_the_body_iff (c : Client) (ctx : Context)
    (content : list byte) (w : World) :
  (forall body,
     (makeRequest LogErrorFunc urlParse Do c ctx content w).2 = OK body <->
     urlParse (endpoint c) = None /\
     exists res,
       (Do ctx (mkRequest "POST" (endpoint c) [("Content-Type", "text/xml")]
                  content) w).2 = OK res /\
       200 <= StatusCode res <= 299 /\
       BodyReadAll res = OK body) /\
  (LogErrorFunc = None -> urlParse (endpoint c) = None ->
     (makeRequest LogErrorFunc urlParse Do c ctx content w).1
     = (Do ctx (mkRequest "POST" (endpoint c) [("Content-Type", "text/xml")]
                  content) w).1) /\
  (forall w1 res err,
     urlParse (endpoint c) = None ->
     Do ctx (mkRequest "POST" (endpoint c) [("Content-Type", "text/xml")]
               content) w = (w1, OK res) ->
     BodyClose res = Some err ->
     (makeRequest LogErrorFunc urlParse Do c ctx content w).1
     = logError LogErrorFunc
         ("response body closing failed: " +:+ Error err) [] w1).
Proof.
  unfold makeRequest, NewRequest, HeaderSet. simpl. split; [|split].
  3:{ intros w1 res err -> Hdo Hclose. simpl. rewrite Hdo. simpl.
      now rewrite Hclose. }
  all: unfold logError.
  - intros body. destruct (urlParse (endpoint c)) as [err|]; simpl.
    { split; [discriminate|]. intros [H _]. discriminate. }
    destruct (Do ctx _ w) as [w1 [res|err]]; simpl.
    + destruct (Z.quot (StatusCode res) 100 =? 2) eqn:Hcode; simpl.
      * apply StatusCode_2xx in Hcode.
        destruct (BodyReadAll res) as [b|err] eqn:Hbody.
        -- split.
           ++ intros [= <-]. split; [reflexivity|]. exists res.
              split; [reflexivity|]. split; [exact Hcode|exact Hbody].
           ++ intros (_ & res' & [= <-] & _ & H). congruence.
        -- split; [discriminate|].
           intros (_ & res' & [= <-] & _ & H). congruence.
      * split; [discriminate|]. intros (_ & res' & [= <-] & Hrange & _).
        apply StatusCode_2xx in Hrange. congruence.
    + split; [discriminate|]. intros (_ & res' & H & _). discriminate.
  - intros -> ->. simpl. destruct (Do ctx _ w) as [w1 [res|err]]; simpl;
      [|reflexivity].
    destruct (BodyClose res); reflexivity.
Qed.

(** ** client.go: a call *)

Variable Temporary : string -> option bool.

Variable Timeout : string -> option bool.

Variable WriteTo : Element -> list byte.

Variable ReadFromBytes : list byte -> Res Element.

Lemma preparePayloadLoop_first_panic (before : list reflect.Value)
    (ws : list Element) (arg : reflect.Value) (after : list reflect.Value)
    (reason : string) :
  Forall2 (fun v w => toValue v = Return w) before ws ->
  toValue arg = Panic reason ->
  forall methodName params,
    preparePayloadLoop (before ++ arg :: after) (payloadOf methodName params)
    = Panic reason.
Proof.
  intros Hall Harg. induction Hall as [|v w before ws Hv _ IH];
    intros methodName params; simpl.
  - now rewrite Harg.
  - rewrite Hv. apply (IH methodName (params ++ [paramToken w])%list).
Qed.

(** X13.  When the first argument that is not converted is refused, [Call]
    returns before any request is made: the world is as it was, and the
    error is the invalid-type error under the messages of
    [preparePayload] and of [Call].  When its conversion panics, so does
    [Call], before any request as well. *)
Theorem Call_refuses_before_the_request (c : Client) (ctx : Context)
    (methodName : string) (before : list reflect.Value) (ws : list Element)
    (arg : reflect.Value) (after : list reflect.Value) (w : World) :
  Forall2 (fun v value => toValue v = Return value) before ws ->
  (forall k,
     toValue arg = Failure (InvalidArgumentType k) ->
     Call LogErrorFunc urlParse Do WriteTo ReadFromBytes c ctx methodName
       (before ++ arg :: after) w
     = (w, Failure (Wrap (Wrap (InvalidArgumentType k)
                            "method arguments parsing failed")
                      "payload preparation failed")) /\
     Error (Wrap (Wrap (InvalidArgumentType k) "method arguments parsing failed")
              "payload preparation failed")
     = "payload preparation failed: method arguments parsing failed: invalid type "
       +:+ reflect.KindString k) /\
  (forall reason,
     toValue arg = Panic reason ->
     Call LogErrorFunc urlParse Do WriteTo ReadFromBytes c ctx methodName
       (before ++ arg :: after) w
     = (w, Panic reason)).
Proof.
  intros Hall. split.
  - intros k Harg. split; [|reflexivity].
    unfold Call, preparePayload.
    change (newPayload methodName) with (payloadOf methodName []).
    unfold payloadOf.
    now rewrite (preparePayloadLoop_first_failure before ws arg after
                   (InvalidArgumentType k) Hall Harg methodName []).
  - intros reason Harg. unfold Call, preparePayload.
    change (newPayload methodName) with (payloadOf methodName []).
    now rewrite (preparePayloadLoop_first_panic before ws arg after reason
                   Hall Harg methodName []).
Qed.

(** X14.  When the request is not answered, the error of [Call] is the error
    of the network under two messages; [errors.Cause], [IsTemporary] and
    [IsTimeout] see the error of the network through them. *)
Theorem Call_reports_the_network_error (c : Client) (ctx : Context)
    (methodName : string) (args : list reflect.Value) (payload : Element)
    (w w1 : World) (err : error) :
  preparePayload methodName args = Return payload ->
  urlParse (endpoint c) = None ->
  Do ctx (mkRequest "POST" (endpoint c) [("Content-Type", "text/xml")]
            (WriteTo payload)) w = (w1, Err err) ->
  exists err',
    Call LogErrorFunc urlParse Do WriteTo ReadFromBytes c ctx methodName args w
    = (w1, Failure err') /\
    err' = Wrap (Wrap err "connection error") "request failed" /\
    Cause err' = Cause err /\
    IsTemporary Temporary (Some err') = IsTemporary Temporary (Some err) /\
    IsTimeout Timeout (Some err') = IsTimeout Timeout (Some err).
Proof.
  intros Hpayload Hurl Hdo. eexists. split; [|repeat split].
  unfold Call, makeRequest, NewRequest, HeaderSet. rewrite Hpayload, Hurl. simpl.
  rewrite Hdo. reflexivity.
Qed.

(** X15.  When the request is answered with a status code between 200 and 299
    and a body that is read and parsed, [Call] returns what
    [parseResponse] makes of the parsed body, an error under the message
    of [parseResult]; the cause of the error of a fault response is the
    fault with its code and its message. *)
Theorem Call_decodes_the_answer (c : Client) (ctx : Context)
    (methodName : string) (args : list reflect.Value) (payload : Element)
    (w w1 : World) (res : Response) (body : list byte) (doc : Element) :
  preparePayload methodName args = Return payload ->
  urlParse (endpoint c) = None ->
  Do ctx (mkRequest "POST" (endpoint c) [("Content-Type", "text/xml")]
            (WriteTo payload)) w = (w1, OK res) ->
  200 <= StatusCode res <= 299 ->
  BodyReadAll res = OK body ->
  ReadFromBytes body = OK doc ->
  (forall r,
     parseResponse doc = OK r ->
     (Call LogErrorFunc urlParse Do WriteTo ReadFromBytes c ctx methodName
        args w).2 = Return r) /\
  (forall err,
     parseResponse doc = Err err ->
     (Call LogErrorFunc urlParse Do WriteTo ReadFromBytes c ctx methodName
        args w).2 = Failure (Wrap err "cannot parse XML RPC response") /\
     Cause (Wrap err "cannot parse XML RPC response") = Cause err) /\
  (forall fault code message,
     FindElement methodResponseValuePath doc = None ->
     FindElement methodResponseFaultPath doc = Some fault ->
     parseFault fault = Err (RemoteFault code message) ->
     exists err,
       (Call LogErrorFunc urlParse Do WriteTo ReadFromBytes c ctx methodName
          args w).2 = Failure err /\
       Cause err = RemoteFault code message /\
       Error err
       = "cannot parse XML RPC response: XML RPC error: " +:+ code +:+ ": "
         +:+ message).
Proof.
  intros Hpayload Hurl Hdo Hcode Hbody Hdoc.
  assert (Hcall :
            (Call LogErrorFunc urlParse Do WriteTo ReadFromBytes c ctx
               methodName args w).2
            = match parseResponse doc with
              | Err err => Failure (Wrap err "cannot parse XML RPC response")
              | OK r => Return r
              end).
  { unfold Call, makeRequest, NewRequest, HeaderSet.
    rewrite Hpayload, Hurl. simpl. rewrite Hdo. simpl.
    apply StatusCode_2xx in Hcode. rewrite Hcode, Hbody. simpl.
    unfold parseResult, constructXML. rewrite Hdoc.
    destruct (parseResponse doc); reflexivity. }
  split; [|split].
  - intros r Hr. now rewrite Hcall, Hr.
  - intros err Herr. now rewrite Hcall, Herr.
  - intros fault code message Hvalue Hfault Hparse.
    assert (Hr : parseResponse doc = Err (RemoteFault code message)).
    { unfold parseResponse. now rewrite Hvalue, Hfault. }
    eexists. rewrite Hcall, Hr. repeat split.
Qed.

End Requests.

(** * What the decoder reads of a tree *)

Lemma sameElements_Tag (e e' : Element) : sameElements e e' -> Tag e = Tag e'.
Proof. now destruct 1. Qed.

Lemma sameElements_Text (e e' : Element) :
  sameElements e e' -> readsText (Tag e) = true -> Text e = Text e'.
Proof. destruct 1; auto. Qed.

Lemma traverse_Tag (segments : list string) :
  forall nodes x,
    segments <> [] -> In x (traverse segments nodes) ->
    Tag x = List.last segments "".
Proof.
  induction segments as [|seg remain IH]; intros nodes x Hsome Hx; [congruence|].
  destruct remain as [|seg2 remain].
  - simpl in Hx. apply in_flat_map in Hx. destruct Hx as (n & _ & Hx).
    now apply selectChildrenByTag_In in Hx.
  - apply (IH (flat_map (selectChildrenByTag seg) nodes) x); [discriminate|exact Hx].
Qed.

Lemma FindElement_Tag (path : string) (e x : Element) :
  FindElement path e = Some x -> Tag x = List.last (splitPath path) "".
Proof.
  unfold FindElement, FindElements. intros H.
  apply (traverse_Tag (splitPath path) [e]).
  - pose proof (splitPath_length path). destruct (splitPath path); simpl in *;
      [lia|discriminate].
  - destruct (traverse (splitPath path) [e]); simpl in H; [discriminate|].
    injection H as ->. now left.
Qed.


Lemma sameElements_ChildElements (e e' : Element) :
  sameElements e e' -> Forall2 sameElements (ChildElements e) (ChildElements e').
Proof. now destruct 1. Qed.

Lemma sameElements_filter (tag : string) (l l' : list Element) :
  Forall2 sameElements l l' ->
  Forall2 sameElements (List.filter (fun c => String.eqb (Tag c) tag) l)
                       (List.filter (fun c => String.eqb (Tag c) tag) l').
Proof.
  induction 1 as [|c c' l l' Hc _ IH]; simpl; [constructor|].
  rewrite <- (sameElements_Tag c c' Hc).
  destruct (String.eqb (Tag c) tag); [constructor; assumption|exact IH].
Qed.

Lemma sameElements_traverse (segments : list string) :
  forall nodes nodes',
    Forall2 sameElements nodes nodes' ->
    Forall2 sameElements (traverse segments nodes) (traverse segments nodes').
Proof.
  induction segments as [|seg remain IH]; simpl; intros nodes nodes' H;
    [exact H|].
  apply IH. induction H as [|n n' nodes nodes' Hn _ IHnodes]; simpl;
    [constructor|].
  apply Forall2_app; [|exact IHnodes].
  apply sameElements_filter. now apply sameElements_ChildElements.
Qed.

Lemma sameElements_FindElements (path : string) (e e' : Element) :
  sameElements e e' ->
  Forall2 sameElements (FindElements path e) (FindElements path e').
Proof.
  intros H. apply sameElements_traverse. constructor; [exact H|constructor].
Qed.

Lemma sameElements_FindElement (path : string) (e e' : Element) :
  sameElements e e' -> sameFound (FindElement path e) (FindElement path e').
Proof.
  intros H. apply (sameElements_FindElements path) in H. unfold FindElement.
  destruct H; simpl; [exact I|assumption].
Qed.

Lemma sameFound_sameText (path : string) (e e' : Element) :
  readsText (List.last (splitPath path) "") = true ->
  sameElements e e' ->
  sameFound (FindElement path e) (FindElement path e') /\
  sameText (FindElement path e) (FindElement path e').
Proof.
  intros Hreads H.
  pose proof (sameElements_FindElement path e e' H) as Hfound.
  split; [exact Hfound|].
  destruct (FindElement path e) as [x|] eqn:Hx;
    destruct (FindElement path e') as [y|]; simpl in *; try contradiction;
    [|exact I].
  apply sameElements_Text; [exact Hfound|].
  now rewrite (FindElement_Tag path e x Hx).
Qed.

Lemma parseArrayLoop_sameElements (elements elements' : list Element) :
  Forall2 sameElements elements elements' ->
  (forall el c c', In el elements -> In c (ChildElements el) ->
                   sameElements c c' -> parseElement c = parseElement c') ->
  forall acc,
    parseArrayLoop parseElement elements acc
    = parseArrayLoop parseElement elements' acc.
Proof.
  induction 1 as [|el el' elements elements' Hel _ IH]; intros Hsame acc; simpl;
    [reflexivity|].
  pose proof (sameElements_ChildElements el el' Hel) as Hch.
  specialize (Hsame el) as Hel_same.
  destruct (ChildElements el) as [|c [|c2 cs]];
    destruct (ChildElements el') as [|c' [|c2' cs']];
    try reflexivity;
    try (inversion Hch as [|? ? ? ? ? Hrest]; subst; inversion Hrest; fail).
  inversion Hch as [|? ? ? ? Hc _]; subst.
  rewrite <- (Hel_same c c'); [|now left|now left|exact Hc].
  destruct (parseElement c); [|reflexivity].
  apply IH. intros el0 c0 c0' Hin. apply Hsame. now right.
Qed.

Lemma parseStructLoop_sameElements (members members' : list Element) :
  Forall2 sameElements members members' ->
  (forall m v c c', In m members ->
                    FindElement structMemberValueTag m = Some v ->
                    In c (ChildElements v) ->
                    sameElements c c' -> parseElement c = parseElement c') ->
  forall acc : gmap string Result,
    parseStructLoop parseElement members acc
    = parseStructLoop parseElement members' acc.
Proof.
  induction 1 as [|m m' members members' Hm _ IH]; intros Hsame acc; simpl;
    [reflexivity|].
  pose proof (sameElements_FindElement structMemberNameTag m m' Hm) as Hname.
  pose proof (sameElements_FindElement structMemberValueTag m m' Hm) as Hvalue.
  specialize (Hsame m) as Hm_same.
  destruct (FindElement structMemberNameTag m) as [name|] eqn:Hfind;
    destruct (FindElement structMemberNameTag m') as [name'|];
    simpl in Hname; try contradiction; [|reflexivity].
  destruct (FindElement structMemberValueTag m) as [value|];
    destruct (FindElement structMemberValueTag m') as [value'|];
    simpl in Hvalue; try contradiction; [|reflexivity].
  rewrite <- (sameElements_Text name name' Hname)
    by now rewrite (FindElement_Tag _ _ _ Hfind).
  destruct (acc !! Text name); [reflexivity|].
  pose proof (sameElements_ChildElements value value' Hvalue) as Hch.
  specialize (Hm_same value) as Hv_same.
  destruct (ChildElements value) as [|c [|c2 cs]];
    destruct (ChildElements value') as [|c' [|c2' cs']];
    try reflexivity;
    try (inversion Hch as [|? ? ? ? ? Hrest]; subst; inversion Hrest; fail).
  inversion Hch as [|? ? ? ? Hc _]; subst.
  rewrite <- (Hv_same c c'); [|now left|reflexivity|now left|exact Hc].
  destruct (parseElement c); [|reflexivity].
  apply IH. intros m0 v0 c0 c0' Hin. apply Hsame. now right.
Qed.

Lemma parseElement_sameElements (n : nat) :
  forall e e',
    (height e <= n)%nat -> sameElements e e' -> parseElement e = parseElement e'.
Proof.
  induction n as [|n IH]; intros e e' Hh Hsame.
  - rewrite height_eq in Hh. lia.
  - rewrite (parseElement_eq e), (parseElement_eq e').
    unfold parseElementWith, parseArrayWith, parseStructWith.
    rewrite <- (sameElements_Tag e e' Hsame).
    assert (Htext : readsText (Tag e) = false \/ Text e = Text e').
    { destruct (readsText (Tag e)) eqn:Hreads; [right|now left].
      now apply sameElements_Text. }
    destruct Htext as [Hreads| <-].
    { unfold readsText in Hreads. simpl in Hreads.
      repeat (apply orb_false_elim in Hreads; destruct Hreads as [? Hreads]).
      repeat match goal with H : String.eqb _ _ = false |- _ => rewrite H; clear H end.
      simpl.
      rewrite <- (parseArrayLoop_sameElements
                    (FindElements arrayValuePath e) (FindElements arrayValuePath e')).
      - rewrite <- (parseStructLoop_sameElements
                      (FindElements structMemberPath e)
                      (FindElements structMemberPath e')).
        + reflexivity.
        + now apply sameElements_FindElements.
        + intros m v c c' Hm Hv Hc. apply IH.
          apply FindElements_height in Hm. apply FindElement_height in Hv.
          apply ChildElements_height in Hc. lia.
      - now apply sameElements_FindElements.
      - intros el c c' Hel Hc. apply IH.
        apply FindElements_height in Hel. apply ChildElements_height in Hc. lia. }
    rewrite <- (parseArrayLoop_sameElements
                  (FindElements arrayValuePath e) (FindElements arrayValuePath e')).
    + rewrite <- (parseStructLoop_sameElements
                    (FindElements structMemberPath e)
                    (FindElements structMemberPath e')).
      * reflexivity.
      * now apply sameElements_FindElements.
      * intros m v c c' Hm Hv Hc. apply IH.
        apply FindElements_height in Hm. apply FindElement_height in Hv.
        apply ChildElements_height in Hc. lia.
    + now apply sameElements_FindElements.
    + intros el c c' Hel Hc. apply IH.
      apply FindElements_height in Hel. apply ChildElements_height in Hc. lia.
Qed.

Lemma parseValue_sameElements (e e' : Element) :
  sameElements e e' -> parseValue e = parseValue e'.
Proof.
  intros H. apply sameElements_ChildElements in H. unfold parseValue.
  destruct H as [|c c' cs cs' Hc Hcs]; [reflexivity|].
  destruct Hcs; [|reflexivity].
  apply (parseElement_sameElements (height c)); [lia|exact Hc].
Qed.

Lemma parseFaultLoop_sameElements (members members' : list Element) :
  Forall2 sameElements members members' ->
  forall code code' msg msg',
    sameText code code' -> sameText msg msg' ->
    sameText (parseFaultLoop members code msg).1
             (parseFaultLoop members' code' msg').1 /\
    sameText (parseFaultLoop members code msg).2
             (parseFaultLoop members' code' msg').2.
Proof.
  induction 1 as [|m m' members members' Hm _ IH];
    intros code code' msg msg' Hcode Hmsg; simpl; [split; assumption|].
  destruct (sameFound_sameText faultMemberNameTag m m' eq_refl Hm)
    as [_ Hname].
  destruct (FindElement faultMemberNameTag m) as [name|];
    destruct (FindElement faultMemberNameTag m') as [name'|];
    simpl in Hname; try contradiction; [|split; assumption].
  rewrite <- Hname.
  apply IH.
  - destruct (String.eqb (Text name) faultCodeName); [|exact Hcode].
    destruct (sameFound_sameText faultMemberValueIntPath m m' eq_refl Hm)
      as [_ Hint].
    destruct (sameFound_sameText faultMemberValueI4Path m m' eq_refl Hm)
      as [_ Hi4].
    destruct (FindElement faultMemberValueIntPath m);
      destruct (FindElement faultMemberValueIntPath m');
      simpl in Hint; try contradiction; assumption.
  - destruct (String.eqb (Text name) faultStringName); [|exact Hmsg].
    now apply sameFound_sameText.
Qed.

Lemma parseFault_sameElements (e e' : Element) :
  sameElements e e' -> parseFault e = parseFault e'.
Proof.
  intros H. apply (sameElements_FindElements faultMembersPath) in H.
  unfold parseFault. rewrite <- (Forall2_length _ _ _ H).
  destruct (negb (length (FindElements faultMembersPath e) =? 2)%nat);
    [reflexivity|].
  destruct (parseFaultLoop_sameElements _ _ H None None None None I I)
    as [Hcode Hmsg].
  destruct (parseFaultLoop (FindElements faultMembersPath e) None None)
    as [[code|] [msg|]];
    destruct (parseFaultLoop (FindElements faultMembersPath e') None None)
    as [[code'|] [msg'|]];
    simpl in Hcode, Hmsg; try contradiction; try reflexivity.
  now rewrite Hcode, Hmsg.
Qed.

(** X16.  The decoder reads the tags and the child elements of a tree, the
    leading text of scalars and names, and nothing else: two documents
    with the same elements are decoded to the same result or to the same
    error.  Comments, processing instructions and the character data
    around the elements of an indented document play no part. *)
Theorem decoder_reads_elements_only (doc doc' : Element) :
  sameElements doc doc' -> parseResponse doc = parseResponse doc'.
Proof.
  intros H. unfold parseResponse.
  pose proof (sameElements_FindElement methodResponseValuePath doc doc' H)
    as Hvalue.
  pose proof (sameElements_FindElement methodResponseFaultPath doc doc' H)
    as Hfault.
  destruct (FindElement methodResponseValuePath doc) as [value|];
    destruct (FindElement methodResponseValuePath doc') as [value'|];
    simpl in Hvalue; try contradiction;
    destruct (FindElement methodResponseFaultPath doc) as [fault|];
    destruct (FindElement methodResponseFaultPath doc') as [fault'|];
    simpl in Hfault; try contradiction; try reflexivity.
  - now apply parseValue_sameElements.
  - now apply parseFault_sameElements.
Qed.

(** * The decoder on what the encoder builds *)

Lemma parseArrayLoop_values (parse : Element -> Res Result) (ws : list Element) :
  forall acc err,
    parseArrayLoop parse (map wrapToValue ws) acc = Err err ->
    exists w, In w ws /\ parse w = Err err.
Proof.
  induction ws as [|w ws IH]; simpl; intros acc err H; [discriminate|].
  destruct (parse w) as [r|err'] eqn:Hw.
  - apply IH in H. destruct H as (w' & Hin & Hw'). exists w'. auto.
  - injection H as <-. exists w. auto.
Qed.

Lemma parseStructLoop_members {A} (parse : Element -> Res Result)
    (name : A -> string) (value : A -> Element) (l : list A) :
  forall (acc : gmap string Result) err,
    parseStructLoop parse (map (fun a => newMember (name a) (value a)) l) acc
    = Err err ->
    (exists n, err = DuplicateMemberName n) \/
    exists a, In a l /\ parse (value a) = Err err.
Proof.
  induction l as [|a l IH]; intros acc err H; [discriminate|].
  cbn [map] in H.
  change (match acc !! name a with
          | Some _ => Err (DuplicateMemberName (name a))
          | None =>
              match parse (value a) with
              | Err err => Err err
              | OK ret =>
                  parseStructLoop parse
                    (map (fun a => newMember (name a) (value a)) l)
                    (<[name a := ret]> acc)
              end
          end = Err err) in H.
  destruct (acc !! name a); [left; injection H as <-; eauto|].
  destruct (parse (value a)) as [r|err'] eqn:Hw.
  - apply IH in H. destruct H as [H|(p & Hin & Hp)]; [now left|].
    right. exists p. split; [now right|exact Hp].
  - injection H as <-. right. exists a. split; [now left|exact Hw].
Qed.

Lemma Forall_converted {A} (f : A -> reflect.Value) (l : list A) :
  Forall (fun a => exists w, toValue (f a) = Return w) l ->
  Forall2 (fun a w => toValue (f a) = Return w) l
          (map (fun a => converted (toValue (f a))) l).
Proof.
  induction 1 as [|a l (w & Hw) _ IH]; simpl; constructor; [|exact IH].
  now rewrite Hw.
Qed.

Lemma constructArrayLoop_decoded (elems : list reflect.Value) (w : Element)
    (err : error) :
  Forall (fun x => forall w err,
            toValue x = Return w -> parseElement w = Err err ->
            encoderObjection err) elems ->
  constructArrayLoop toValue elems newArray = Return w ->
  parseElement w = Err err -> encoderObjection err.
Proof.
  intros IH Hw Herr.
  pose proof (constructArrayLoop_Return _ _ _ Hw) as Hall.
  pose proof (Forall_converted (fun x => x) elems Hall) as Hconv.
  change newArray with (arrayOf []) in Hw.
  rewrite (constructArrayLoop_converted _ _ Hconv []) in Hw.
  injection Hw as <-. simpl in Herr.
  rewrite parseElement_array in Herr by reflexivity.
  unfold parseArray, parseArrayWith in Herr.
  rewrite FindElements_arrayOf in Herr.
  destruct (parseArrayLoop parseElement _ []) as [rs|err'] eqn:Hloop.
  - destruct (length rs =? 0)%nat; [|discriminate].
    injection Herr as <-. constructor.
  - injection Herr as <-. apply parseArrayLoop_values in Hloop.
    destruct Hloop as (w' & Hin & Hw').
    apply in_map_iff in Hin. destruct Hin as (x & <- & Hx).
    rewrite List.Forall_forall in IH. rewrite List.Forall_forall in Hall.
    destruct (Hall x Hx) as (w & Hxw). rewrite Hxw in Hw'. simpl in Hw'.
    exact (IH x Hx w err' Hxw Hw').
Qed.

Lemma constructStructLoop_decoded (keyType : reflect.Type_)
    (entries : list (reflect.Value * reflect.Value)) (w : Element) (err : error) :
  Forall (fun entry => forall w err,
            toValue entry.2 = Return w -> parseElement w = Err err ->
            encoderObjection err) entries ->
  constructStructLoop toValue keyType entries newStruct = Return w ->
  parseElement w = Err err -> encoderObjection err.
Proof.
  intros IH Hw Herr.
  destruct (constructStructLoop_Return _ _ _ _ Hw) as [Hall [->| ->]].
  - simpl in Hw. injection Hw as <-.
    rewrite parseElement_struct in Herr by reflexivity.
    injection Herr as <-. constructor.
  - rewrite constructStructLoop_converted in Hw by exact Hall.
    injection Hw as <-. simpl in Herr.
    rewrite parseElement_struct in Herr by reflexivity.
    unfold parseStruct, parseStructWith, memberToken in Herr.
    rewrite (FindElements_members
               (fun entry : reflect.Value * reflect.Value =>
                  newMember (reflect.StringOf entry.1)
                            (converted (toValue entry.2)))) in Herr
      by reflexivity.
    destruct (parseStructLoop parseElement _ ∅) as [rs|err'] eqn:Hloop.
    + destruct (size rs =? 0)%nat; [|discriminate].
      injection Herr as <-. constructor.
    + injection Herr as <-.
      apply (parseStructLoop_members parseElement
               (fun entry : reflect.Value * reflect.Value =>
                  reflect.StringOf entry.1)
               (fun entry : reflect.Value * reflect.Value =>
                  converted (toValue entry.2))) in Hloop.
      destruct Hloop as [(n & ->)|(entry & Hin & Hentry)]; [constructor|].
      rewrite List.Forall_forall in IH. rewrite List.Forall_forall in Hall.
      destruct (Hall entry Hin) as (w & Hw). rewrite Hw in Hentry. simpl in Hentry.
      exact (IH entry Hin w err' Hw Hentry).
Qed.

Lemma toValue_decoded (v : reflect.Value) :
  forall w err,
    toValue v = Return w -> parseElement w = Err err -> encoderObjection err.
Proof.
  induction v as [|t b|t i|t u|t f|t s|tm|t elems IH|t entries IH|t]
    using Value_nested_ind; intros w err; simpl; unfold reflect.KindOf; simpl;
    try (destruct (reflect.TypeKind t) eqn:Hk; simpl;
         repeat match goal with
                | |- context [match reflect.Elem ?t with _ => _ end] =>
                    destruct (reflect.Elem t); simpl
                | |- context [match reflect.Key ?t with _ => _ end] =>
                    destruct (reflect.Key t) eqn:Hkey; simpl
                | |- context [if ?b then _ else _] => destruct b; simpl
                | |- context [match bytesOf ?l with _ => _ end] =>
                    destruct (bytesOf l); simpl
                | |- context [match ?t with reflect.Basic _ => _ | _ => _ end] =>
                    destruct t; simpl
                | |- context [match ?k with reflect.Uint8 => _ | _ => _ end] =>
                    destruct k; simpl
                end);
    try discriminate.
  all: try (apply constructArrayLoop_decoded; exact IH).
  all: try (apply constructStructLoop_decoded; exact IH).
  all: intros [= <-].
  all: try (destruct b; unfold newBoolean; rewrite parseElement_newScalar;
            discriminate).
  all: try (unfold newString; rewrite parseElement_newScalar; discriminate).
  all: try (unfold newInt; rewrite parseElement_int_text;
            destruct (Atoi _); [discriminate|intros [= <-]; constructor]).
  all: try (unfold newDouble; rewrite parseElement_double_text;
            destruct (ParseFloat _); [discriminate|intros [= <-]; constructor]).
  all: try (unfold newDateTime; rewrite parseElement_dateTime_text;
            destruct (ParseRFC3339 _); [discriminate|intros [= <-]; constructor]).
  all: try (unfold newBase64;
            rewrite parseElement_base64_text, DecodeString_EncodeToString;
            discriminate).
Qed.

(** X17.  What the encoder builds is never malformed for the decoder.  When
    [toValue] returns an element and [parseElement] does not decode it,
    the error is one of six: the text of an integer, of a double or of a
    date is not read back, an array or a struct is empty, or a name is
    repeated in a struct.  It is never the error of a value element
    without exactly one child, of an unknown tag, of a member without
    name or value, of a boolean or of base64 data. *)
Theorem encoder_output_is_well_formed (v : reflect.Value) (w : Element)
    (err : error) :
  toValue v = Return w -> parseElement w = Err err ->
  encoderObjection err /\
  err <> MalformedValue /\
  (forall tag, err <> UnrecognizedTag tag) /\
  err <> MissingMemberName /\ err <> MissingMemberValue /\
  (forall text, err <> BooleanConversionFailed text) /\
  (forall text, err <> Base64ConversionFailed text).
Proof.
  intros Hw Herr. pose proof (toValue_decoded v w err Hw Herr) as H.
  split; [exact H|].
  destruct H; repeat split; intros; different_messages.
Qed.

(** * Kinds from end to end *)

Lemma parseElement_kind (e : Element) (r : Result) :
  parseElement e = OK r -> kind r = kindOfTag (Tag e).
Proof.
  rewrite parseElement_eq. unfold parseElementWith, kindOfTag.
  repeat match goal with
         | |- context [if ?b then _ else _] => destruct b
         end;
    repeat match goal with
           | |- context [match ?x with Some _ => _ | None => _ end] => destruct x
           | |- context [match ?x with OK _ => _ | Err _ => _ end] => destruct x
           end;
    try discriminate; intros [= <-]; reflexivity.
Qed.

Lemma constructArrayLoop_Tag (elems : list reflect.Value) :
  forall array r,
    constructArrayLoop toValue elems array = Return r -> Tag r = Tag array.
Proof.
  induction elems as [|x elems IH]; intros array r H.
  - now injection H as <-.
  - rewrite constructArrayLoop_cons in H.
    destruct (toValue x) as [w| |]; try discriminate.
    unfold addValue in H. destruct (FindElement enData array); [|discriminate].
    now apply IH in H.
Qed.

Lemma constructStructLoop_Tag (keyType : reflect.Type_)
    (entries : list (reflect.Value * reflect.Value)) :
  forall s r,
    constructStructLoop toValue keyType entries s = Return r -> Tag r = Tag s.
Proof.
  induction entries as [|[k x] entries IH]; intros s r H; simpl in H.
  - now injection H as <-.
  - destruct (negb (reflect.kindEqb (reflect.TypeKind keyType) reflect.String));
      [discriminate|].
    destruct (negb (reflect.typeEqb keyType (reflect.Basic reflect.String)));
      [discriminate|].
    destruct (toValue x) as [w| |]; try discriminate.
    now apply IH in H.
Qed.

Lemma toValue_Tag (v : reflect.Value) (w : Element) :
  toValue v = Return w -> kindOfTag (Tag w) = sentAs v.
Proof.
  unfold sentAs.
  destruct v as [|t b|t i|t u|t f|t s|tm|t elems|t entries|t];
    simpl; unfold reflect.KindOf; simpl;
    try (destruct (reflect.TypeKind t) eqn:Hk; simpl;
         repeat match goal with
                | |- context [match reflect.Elem ?t with _ => _ end] =>
                    destruct (reflect.Elem t); simpl
                | |- context [match reflect.Key ?t with _ => _ end] =>
                    destruct (reflect.Key t) eqn:Hkey; simpl
                | |- context [if ?b then _ else _] => destruct b eqn:?; simpl
                | |- context [match bytesOf ?l with _ => _ end] =>
                    destruct (bytesOf l); simpl
                | |- context [match ?t with reflect.Basic _ => _ | _ => _ end] =>
                    destruct t; simpl
                | |- context [match ?k with reflect.Uint8 => _ | _ => _ end] =>
                    destruct k; simpl
                end);
    try discriminate;
    try (intros [= <-]; try destruct b; reflexivity);
    intros H;
    try (apply constructArrayLoop_Tag in H; now rewrite H);
    try (apply constructStructLoop_Tag in H; now rewrite H).
Qed.

(** X18.  The kind of a result is the kind of the tag of the element it
    was decoded from.  From end to end: when a native value is converted
    and the element is decoded, the kind of the result is given by the
    Go kind of the value: a bool comes back as a boolean, an int of at
    most 32 bits as an int, a float as a double, a string as a string, a
    byte sequence as base64, another array or slice as an array, a map
    as a struct. *)
Theorem kinds_from_end_to_end :
  (forall e r, parseElement e = OK r -> kind r = kindOfTag (Tag e)) /\
  (forall v w r,
     toValue v = Return w -> parseElement w = OK r -> kind r = sentAs v).
Proof.
  split; [exact parseElement_kind|].
  intros v w r Hw Hr.
  rewrite (parseElement_kind w r Hr). now apply toValue_Tag.
Qed.

End Codec.

(** * The theorems at concrete inputs *)



(** C2: the response to pow(2, 9) has the value path only and is decoded
    along it; a response with both paths is not recognized. *)
Lemma parseResponse_exactly_one_path_witness :
  parseResponse zeroParseFloat response512
  = parseValue zeroParseFloat (mkElement "value" [text "int" "512"]) /\
  parseResponse zeroParseFloat responseBoth = Err UnrecognizedResponseShape.
Proof.
  split.
  - apply (parseResponse_exactly_one_path zeroParseFloat response512);
      reflexivity.
  - apply (parseResponse_exactly_one_path zeroParseFloat responseBoth).
    left. split; vm_compute; discriminate.
Defined.

(** C3: the empty [[]int] is converted to an array element that the
    decoder refuses; the array of 1 and 2 is decoded in this order. *)
Lemma empty_array_encoded_not_decoded_witness :
  toValue zeroFormatFloat (reflect.VSeq (reflect.SliceOf goInt) []) = Return newArray /\
  parseElement zeroParseFloat newArray = Err EmptyArrayNotAllowed /\
  parseElement zeroParseFloat arrayOneTwo
  = OK (arrayResult [intResult 1; intResult 2]).
Proof.
  destruct (empty_array_encoded_not_decoded zeroParseFloat zeroFormatFloat)
    as (Hempty & Hrefused & Hdecoded).
  split; [|split].
  - apply (Hempty (reflect.SliceOf goInt)). reflexivity.
  - apply (Hrefused newArray); reflexivity.
  - apply (Hdecoded arrayOneTwo [intResult 1; intResult 2]).
    + reflexivity.
    + vm_compute. discriminate.
    + repeat constructor; eexists; split; reflexivity.
Defined.

(** C4: the struct with members a and b has two entries; the struct
    with two members named a is refused. *)
Lemma parseStruct_members_witness :
  (exists results,
     parseStruct zeroParseFloat structAB = OK results /\
     size results = 2%nat /\
     results !! "a" = Some (intResult 1) /\
     results !! "b" = Some (stringResult "x")) /\
  parseStruct zeroParseFloat structAA = Err (DuplicateMemberName "a").
Proof.
  destruct (parseStruct_members zeroParseFloat) as (_ & Hdup & Hunique & _).
  split.
  - destruct (Hunique structAB [("a", intResult 1); ("b", stringResult "x")])
      as (results & Hok & _ & Hsize & Hget).
    + reflexivity.
    + vm_compute. discriminate.
    + repeat constructor; eexists; (split; [eexists; repeat split|]);
        eexists; split; reflexivity.
    + apply (bool_decide_unpack _). vm_compute. exact I.
    + exists results. repeat split; [exact Hok|exact Hsize|..]; apply Hget;
        repeat constructor.
  - apply (Hdup structAA
             [mkElement "member" [text "name" "a"; elem "value" [text "int" "1"]]]
             [("a", intResult 1)]
             (mkElement "member" [text "name" "a"; elem "value" [text "int" "2"]])
             [] "a" (mkElement "value" [text "int" "2"])).
    + reflexivity.
    + reflexivity.
    + repeat constructor; eexists; (split; [eexists; repeat split|]);
        eexists; split; reflexivity.
    + apply (bool_decide_unpack _). vm_compute. exact I.
    + eexists. repeat split.
    + repeat constructor.
Defined.

(** C4 fails as stated: a struct with one member, of a name of its own,
    with exactly one name child and one value child, is not decoded when
    the value element has no child; a struct in which two members share
    a name fails with another error when the repeated member comes
    without a value element. *)
Lemma struct_member_value_has_to_decode :
  (FindElements structMemberPath structEmptyValue
   = [mkElement "member" [text "name" "a"; elem "value" []]] /\
   length (FindElements structMemberNameTag
             (mkElement "member" [text "name" "a"; elem "value" []])) = 1%nat /\
   length (FindElements structMemberValueTag
             (mkElement "member" [text "name" "a"; elem "value" []])) = 1%nat /\
   parseStruct zeroParseFloat structEmptyValue = Err MalformedValue /\
   parseElement zeroParseFloat structEmptyValue = Err MalformedValue) /\
  (memberName <$> FindElements structMemberPath structARepeatedBare
   = [Some "a"; Some "a"] /\
   parseStruct zeroParseFloat structARepeatedBare = Err MissingMemberValue /\
   parseElement zeroParseFloat structARepeatedBare = Err MissingMemberValue).
Proof. repeat split. Qed.

(** C5: the fault [4, bad args] ends in the remote-fault error. *)
Lemma parseFault_never_a_result_witness :
  parseFault faultBadArgs = Err (RemoteFault "4" "bad args") /\
  parseResponse zeroParseFloat responseFault = Err (RemoteFault "4" "bad args").
Proof.
  destruct (parseFault_never_a_result zeroParseFloat faultBadArgs)
    as (_ & _ & _ & Hfault & _ & Hresponse).
  assert (H : parseFault faultBadArgs = Err (RemoteFault "4" "bad args")).
  { apply (Hfault
             (mkElement "member" [text "name" "faultCode"; elem "value" [text "int" "4"]])
             (mkElement "member" [text "name" "faultString";
                                  elem "value" [text "string" "bad args"]])
             (mkElement "int" [TCharData "4"])
             (mkElement "string" [TCharData "bad args"])).
    - reflexivity.
    - left. reflexivity.
    - right. left. reflexivity.
    - eexists. split; reflexivity.
    - reflexivity.
    - eexists. split; reflexivity.
    - reflexivity. }
  split; [exact H|].
  rewrite (Hresponse responseFault); [exact H|reflexivity..].
Defined.

(** C6: in the array of 1 and an empty value element the second element
    stops decoding with the malformed-value error. *)
Lemma malformed_value_stops_decoding_witness :
  parseValue zeroParseFloat (mkElement "value" []) = Err MalformedValue /\
  parseArray zeroParseFloat arrayOneThenEmpty = Err MalformedValue.
Proof.
  destruct (malformed_value_stops_decoding zeroParseFloat)
    as (Htop & Harray & _).
  split.
  - apply Htop. simpl. lia.
  - apply (Harray arrayOneThenEmpty
             [mkElement "value" [text "int" "1"]] [intResult 1]
             (mkElement "value" []) []).
    + reflexivity.
    + repeat constructor. eexists. split; reflexivity.
    + simpl. lia.
Defined.

(** C6 fails as stated: a value element without a child does not give
    the malformed-value error when something before it fails first, an
    unknown tag in the value element before it in an array, or the
    missing name of its own struct member. *)
Lemma malformed_value_not_the_first_error :
  In (mkElement "value" []) (FindElements arrayValuePath arrayUnknownThenEmpty) /\
  length (ChildElements (mkElement "value" [])) = 0%nat /\
  parseArray zeroParseFloat arrayUnknownThenEmpty = Err (UnrecognizedTag "foo") /\
  FindElement structMemberValueTag (mkElement "member" [elem "value" []])
  = Some (mkElement "value" []) /\
  parseStruct zeroParseFloat structNoName = Err MissingMemberName.
Proof. repeat split. right. left. reflexivity. Qed.

(** C7: the members of the food map follow the enumeration of its
    keys, and the other enumeration gives the same members. *)
Lemma struct_members_follow_enumeration_witness :
  toValue zeroFormatFloat (foodMap donutSteak)
  = Return (mkElement enStruct
              [TElement (newMember "donut" (newInt 10));
               TElement (newMember "steak" (newInt 100))]) /\
  exists s',
    toValue zeroFormatFloat (foodMap steakDonut) = Return s' /\
    Tag s' = enStruct /\
    Permutation [TElement (newMember "donut" (newInt 10));
                 TElement (newMember "steak" (newInt 100))] (Child s').
Proof.
  destruct (struct_members_follow_enumeration zeroFormatFloat) as (Horder & Hperm).
  assert (H : toValue zeroFormatFloat (foodMap donutSteak)
              = Return (mkElement enStruct
                          [TElement (newMember "donut" (newInt 10));
                           TElement (newMember "steak" (newInt 100))])).
  { apply (Horder (reflect.MapOf goString goInt) donutSteak [newInt 10; newInt 100]).
    - split; reflexivity.
    - repeat constructor. }
  split; [exact H|].
  apply (Hperm (reflect.MapOf goString goInt) donutSteak steakDonut _
               (perm_swap _ _ []) H).
Defined.

(** C7 fails as stated: the two enumerations of the keys of one and the
    same map are converted to different trees. *)
Lemma map_enumeration_changes_the_tree :
  Permutation donutSteak steakDonut /\
  toValue zeroFormatFloat (foodMap donutSteak)
  <> toValue zeroFormatFloat (foodMap steakDonut).
Proof. split; [apply perm_swap|vm_compute; discriminate]. Qed.

(** C9: the result of the response to pow(2, 9). *)
Lemma decoded_result_exactly_one_kind_witness :
  parseResponse zeroParseFloat response512 = OK (intResult 512) /\
  exactlyOneKind (intResult 512).
Proof.
  split; [reflexivity|].
  apply (decoded_result_exactly_one_kind zeroParseFloat response512). reflexivity.
Defined.

(** C10: [[]int64{1, 2, 3}] is refused at its first element. *)
Lemma int64_refused_unless_panic_first_witness :
  toValue zeroFormatFloat int64Slice = Failure (InvalidArgumentType reflect.Int64) /\
  preparePayload zeroFormatFloat "get" [int64Slice]
  = Failure (Wrap (InvalidArgumentType reflect.Int64)
                  "method arguments parsing failed").
Proof.
  destruct (int64_refused_unless_panic_first zeroFormatFloat)
    as (Hint & Hseq & _ & Hargs & _).
  assert (H : toValue zeroFormatFloat int64Slice
              = Failure (InvalidArgumentType reflect.Int64)).
  { apply (Hseq (reflect.SliceOf goInt64) [] [] (reflect.VInt goInt64 1)
                [reflect.VInt goInt64 2; reflect.VInt goInt64 3]).
    - reflexivity.
    - constructor.
    - apply Hint. reflexivity. }
  split; [exact H|].
  apply (Hargs "get" [] [] int64Slice []); [constructor|exact H].
Defined.

(** X1: the array of 1 and 2 is decoded: every value element has one child. *)
Lemma parseArray_succeeds_iff_witness :
  parseArray zeroParseFloat arrayOneTwo = OK [intResult 1; intResult 2].
Proof.
  apply (parseArray_succeeds_iff zeroParseFloat arrayOneTwo). split.
  - discriminate.
  - repeat constructor; eexists; split; reflexivity.
Defined.

(** X2: what [parseStruct] returns for the struct with the members a and b
    are the two entries. *)
Lemma parseStruct_succeeds_iff_witness :
  parseStruct zeroParseFloat structAB
  = OK (list_to_map [("a", intResult 1); ("b", stringResult "x")]).
Proof.
  apply (parseStruct_succeeds_iff zeroParseFloat structAB).
  exists [("a", intResult 1); ("b", stringResult "x")].
  split; [discriminate|]. split; [|split; [|reflexivity]].
  - repeat constructor; eexists; (split; [eexists; repeat split|]);
      eexists; split; reflexivity.
  - apply (bool_decide_unpack _). vm_compute. exact I.
Defined.

(** X3: the response with both paths ends with one of the known errors, and
    so does any data that is parsed to it. *)
Lemma decoding_errors_are_known_witness :
  decodeError UnrecognizedResponseShape /\
  exists cause,
    Wrap UnrecognizedResponseShape "cannot parse XML RPC response"
    = Wrap cause "cannot parse XML RPC response" /\
    ((exists doc, parsedAs responseBoth [] = OK doc /\
                  parseResponse zeroParseFloat doc = Err cause /\
                  decodeError cause) \/
     (exists e, parsedAs responseBoth [] = Err e /\
                cause = Wrap e "failed to reconstruct XML DOM")).
Proof.
  destruct (decoding_errors_are_known zeroParseFloat (parsedAs responseBoth))
    as [Hresponse Hresult].
  split.
  - apply (Hresponse responseBoth). reflexivity.
  - apply (Hresult []). reflexivity.
Defined.

(** X4: the fault with the code first and the fault with the message first
    are the same fault. *)
Lemma parseFault_member_order_witness :
  parseFault faultBadArgs = parseFault faultArgsBad.
Proof.
  apply (parseFault_member_order faultBadArgs faultArgsBad
           (mkElement "member" [text "name" "faultCode";
                                elem "value" [text "int" "4"]])
           (mkElement "member" [text "name" "faultString";
                                elem "value" [text "string" "bad args"]]));
    reflexivity.
Defined.

(** X5: [[]int{1, 2}] comes back as the array of 1 and 2. *)
Lemma sequences_come_back_witness :
  echoes zeroParseFloat zeroFormatFloat
    (reflect.VSeq (reflect.SliceOf goInt) [reflect.VInt goInt 1; reflect.VInt goInt 2])
    (arrayResult [intResult 1; intResult 2]).
Proof.
  apply (sequences_come_back zeroParseFloat zeroFormatFloat).
  - reflexivity.
  - discriminate.
  - repeat constructor; eexists; split; reflexivity.
Defined.

(** X6: the food map comes back with its two entries when the keys are
    handed out steak first. *)
Lemma maps_come_back_in_any_order_witness :
  echoes zeroParseFloat zeroFormatFloat (foodMap steakDonut)
    (structResult (list_to_map [("donut", intResult 10); ("steak", intResult 100)])).
Proof.
  apply (maps_come_back_in_any_order zeroParseFloat zeroFormatFloat
           (reflect.MapOf goString goInt) donutSteakResults steakDonutResults).
  - split; reflexivity.
  - discriminate.
  - apply (bool_decide_unpack _). vm_compute. exact I.
  - repeat constructor; eexists; split; reflexivity.
  - apply perm_swap.
Defined.

(** X7: the request document for [pow(2, 9)]. *)
Lemma preparePayload_document_witness :
  preparePayload zeroFormatFloat "pow" [reflect.VInt goInt 2; reflect.VInt goInt 9]
  = Return (payloadOf "pow" [paramToken (newInt 2); paramToken (newInt 9)]) /\
  FindElements "methodCall/params/param/value"
    (payloadOf "pow" [paramToken (newInt 2); paramToken (newInt 9)])
  = [wrapToValue (newInt 2); wrapToValue (newInt 9)].
Proof.
  destruct (preparePayload_document zeroFormatFloat "pow"
              [reflect.VInt goInt 2; reflect.VInt goInt 9] [newInt 2; newInt 9])
    as (Hdoc & _ & Hvalues).
  - repeat constructor.
  - split; [exact Hdoc|exact Hvalues].
Defined.

(** X8: the panic of [[3]byte{1, 2, 3}] is not one of payload.go. *)
Lemma builder_panics_never_happen_witness :
  builderPanic "interface conversion: interface {} is not []uint8" = false.
Proof.
  destruct (builder_panics_never_happen zeroFormatFloat) as [Hvalue _].
  apply (Hvalue byteArray123). reflexivity.
Defined.

(** X9: [[]int64{1, 2, 3}] as an argument: the text of the error. *)
Lemma preparePayload_errors_witness :
  exists arg k,
    In arg [int64Slice] /\
    toValue zeroFormatFloat arg = Failure (InvalidArgumentType k) /\
    Wrap (InvalidArgumentType reflect.Int64) "method arguments parsing failed"
    = Wrap (InvalidArgumentType k) "method arguments parsing failed" /\
    Error (Wrap (InvalidArgumentType reflect.Int64)
             "method arguments parsing failed")
    = "method arguments parsing failed: invalid type " +:+ reflect.KindString k.
Proof.
  apply (preparePayload_errors zeroFormatFloat "m" [int64Slice]). reflexivity.
Defined.

(** X10: [map[int]int{}] is converted, [map[int]int{1: 1}] is refused. *)
Lemma maps_by_key_type_witness :
  toValue zeroFormatFloat (reflect.VMap (reflect.MapOf goInt goInt) [])
  = Return newStruct /\
  toValue zeroFormatFloat
    (reflect.VMap (reflect.MapOf goInt goInt)
       [(reflect.VInt goInt 1, reflect.VInt goInt 1)])
  = Failure (InvalidArgumentType reflect.Map).
Proof.
  split.
  - apply (maps_by_key_type zeroParseFloat zeroFormatFloat
             (reflect.MapOf goInt goInt) goInt []); reflexivity.
  - apply (maps_by_key_type zeroParseFloat zeroFormatFloat
             (reflect.MapOf goInt goInt) goInt
             [(reflect.VInt goInt 1, reflect.VInt goInt 1)]);
      try reflexivity; discriminate.
Defined.

(** X11: the error of the response with both paths is no timeout, also where
    the errors of the network are. *)
Lemma codec_errors_are_permanent_witness :
  IsTemporary netTimeout (Some UnrecognizedResponseShape) = false /\
  IsTimeout netTimeout (Some UnrecognizedResponseShape) = false.
Proof.
  assert (Hlib : forall origin, In origin conversionOrigins ->
                   netTimeout origin = None /\ netTimeout origin = None).
  { intros origin Hin. simpl in Hin.
    repeat (destruct Hin as [<-|Hin]; [split; reflexivity|]). contradiction. }
  destruct (codec_errors_are_permanent zeroParseFloat zeroFormatFloat
              netTimeout netTimeout Hlib) as [Hdecode _].
  apply (Hdecode responseBoth). reflexivity.
Defined.

(** X12: a peer that answers with the status 200: the body is returned, and
    the body that cannot be closed is logged. *)
Lemma makeRequest_returns_the_body_iff_witness :
  (makeRequest (list string) logLine unit anyURL (answering response200)
     (NewClient "http://peer") tt [] []).2 = OK [] /\
  (makeRequest (list string) logLine unit anyURL (answering response200)
     (NewClient "http://peer") tt [] []).1
  = ["POST http://peer"; "response body closing failed: close"].
Proof.
  destruct (makeRequest_returns_the_body_iff (list string) logLine unit anyURL
              (answering response200) (NewClient "http://peer") tt [] [])
    as (Hbody & _ & Hlog).
  split.
  - apply Hbody. split; [reflexivity|]. exists response200.
    split; [reflexivity|]. split; [simpl; lia|reflexivity].
  - apply (Hlog ["POST http://peer"] response200 (External "close"));
      reflexivity.
Defined.

(** X13: a call with an [int64] after an [int]: no request is made. *)
Lemma Call_refuses_before_the_request_witness :
  Call zeroParseFloat zeroFormatFloat (list string) logLine unit anyURL
    (answering response200) noBytes (parsedAs response512)
    (NewClient "http://peer") tt "m"
    [reflect.VInt goInt 1; reflect.VInt goInt64 1] []
  = ([], Failure (Wrap (Wrap (InvalidArgumentType reflect.Int64)
                          "method arguments parsing failed")
                    "payload preparation failed")).
Proof.
  apply (Call_refuses_before_the_request zeroParseFloat zeroFormatFloat
           (list string) logLine unit anyURL (answering response200) noBytes
           (parsedAs response512) (NewClient "http://peer") tt "m"
           [reflect.VInt goInt 1] [newInt 1] (reflect.VInt goInt64 1) [] []).
  - repeat constructor.
  - reflexivity.
Defined.

(** X14: a peer that is not reached: the error of the call is a timeout. *)
Lemma Call_reports_the_network_error_witness :
  exists err',
    Call zeroParseFloat zeroFormatFloat (list string) logLine unit anyURL
      notReached noBytes (parsedAs response512) (NewClient "http://peer") tt
      "pow" [reflect.VInt goInt 2; reflect.VInt goInt 9] []
    = (["POST http://peer"], Failure err') /\
    err' = Wrap (Wrap (External "net: timeout") "connection error")
             "request failed" /\
    Cause err' = Cause (External "net: timeout") /\
    IsTemporary netTimeout (Some err')
    = IsTemporary netTimeout (Some (External "net: timeout")) /\
    IsTimeout netTimeout (Some err')
    = IsTimeout netTimeout (Some (External "net: timeout")).
Proof.
  apply (Call_reports_the_network_error zeroParseFloat zeroFormatFloat
           (list string) logLine unit anyURL notReached netTimeout netTimeout
           noBytes (parsedAs response512) (NewClient "http://peer") tt "pow"
           [reflect.VInt goInt 2; reflect.VInt goInt 9]
           (payloadOf "pow" [paramToken (newInt 2); paramToken (newInt 9)]));
    reflexivity.
Defined.

(** X15: a peer that answers [pow(2, 9)] with 512, and one that answers with
    the fault. *)
Lemma Call_decodes_the_answer_witness :
  (Call zeroParseFloat zeroFormatFloat (list string) logLine unit anyURL
     (answering response200) noBytes (parsedAs response512)
     (NewClient "http://peer") tt
     "pow" [reflect.VInt goInt 2; reflect.VInt goInt 9] []).2
  = Return (intResult 512) /\
  exists err,
    (Call zeroParseFloat zeroFormatFloat (list string) logLine unit anyURL
       (answering response200) noBytes (parsedAs responseFault)
       (NewClient "http://peer") tt
       "pow" [reflect.VInt goInt 2; reflect.VInt goInt 9] []).2
    = Failure err /\
    Cause err = RemoteFault "4" "bad args" /\
    Error err = "cannot parse XML RPC response: XML RPC error: 4: bad args".
Proof.
  split.
  - apply (Call_decodes_the_answer zeroParseFloat zeroFormatFloat
             (list string) logLine unit anyURL (answering response200) noBytes
             (parsedAs response512) (NewClient "http://peer") tt "pow"
             [reflect.VInt goInt 2; reflect.VInt goInt 9]
             (payloadOf "pow" [paramToken (newInt 2); paramToken (newInt 9)])
             [] ["POST http://peer"] response200 [] response512);
      try reflexivity.
    simpl. lia.
  - destruct (Call_decodes_the_answer zeroParseFloat zeroFormatFloat
                (list string) logLine unit anyURL (answering response200)
                noBytes (parsedAs responseFault) (NewClient "http://peer") tt
                "pow" [reflect.VInt goInt 2; reflect.VInt goInt 9]
                (payloadOf "pow" [paramToken (newInt 2); paramToken (newInt 9)])
                [] ["POST http://peer"] response200 [] responseFault)
      as (_ & _ & Hfault); try reflexivity; [simpl; lia|].
    apply (Hfault faultBadArgs "4" "bad args"); reflexivity.
Defined.

(** X16: the indented response to [pow(2, 9)] is decoded as the plain one. *)
Lemma decoder_reads_elements_only_witness :
  parseResponse zeroParseFloat response512
  = parseResponse zeroParseFloat response512Indented.
Proof.
  apply (decoder_reads_elements_only zeroParseFloat response512
           response512Indented).
  repeat (constructor; simpl; try reflexivity;
          try (intros Hreads; vm_compute in Hreads; discriminate Hreads)).
Defined.

(** X17: the element of the Unix epoch is refused for its text, not for its
    shape. *)
Lemma encoder_output_is_well_formed_witness :
  encoderObjection (DateTimeConversionFailed "1970-01-01T00:00:00+0000") /\
  DateTimeConversionFailed "1970-01-01T00:00:00+0000" <> MalformedValue.
Proof.
  destruct (encoder_output_is_well_formed zeroParseFloat zeroFormatFloat
              (reflect.VTime epoch) (newDateTime epoch)
              (DateTimeConversionFailed "1970-01-01T00:00:00+0000"))
    as (Hobjection & Hshape & _).
  - reflexivity.
  - vm_compute. reflexivity.
  - split; [exact Hobjection|exact Hshape].
Defined.


(** X18: an [int8] comes back as an int. *)
Lemma kinds_from_end_to_end_witness :
  toValue zeroFormatFloat (reflect.VInt (reflect.Basic reflect.Int8) 5)
  = Return (newInt 5) /\
  parseElement zeroParseFloat (newInt 5) = OK (intResult 5) /\
  kind (intResult 5) = sentAs (reflect.VInt (reflect.Basic reflect.Int8) 5).
Proof.
  destruct (kinds_from_end_to_end zeroParseFloat zeroFormatFloat) as [_ Hsent].
  split; [reflexivity|]. split; [reflexivity|].
  apply (Hsent (reflect.VInt (reflect.Basic reflect.Int8) 5) (newInt 5)
           (intResult 5)); reflexivity.
Defined.
